(** * Context Keeper (sidekick-pro): query classification and retrieval engine

    A shallow embedding of [backend/app/main.py]: the query classifier, the
    retrieval orchestrator with its two storage backends, the answer
    synthesizer's dispatch, the confidence scorer and git-event ingestion,
    followed by the properties established about them.

    Conventions of the embedding.
    - Text is a [string] of 8-bit characters read as ASCII: [lower] folds
      [A-Z] only and the regular expression classes [\w] and [[a-fA-F0-9]]
      are the ASCII ones.
    - A commit payload (a Python dict) is the record [Event]; a key that may
      be absent is an [option] field and [e.get(k, d)] is [default d (k e)].
    - Integers are [Z]; [request.limit] is [Optional[int]], so [option Z].
    - Floats are IEEE-754 binary64 ([PrimFloat]).
    - A Python exception is a value of [Exn] threaded through [result]. *)

From stdpp Require Import gmap strings pretty.
From Stdlib Require Import ZArith Ascii String List Bool Lia Sorted Permutation.
From Stdlib Require Import Floats.
Import ListNotations.

Local Open Scope string_scope.
Local Open Scope Z_scope.

(** ** Python text primitives *)

Module Text.

Definition char_between (lo hi c : ascii) : bool :=
  (N_of_ascii lo <=? N_of_ascii c)%N && (N_of_ascii c <=? N_of_ascii hi)%N.

Definition is_upper (c : ascii) : bool := char_between "A" "Z" c.
Definition is_lower (c : ascii) : bool := char_between "a" "z" c.
Definition is_digit (c : ascii) : bool := char_between "0" "9" c.

(** [str.lower()] *)
Definition lower_char (c : ascii) : ascii :=
  if is_upper c then ascii_of_N (N_of_ascii c + 32) else c.

Fixpoint lower (s : string) : string :=
  match s with
  | EmptyString => EmptyString
  | String c s' => String (lower_char c) (lower s')
  end.

(** [needle in hay] on strings *)
Fixpoint str_in (needle hay : string) : bool :=
  match hay with
  | EmptyString => String.prefix needle hay
  | String _ hay' => String.prefix needle hay || str_in needle hay'
  end.

(** [any(p in q for p in phrases)] *)
Definition any_in (phrases : list string) (q : string) : bool :=
  existsb (fun p => str_in p q) phrases.

(** [s.startswith(p)] *)
Definition startswith (s p : string) : bool := String.prefix p s.

(** [s[:n]] for a non-negative literal [n] *)
Definition str_take (n : nat) (s : string) : string := String.substring 0 n s.

(** [len(s)] *)
Definition len (s : string) : Z := Z.of_nat (String.length s).

(** [s.isascii()]: every character is below U+0080.  On such text
    [lower], the classes [\w] and [\d] and the assertion [\b] are the
    ones written out in this file; Python folds, and counts as letters and
    digits, characters outside that range as well. *)
Definition is_ascii (s : string) : bool :=
  forallb (fun c => (N_of_ascii c <? 128)%N) (list_ascii_of_string s).

End Text.

(** ** The pattern [\b[a-fA-F0-9]{6,40}\b] *)

Module HexToken.
Import Text.

(** [\w] *)
Definition is_word_char (c : ascii) : bool :=
  is_lower c || is_upper c || is_digit c || Ascii.eqb c "_".

(** [[a-fA-F0-9]] *)
Definition is_hex_char (c : ascii) : bool :=
  char_between "a" "f" c || char_between "A" "F" c || is_digit c.

Definition is_word (o : option ascii) : bool :=
  match o with Some c => is_word_char c | None => false end.

(** [\b] holds between two neighbouring positions exactly when one side is
    a word character and the other is not (the string's edges count as
    non-word). *)
Definition word_boundary (before after : option ascii) : bool :=
  xorb (is_word before) (is_word after).

(** the number of leading characters of [s] in the class *)
Fixpoint hex_run (s : string) : nat :=
  match s with
  | String c s' => if is_hex_char c then S (hex_run s') else O
  | EmptyString => O
  end.

Definition char_at (s : string) (i : nat) : option ascii := String.get i s.

(** the repetition counts the greedy quantifier [{6,40}] tries, in order *)
Definition repetitions : list nat := rev (seq 6 35).

(** An attempt anchored at the current position: [prev] is the character
    just before it.  The quantifier takes as many characters as it can and
    gives them back one at a time until the closing [\b] holds. *)
Definition match_at (prev : option ascii) (s : string) : option string :=
  if word_boundary prev (char_at s 0) then
    match
      find (fun k => (k <=? hex_run s)%nat
                     && word_boundary (char_at s (k - 1)) (char_at s k))
           repetitions
    with
    | Some k => Some (String.substring 0 k s)
    | None => None
    end
  else None.

(** [re.search]: the leftmost match *)
Fixpoint search_from (prev : option ascii) (s : string) : option string :=
  match match_at prev s with
  | Some tok => Some tok
  | None =>
      match s with
      | String c s' => search_from (Some c) s'
      | EmptyString => None
      end
  end.

Definition re_search (s : string) : option string := search_from None s.

(** [re.findall]: all non-overlapping matches, left to right; [skip] counts
    the characters of the previous match still to step over. *)
Fixpoint findall_from (prev : option ascii) (skip : nat) (s : string)
  : list string :=
  match s with
  | EmptyString => []
  | String c s' =>
      match skip with
      | S k => findall_from (Some c) k s'
      | O =>
          match match_at prev s with
          | Some tok => tok :: findall_from (Some c) (String.length tok - 1) s'
          | None => findall_from (Some c) 0 s'
          end
      end
  end.

Definition re_findall (s : string) : list string := findall_from None 0 s.

(** The specification's reading of the pattern: the text contains a
    hexadecimal token of 6 to 40 characters, that is, a run of hexadecimal
    digits with no word character on either side. *)
Fixpoint all_hex (t : string) : bool :=
  match t with
  | EmptyString => true
  | String c t' => is_hex_char c && all_hex t'
  end.

(** the last character of [pre], or [prev] when [pre] is empty *)
Fixpoint last_char (prev : option ascii) (pre : string) : option ascii :=
  match pre with
  | EmptyString => prev
  | String c pre' => last_char (Some c) pre'
  end.

Definition contains_token (prev : option ascii) (s : string) : Prop :=
  exists pre tok post,
    s = pre ++ tok ++ post
    /\ (6 <= String.length tok <= 40)%nat
    /\ all_hex tok = true
    /\ is_word (last_char prev pre) = false
    /\ is_word (char_at post 0) = false.

End HexToken.

(** ** Query classifier *)

Inductive Intent :=
| latest_commit
| repository_summary
| list_commits
| specific_commit
| general_commit_query
| recent_changes
| commit_comparison
| timeline
| author_analysis
| general.

Module Classifier.
Import Text.

Definition latest_phrases : list string :=
  ["latest commit"; "most recent commit"; "last commit";
   "newest commit"; "recent commit"; "show the latest"].
Definition summary_words : list string :=
  ["summarize"; "summary"; "overview"; "describe repo"; "tell me about";
   "what is this repo"].
Definition list_phrases : list string :=
  ["show all commits"; "list commits"; "all the commits"; "every commit";
   "commit list"].
Definition commit_words : list string := ["commit"].
Definition action_words : list string :=
  ["show"; "explain"; "what"; "analyze"; "details"].
Definition recent_phrases : list string :=
  ["recent changes"; "what changed recently"; "latest changes"].
Definition comparison_phrases : list string :=
  ["compare"; "difference"; "changed from"; "vs"; "versus"].
Definition timeline_words : list string :=
  ["timeline"; "history"; "chronological"; "when"; "evolution"].
Definition author_words : list string :=
  ["who"; "author"; "contributor"; "developer"].

Definition has_hex_token (q : string) : bool :=
  match HexToken.re_search q with Some _ => true | None => false end.

(** [classify_query_type(query_lower)] *)
Definition classify_query_type (query_lower : string) : Intent :=
  if any_in latest_phrases query_lower then latest_commit
  else if any_in summary_words query_lower then repository_summary
  else if any_in list_phrases query_lower then list_commits
  else if any_in commit_words query_lower && any_in action_words query_lower then
    if has_hex_token query_lower then specific_commit
    else general_commit_query
  else if any_in recent_phrases query_lower then recent_changes
  else if any_in comparison_phrases query_lower then commit_comparison
  else if any_in timeline_words query_lower then timeline
  else if any_in author_words query_lower then author_analysis
  else general.

(** The classifier as the synthesizer calls it: on [query.lower()]. *)
Definition classify (query : string) : Intent :=
  classify_query_type (lower query).

(** The specification's reading: a closed, ordered table of
    (predicate, intent) rules evaluated in sequence; the first rule whose
    predicate holds decides and nothing after it is consulted. *)
Definition mentions_commit_action (q : string) : bool :=
  any_in commit_words q && any_in action_words q.

Definition rules : list ((string -> bool) * Intent) :=
  [ (any_in latest_phrases, latest_commit);
    (any_in summary_words, repository_summary);
    (any_in list_phrases, list_commits);
    (fun q => mentions_commit_action q && has_hex_token q, specific_commit);
    (fun q => mentions_commit_action q && negb (has_hex_token q),
      general_commit_query);
    (any_in recent_phrases, recent_changes);
    (any_in comparison_phrases, commit_comparison);
    (any_in timeline_words, timeline);
    (any_in author_words, author_analysis) ].

Fixpoint first_match (rs : list ((string -> bool) * Intent)) (q : string)
  : Intent :=
  match rs with
  | [] => general
  | (p, i) :: rs' => if p q then i else first_match rs' q
  end.

Definition classify_by_rules (query : string) : Intent :=
  first_match rules (lower query).

End Classifier.

Example classify_latest :
  Classifier.classify "Show the latest commit" = latest_commit.
Proof. reflexivity. Qed.

Example classify_hex6 :
  Classifier.classify "explain commit bbb222" = specific_commit.
Proof. vm_compute. reflexivity. Qed.

Example classify_hex4 :
  Classifier.classify "explain commit bbb2" = general_commit_query.
Proof. vm_compute. reflexivity. Qed.

Example findall_two :
  HexToken.re_findall "see abcdef12 and 0123456, not abcdefg1 or abc12"
  = ["abcdef12"; "0123456"].
Proof. vm_compute. reflexivity. Qed.

(** ** Data model *)

(** A commit payload: the dict stored in [git_events] and in the vector
    index.  An absent key is [None]. *)
Record Event := {
  commit_hash : option string;
  repository : option string;
  message : option string;
  author : option string;
  timestamp : option string;
  files_changed : option (list string);
  primary_branch : option string;
  all_branches : option (list string);
  merge_commit : option bool;
  event_type : option string;
  branch_context : option string
}.

(** One clause [{"key": k, "match": {"value": v}}] of an index filter. *)
Record Condition := { cond_key : string; cond_value : string }.

(** [{"must": [...]}] (all clauses) or [{"should": [...]}] (any clause) *)
Inductive QFilter :=
| Must (clauses : list Condition)
| Should (clauses : list Condition).

Inductive Exn :=
| NameError (name : string)
| TypeError (msg : string)
| ValueError (msg : string)
| ServiceError (msg : string).

Inductive result (A : Type) :=
| Ok (a : A)
| Raise (e : Exn).
Arguments Ok {A} a.
Arguments Raise {A} e.

Definition bind {A B} (r : result A) (k : A -> result B) : result B :=
  match r with
  | Ok a => k a
  | Raise e => Raise e
  end.

Notation "'let*' x ':=' r 'in' k" := (bind r (fun x => k))
  (at level 10, x name, r at level 100, k at level 200).

(** ** Python list primitives *)

Module Py.

(** [l[:n]] for an integer [n]: a negative bound counts from the end. *)
Definition take {A} (n : Z) (l : list A) : list A :=
  if 0 <=? n then firstn (Z.to_nat n) l
  else firstn (Z.to_nat (Z.of_nat (length l) + n)) l.

(** [l[:n]] where [n] may be [None] *)
Definition take_opt {A} (n : option Z) (l : list A) : list A :=
  match n with
  | Some n => take n l
  | None => l
  end.

(** truthiness of an optional string: [None] and [""] are false *)
Definition truthy (o : option string) : bool :=
  match o with
  | Some s => negb (String.eqb s "")
  | None => false
  end.

(** [x in l] for a list of strings *)
Definition str_mem (x : string) (l : list string) : bool :=
  existsb (String.eqb x) l.

Section sorted.
Context {A : Type} (key : A -> string).

(** [x] goes in front of the first element whose key is not greater. *)
Fixpoint insert_desc (x : A) (l : list A) : list A :=
  match l with
  | [] => [x]
  | y :: l' =>
      if String.ltb (key x) (key y) then y :: insert_desc x l'
      else x :: y :: l'
  end.

(** [sorted(l, key=key, reverse=True)]: stable, greatest key first;
    elements with equal keys keep their original order. *)
Definition sorted_desc (l : list A) : list A :=
  fold_right insert_desc [] l.
End sorted.

End Py.

(** ** The vector index (collaborator) *)

(** The Qdrant client as the program sees it: the stored payloads, the
    order in which the service ranks them for a query, and whether a call
    succeeds ([online = false]: every call raises). *)
Record Qdrant := {
  points : list Event;
  rank : string -> list Event -> list Event;
  online : bool
}.

Module Index.

(** The service's filter semantics: a [match] clause on a payload key
    holds when the stored value equals the clause's value, or contains it
    when the stored value is a list; [{must: [...]}] asks for all clauses,
    [{should: [...]}] for at least one. *)
Definition clause_holds (c : Condition) (e : Event) : bool :=
  let v := cond_value c in
  let stored o := match o with Some s => String.eqb s v | None => false end in
  if String.eqb (cond_key c) "repository" then stored (repository e)
  else if String.eqb (cond_key c) "commit_hash" then stored (commit_hash e)
  else if String.eqb (cond_key c) "primary_branch" then stored (primary_branch e)
  else if String.eqb (cond_key c) "all_branches"
    then Py.str_mem v (default [] (all_branches e))
  else false.

Definition filter_holds (f : option QFilter) (e : Event) : bool :=
  match f with
  | None => true
  | Some (Must cs) => forallb (fun c => clause_holds c e) cs
  | Some (Should cs) => existsb (fun c => clause_holds c e) cs
  end.

(** [qdrant_client.search(query_vector, query_filter, limit)]: the payloads
    of the [limit] best-ranked points that satisfy the filter (none for a
    limit that is not positive). *)
Definition search (cl : Qdrant) (query : string) (f : option QFilter)
    (limit : Z) : result (list Event) :=
  if online cl then
    Ok (firstn (Z.to_nat limit)
          (List.filter (filter_holds f) (rank cl query (points cl))))
  else Raise (ServiceError "vector index call failed").

(** [qdrant_client.scroll(scroll_filter, limit)[0]] *)
Definition scroll (cl : Qdrant) (f : option QFilter) (limit : Z)
  : result (list Event) :=
  if online cl then
    Ok (firstn (Z.to_nat limit) (List.filter (filter_holds f) (points cl)))
  else Raise (ServiceError "vector index call failed").

End Index.

(** ** Process state *)

(** An entry of [indexed_repositories]. *)
Record RepositoryEntry := {
  path : string;
  first_indexed : string;
  last_updated : string;
  commit_count : Z;
  selected : bool
}.

(** The module-level globals the request handlers read and write. *)
Record World := {
  git_events : list Event;
  qdrant_client : option Qdrant;
  embedding_model : bool;
  indexed_repositories : gmap string RepositoryEntry
}.

(** ** Retrieval orchestrator *)

Module Retrieval.

Definition timestamp_key (e : Event) : string := default "" (timestamp e).

(** the branch names named by a [{"should": [...]}] branch filter *)
Definition target_branches (should : list Condition) : list string :=
  map cond_value should.

(** [e.get('primary_branch') in target_branches or
     any(branch in target_branches for branch in e.get('all_branches', []))] *)
Definition touches_branch (targets : list string) (e : Event) : bool :=
  match primary_branch e with
  | Some b => Py.str_mem b targets
  | None => false
  end
  || existsb (fun b => Py.str_mem b targets) (default [] (all_branches e)).

(** the in-memory branch filter, when one is given *)
Definition apply_branch_filter (branch_filter : option (list Condition))
    (events : list Event) : list Event :=
  match branch_filter with
  | Some should => List.filter (touches_branch (target_branches should)) events
  | None => events
  end.

(** Remove duplicates based on commit hash: first occurrence wins. *)
Fixpoint unique_events (seen : list string) (events : list Event)
  : list Event :=
  match events with
  | [] => []
  | event :: rest =>
      let h := default "" (commit_hash event) in
      if Py.str_mem h seen then unique_events seen rest
      else event :: unique_events (h :: seen) rest
  end.

(** [search_similar] *)
Definition search_similar (w : World) (query : string) (limit : Z)
    (repo : option string) (branch_filter : option (list Condition))
    (temporal_priority : bool) : list Event :=
  match qdrant_client w, embedding_model w with
  | Some client, true =>
      let filter_conditions :=
        ((if Py.truthy repo
          then [ {| cond_key := "repository"; cond_value := default "" repo |} ]
          else [])
         ++ default [] branch_filter)%list in
      let search_filter :=
        match filter_conditions with
        | [] => None
        | [_] => Some (Must filter_conditions)
        | _ => Some (Should filter_conditions)
        end in
      match Index.search client query search_filter limit with
      | Ok events =>
          let events :=
            if temporal_priority then Py.sorted_desc timestamp_key events
            else events in
          unique_events [] events
      | Raise _ => []
      end
  | _, _ =>
      let filtered_events := git_events w in
      let filtered_events :=
        if Py.truthy repo
        then List.filter
               (fun e => match repository e with
                         | Some r => String.eqb r (default "" repo)
                         | None => false
                         end) filtered_events
        else filtered_events in
      let filtered_events := apply_branch_filter branch_filter filtered_events in
      let filtered_events :=
        if temporal_priority then Py.sorted_desc timestamp_key filtered_events
        else filtered_events in
      Py.take limit filtered_events
  end.

(** [search_similar_with_temporal_priority] *)
Definition search_similar_with_temporal_priority (w : World) (query : string)
    (limit : Z) (repo : option string) (temporal_priority : bool)
    (branch_filter : option (list Condition)) : result (list Event) :=
  if temporal_priority then
    match qdrant_client w, embedding_model w with
    | Some _, true =>
        let semantic_results :=
          search_similar w query (limit * 2) repo None false in
        let semantic_results :=
          apply_branch_filter branch_filter semantic_results in
        let temporal_results :=
          Py.sorted_desc timestamp_key semantic_results in
        Ok (Py.take limit temporal_results)
    | _, _ =>
        let filtered_events := git_events w in
        let filtered_events :=
          if Py.truthy repo
          then List.filter
                 (fun e => Text.str_in (default "" repo)
                                       (default "" (repository e)))
                 (git_events w)
          else filtered_events in
        let filtered_events :=
          apply_branch_filter branch_filter filtered_events in
        let sorted_events := Py.sorted_desc timestamp_key filtered_events in
        Ok (Py.take limit sorted_events)
    end
  else
    (* [search_with_filters] is not defined anywhere in the program *)
    Raise (NameError "search_with_filters").

End Retrieval.

(** ** Answer synthesizer *)

(** The text a formatter produces for a non-empty commit list is built from
    date formatting and the language-model service; the synthesizer's guards,
    dispatch and commit selection are what is modelled, and the report
    bodies are taken as given. *)
Record Renderers := {
  (** [generate_detailed_commit_analysis(commit, all_events)] *)
  generate_detailed_commit_analysis : Event -> list Event -> string;
  (** the body of [get_recent_changes] after its guard *)
  recent_changes_report : list Event -> string;
  (** the body of [generate_enhanced_repository_summary] after its guard *)
  repository_summary_report : list Event -> string -> string;
  (** the body of [list_all_commits] after its guard *)
  commit_listing : list Event -> string -> string;
  (** the body of [generate_detailed_timeline] after its guard *)
  timeline_report : list Event -> string -> string;
  (** the body of [analyze_author_activity] after its guard *)
  author_report : list Event -> string -> string;
  (** [query_llm] on the prompt [query_enhanced_llm] builds; [""] when the
      service gives no response *)
  llm_answer : string -> list Event -> string;
  (** the body of [generate_fallback_response] after its guard *)
  fallback_listing : string -> list Event -> string
}.

Module Synthesizer.
Import Text.

(** [extract_commit_hash]: [matches[0] if matches else ""] *)
Definition extract_commit_hash (query : string) : string :=
  match HexToken.re_findall query with
  | tok :: _ => tok
  | [] => ""
  end.

(** The commit [analyze_specific_commit] settles on. *)
Definition target_commit (events : list Event) (query : string)
  : option Event :=
  let commit_hash_ := extract_commit_hash query in
  if negb (String.eqb commit_hash_ "") then
    find (fun event => startswith (default "" (commit_hash event)) commit_hash_)
         events
  else
    match events with
    | first :: _ => Some first
    | [] => None
    end.

Section formatters.
Variable R : Renderers.

(** [get_latest_commit] *)
Definition get_latest_commit (events : list Event) : string :=
  match events with
  | [] => "No commits found."
  | _ =>
      match Py.sorted_desc Retrieval.timestamp_key events with
      | latest :: _ => generate_detailed_commit_analysis R latest events
      | [] => "No commits found."
      end
  end.

(** [get_recent_changes] *)
Definition get_recent_changes (events : list Event) : string :=
  match events with
  | [] => "No recent changes found."
  | _ => recent_changes_report R events
  end.

(** [generate_enhanced_repository_summary] *)
Definition generate_enhanced_repository_summary (events : list Event)
    (query : string) : string :=
  match events with
  | [] => "No repository data available for summary."
  | _ => repository_summary_report R events query
  end.

(** [list_all_commits] *)
Definition list_all_commits (events : list Event) (query : string)
  : string :=
  match events with
  | [] => "No commits found."
  | _ => commit_listing R events query
  end.

(** [analyze_specific_commit] *)
Definition analyze_specific_commit (events : list Event) (query : string)
  : string :=
  match target_commit events query with
  | None => "Could not find the specified commit."
  | Some target => generate_detailed_commit_analysis R target events
  end.

(** [handle_general_commit_query] *)
Definition handle_general_commit_query (events : list Event)
    (query : string) : string :=
  if any_in ["commit"; "show commit"; "what commit"; "tell me about commit"]
            (lower query)
  then get_latest_commit events
  else analyze_specific_commit events query.

(** [generate_detailed_timeline] *)
Definition generate_detailed_timeline (events : list Event)
    (query : string) : string :=
  match events with
  | [] => "No timeline data available."
  | _ => timeline_report R events query
  end.

(** [analyze_author_activity] *)
Definition analyze_author_activity (events : list Event) (query : string)
  : string :=
  match events with
  | [] => "No author data available."
  | _ => author_report R events query
  end.

(** [query_enhanced_llm] *)
Definition query_enhanced_llm (query : string) (events : list Event)
  : string :=
  match events with
  | [] => ""
  | _ => llm_answer R query events
  end.

(** [generate_fallback_response] *)
Definition generate_fallback_response (query : string)
    (events : list Event) : string :=
  match events with
  | [] => "No relevant events found."
  | _ => fallback_listing R query events
  end.

(** The name [compare_commits] is bound twice at module level; when a
    request is served it denotes the later binding, the one-parameter
    handler of [/api/commits/compare], so the synthesizer's two-argument
    call cannot be applied. *)
Definition compare_commits (events : list Event) (query : string)
  : result string :=
  Raise (TypeError
    "compare_commits() takes 1 positional argument but 2 were given").

(** [generate_intelligent_answer] *)
Definition generate_intelligent_answer (query : string)
    (events : list Event) : result string :=
  match events with
  | [] => Ok "No relevant events found."
  | _ =>
      let query_lower := lower query in
      match Classifier.classify_query_type query_lower with
      | latest_commit => Ok (get_latest_commit events)
      | recent_changes => Ok (get_recent_changes events)
      | repository_summary =>
          Ok (generate_enhanced_repository_summary events query)
      | list_commits => Ok (list_all_commits events query)
      | specific_commit => Ok (analyze_specific_commit events query)
      | general_commit_query => Ok (handle_general_commit_query events query)
      | commit_comparison => compare_commits events query
      | timeline => Ok (generate_detailed_timeline events query)
      | author_analysis => Ok (analyze_author_activity events query)
      | general =>
          let llm_response := query_enhanced_llm query events in
          if negb (String.eqb llm_response "") then Ok llm_response
          else Ok (generate_fallback_response query events)
      end
  end.

End formatters.

End Synthesizer.

(** ** Confidence scorer *)

Module Confidence.

Local Open Scope float_scope.

(** the binary64 values of the source's decimal literals *)
Definition c0_5 : float := 0x1p-1.
Definition c0_3 : float := 0x1.3333333333333p-2.
Definition c0_05 : float := 0x1.999999999999ap-5.
Definition c0_1 : float := 0x1.999999999999ap-4.
Definition c0_95 : float := 0x1.e666666666666p-1.

(** [min(a, b)] on floats: [b] only when it is strictly smaller *)
Definition py_min (a b : float) : float := if b <? a then b else a.

(** [float(len(l))]: the conversion of a machine integer, rounded to
    nearest; a list length fits a machine word *)
Definition float_of_len {A} (l : list A) : float :=
  PrimFloat.of_uint63 (Uint63.of_Z (Z.of_nat (length l))).

(** [calculate_confidence] *)
Definition calculate_confidence {A} (query answer : string)
    (sources : list A) : float :=
  let confidence := c0_5 in
  let confidence :=
    match sources with
    | [] => confidence
    | _ => confidence + py_min c0_3 (float_of_len sources * c0_05)
    end in
  let confidence :=
    if (100 <? Text.len answer)%Z then confidence + c0_1 else confidence in
  let confidence :=
    if Text.str_in "I found" answer || Text.str_in "Based on" answer
    then confidence + c0_1 else confidence in
  py_min c0_95 confidence.

(** The specification's reading: base 0.5; +0.05 per source, capped at
    +0.3; +0.1 for a long answer; +0.1 for an attribution phrase; the sum
    clamped to 0.95. *)
Definition confidence_by_words (n_sources : float) (long attributed : bool)
  : float :=
  py_min c0_95
    (c0_5 + py_min c0_3 (n_sources * c0_05)
     + (if long then c0_1 else 0) + (if attributed then c0_1 else 0)).

Definition is_long (answer : string) : bool := (100 <? Text.len answer)%Z.

Definition has_attribution (answer : string) : bool :=
  Text.str_in "I found" answer || Text.str_in "Based on" answer.

End Confidence.

(** ** The query endpoint *)

(** [QueryRequest] *)
Record QueryRequest := {
  q_query : string;
  q_limit : option Z;
  q_repository : option string;
  q_branches : option (list string)
}.

(** One entry of the response's [sources]. *)
Record Source := {
  src_type : string;
  src_content : string;
  src_timestamp : string;
  src_author : string;
  src_commit : string;
  src_repository : string;
  src_files_changed : list string;
  src_primary_branch : option string;
  src_all_branches : list string;
  src_merge_commit : bool;
  src_branch_context : option string;
  src_context : string
}.

(** [QueryResponse] *)
Record QueryResponse := {
  answer : string;
  sources : list Source;
  confidence : float
}.

(** What the endpoint hands back to the framework: the response, or the
    [HTTPException] raised from its catch-all handler. *)
Inductive Reply :=
| Response (r : QueryResponse)
| HTTPException (status : Z) (cause : Exn).

Module Endpoint.
Import Text.

Definition temporal_keywords : list string :=
  ["latest"; "recent"; "newest"; "last"; "most recent"; "show the latest"].

Definition is_temporal_query (query : string) : bool :=
  any_in temporal_keywords (lower query).

(** the [{"should": [...]}] filter built from the requested branches *)
Definition build_branch_filter (branches : option (list string))
  : option (list Condition) :=
  match branches with
  | Some (b :: bs) =>
      Some (map (fun branch => {| cond_key := "primary_branch";
                                  cond_value := branch |}) (b :: bs)
            ++ map (fun branch => {| cond_key := "all_branches";
                                     cond_value := branch |}) (b :: bs))%list
  | _ => None
  end.

(** [request.limit * 2] *)
Definition limit_times_2 (limit : option Z) : result Z :=
  match limit with
  | Some n => Ok (n * 2)
  | None =>
      Raise (TypeError "unsupported operand type(s) for *: 'NoneType' and 'int'")
  end.

(** the retrieval step of [query_context] *)
Definition retrieve (w : World) (request : QueryRequest)
  : result (list Event) :=
  let query := q_query request in
  let repo := q_repository request in
  let is_temporal := is_temporal_query query in
  let branch_filter := build_branch_filter (q_branches request) in
  if is_temporal || bool_decide (is_Some branch_filter) then
    let* limit := limit_times_2 (q_limit request) in
    Retrieval.search_similar_with_temporal_priority
      w query limit repo is_temporal branch_filter
  else
    let* limit :=
      (if str_in "summar" (lower query) then Ok 50
       else limit_times_2 (q_limit request)) in
    Ok (Retrieval.search_similar w query limit repo None false).

(** one formatted source; [i] is the 0-based position, [total] is
    [len(similar_events)] *)
Definition format_source (total : nat) (i : nat) (event : Event) : Source :=
  {| src_type := default "git_commit" (event_type event);
     src_content := default "" (message event);
     src_timestamp := default "" (timestamp event);
     src_author := default "" (author event);
     src_commit :=
       if Py.truthy (commit_hash event)
       then str_take 8 (default "" (commit_hash event)) else "";
     src_repository := default "unknown" (repository event);
     src_files_changed := firstn 5 (default [] (files_changed event));
     src_primary_branch := primary_branch event;
     src_all_branches := default [] (all_branches event);
     src_merge_commit := default false (merge_commit event);
     src_branch_context := branch_context event;
     src_context :=
       "Commit " +:+ pretty (i + 1)%nat +:+ " of " +:+ pretty total |}.

(** [formatted_sources] *)
Definition format_sources (limit : option Z) (similar_events : list Event)
  : list Source :=
  imap (format_source (length similar_events))
       (Py.take_opt limit similar_events).

(** [query_context] *)
Definition query_context (R : Renderers) (w : World) (request : QueryRequest)
  : Reply :=
  let attempt :=
    let* similar_events := retrieve w request in
    let* answer_ :=
      Synthesizer.generate_intelligent_answer R (q_query request)
                                              similar_events in
    let formatted_sources := format_sources (q_limit request) similar_events in
    Ok {| answer := answer_;
          sources := formatted_sources;
          confidence :=
            Confidence.calculate_confidence (q_query request) answer_
                                            formatted_sources |} in
  match attempt with
  | Ok response => Response response
  | Raise e => HTTPException 500 e
  end.

End Endpoint.

(** ** Ingestion *)

(** the outcome [ingest_git_event] reports in its [status] field *)
Inductive IngestStatus :=
| duplicate
| success.

Module Ingestion.
Import Text.

(** [check_commit_exists] *)
Definition check_commit_exists (w : World) (commit_hash_ : string) : bool :=
  match qdrant_client w with
  | None => false
  | Some client =>
      if String.eqb commit_hash_ "" then false
      else
        match
          Index.scroll client
            (Some (Must [ {| cond_key := "commit_hash";
                             cond_value := commit_hash_ |} ])) 1
        with
        | Ok results => (0 <? Z.of_nat (length results))
        | Raise _ => false
        end
  end.

(** [store_in_qdrant], the background task: the payload is upserted under
    a fresh point id when client and embedding model are there and the
    call succeeds. *)
Definition store_in_qdrant (w : World) (event : Event) : World :=
  match qdrant_client w, embedding_model w with
  | Some client, true =>
      if online client then
        {| git_events := git_events w;
           qdrant_client :=
             Some {| points := points client ++ [event];
                     rank := rank client;
                     online := online client |};
           embedding_model := embedding_model w;
           indexed_repositories := indexed_repositories w |}
      else w
  | _, _ => w
  end.

Section ingest.
(** [normalize_repo_path] resolves the path against the file system. *)
Variable normalize_repo_path : string -> string.
(** [datetime.now().isoformat()] at the time of the call *)
Variable now : string.

(** the event as stored: timestamp defaulted, type and repository set *)
Definition stored_event (event : Event) (r : string) : Event :=
  {| commit_hash := commit_hash event; repository := Some r;
     message := message event; author := author event;
     timestamp := Some (default now (timestamp event));
     files_changed := files_changed event;
     primary_branch := primary_branch event;
     all_branches := all_branches event;
     merge_commit := merge_commit event;
     event_type := Some "git_commit";
     branch_context := branch_context event |}.

(** the repository bookkeeping at the top of [ingest_git_event] *)
Definition track_repository (repos : gmap string RepositoryEntry)
    (r : string) : gmap string RepositoryEntry :=
  let repos :=
    if negb (String.eqb r "unknown") && bool_decide (repos !! r = None)
    then <[ r := {| path := r; first_indexed := now; last_updated := now;
                    commit_count := 0; selected := true |} ]> repos
    else repos in
  match repos !! r with
  | Some entry =>
      <[ r := {| path := path entry; first_indexed := first_indexed entry;
                 last_updated := now;
                 commit_count := commit_count entry + 1;
                 selected := selected entry |} ]> repos
  | None => repos
  end.

(** [ingest_git_event]: the new state, the reported status and the
    payload handed to the background task, if any. *)
Definition ingest_git_event (w : World) (event : Event)
  : World * IngestStatus * option Event :=
  let commit_hash_ := default "" (commit_hash event) in
  let r := default "unknown" (repository event) in
  let r := if negb (String.eqb r "unknown") then normalize_repo_path r
           else r in
  let repos := track_repository (indexed_repositories w) r in
  if negb (String.eqb commit_hash_ "") && check_commit_exists w commit_hash_
  then
    ({| git_events := git_events w; qdrant_client := qdrant_client w;
        embedding_model := embedding_model w;
        indexed_repositories := repos |}, duplicate, None)
  else
    let event' := stored_event event r in
    ({| git_events := git_events w ++ [event'];
        qdrant_client := qdrant_client w;
        embedding_model := embedding_model w;
        indexed_repositories := repos |},
     success,
     if bool_decide (is_Some (qdrant_client w)) then Some event' else None).

(** an ingestion followed by its background task *)
Definition ingest_and_store (w : World) (event : Event)
  : World * IngestStatus :=
  match ingest_git_event w event with
  | (w', status, Some stored) => (store_in_qdrant w' stored, status)
  | (w', status, None) => (w', status)
  end.

End ingest.

(** the number of distinct commit hashes held in memory *)
Definition unique_commit_count (w : World) : nat :=
  length (remove_dups (omap commit_hash (git_events w))).

End Ingestion.

(** ** The vector index: point ids, paging and deletion *)

Module Collection.

(** The points with their ids; a point is identified by its position in
    the collection. *)
Fixpoint number_from (first : nat) (payloads : list Event)
  : list (nat * Event) :=
  match payloads with
  | [] => []
  | e :: rest => (first, e) :: number_from (S first) rest
  end.

Definition numbered (cl : Qdrant) : list (nat * Event) :=
  number_from 0 (points cl).

(** [qdrant_client.scroll(scroll_filter, limit, offset)]: a page of at most
    [limit] points that satisfy the filter, in id order from id [offset]
    on, and [next_page_offset], the id of the first point left out ([None]
    when nothing is left). *)
Definition scroll (cl : Qdrant) (f : option QFilter) (limit : nat)
    (offset : option nat) : result (list (nat * Event) * option nat) :=
  if online cl then
    let rest :=
      List.filter
        (fun p => Index.filter_holds f p.2 && (default 0%nat offset <=? p.1)%nat)
        (numbered cl) in
    Ok (firstn limit rest, fst <$> nth_error rest limit)
  else Raise (ServiceError "vector index call failed").

(** [qdrant_client.delete(points_selector=ids)] *)
Definition delete (cl : Qdrant) (ids : list nat) : result Qdrant :=
  if online cl then
    Ok {| points :=
            map snd
              (List.filter (fun p => negb (existsb (Nat.eqb p.1) ids))
                           (numbered cl));
          rank := rank cl;
          online := online cl |}
  else Raise (ServiceError "vector index call failed").

(** The paging loop of the administration endpoints,
    [offset = None
     while True:
         points, next_offset = qdrant_client.scroll(..., limit=100, offset=offset)
         acc = step(acc, points)
         if next_offset is None: break
         offset = next_offset],
    run for at most [rounds] pages. *)
Fixpoint scroll_loop {A} (rounds : nat) (cl : Qdrant) (f : option QFilter)
    (step : A -> list (nat * Event) -> A) (acc : A) (offset : option nat)
  : option (result A) :=
  match rounds with
  | O => None
  | S rounds' =>
      match scroll cl f 100 offset with
      | Raise e => Some (Raise e)
      | Ok (page, next_offset) =>
          let acc := step acc page in
          match next_offset with
          | None => Some (Ok acc)
          | Some o => scroll_loop rounds' cl f step acc (Some o)
          end
      end
  end.

(** Every page but the last moves the offset forward, so the loop is
    through within one round per stored point and one more. *)
Definition scroll_all {A} (cl : Qdrant) (f : option QFilter)
    (step : A -> list (nat * Event) -> A) (acc : A) : result A :=
  match scroll_loop (S (length (points cl))) cl f step acc None with
  | Some r => r
  | None => Raise (ServiceError "paging did not finish")
  end.

End Collection.

(** ** Repository administration *)

Module Admin.

(** what [delete_repository], [cleanup_bad_entries] and
    [cleanup_orphaned_commits] answer *)
Inductive DeleteReply :=
| repository_deleted (commits_deleted : nat)
| repository_not_found
| delete_failed (cause : Exn).

Inductive CleanupReply :=
| cleaned (removed : nat)
| cleanup_error (cause : Exn).

Inductive OrphanReply :=
| orphans_removed (removed : nat)
| index_not_available
| orphan_cleanup_error (cause : Exn).

(** [{"must": [{"key": "repository", "match": {"value": repo_path}}]}] *)
Definition repository_filter (repo_path : string) : option QFilter :=
  Some (Must [ {| cond_key := "repository"; cond_value := repo_path |} ]).

(** [e.get("repository") != repo_path] *)
Definition other_repository (repo_path : string) (e : Event) : bool :=
  match repository e with
  | Some r => negb (String.eqb r repo_path)
  | None => true
  end.

(** [delete_repository]: the new state and the reply (404 when the path
    is not tracked, 500 when the index call fails). *)
Definition delete_repository (w : World) (repo_path : string)
  : World * DeleteReply :=
  match indexed_repositories w !! repo_path with
  | None => (w, repository_not_found)
  | Some _ =>
      let index_step : result (option Qdrant * nat) :=
        match qdrant_client w with
        | Some client =>
            let* commit_ids_to_delete :=
              Collection.scroll_all client (repository_filter repo_path)
                (fun ids page => (ids ++ map fst page)%list) [] in
            let* client :=
              match commit_ids_to_delete with
              | [] => Ok client
              | _ => Collection.delete client commit_ids_to_delete
              end in
            Ok (Some client, length commit_ids_to_delete)
        | None => Ok (None, 0%nat)
        end in
      match index_step with
      | Ok (client, commits_deleted) =>
          ({| git_events :=
                List.filter (other_repository repo_path) (git_events w);
              qdrant_client := client;
              embedding_model := embedding_model w;
              indexed_repositories := delete repo_path (indexed_repositories w) |},
           repository_deleted commits_deleted)
      | Raise e => (w, delete_failed e)
      end
  end.

(** [e.get("commit_hash")] as a condition *)
Definition has_hash (e : Event) : bool := Py.truthy (commit_hash e).

(** [cleanup_bad_entries] *)
Definition cleanup_bad_entries (w : World) : World * CleanupReply :=
  let git_events_ := List.filter has_hash (git_events w) in
  match qdrant_client w with
  | Some client =>
      let index_step : result (Qdrant * nat) :=
        let* page := Collection.scroll client None 1000 None in
        let points_to_delete :=
          map fst (List.filter (fun point => negb (has_hash point.2)) page.1) in
        let removed_count := length points_to_delete in
        let* client :=
          match points_to_delete with
          | [] => Ok client
          | _ => Collection.delete client points_to_delete
          end in
        Ok (client, removed_count) in
      match index_step with
      | Ok (client, removed_count) =>
          ({| git_events := git_events_; qdrant_client := Some client;
              embedding_model := embedding_model w;
              indexed_repositories := indexed_repositories w |},
           cleaned removed_count)
      | Raise e =>
          ({| git_events := git_events_; qdrant_client := Some client;
              embedding_model := embedding_model w;
              indexed_repositories := indexed_repositories w |},
           cleanup_error e)
      end
  | None =>
      ({| git_events := git_events_; qdrant_client := None;
          embedding_model := embedding_model w;
          indexed_repositories := indexed_repositories w |},
       cleaned 0)
  end.

(** [repo and repo not in indexed_repositories] *)
Definition is_orphan (repos : gmap string RepositoryEntry) (e : Event)
  : bool :=
  let repo := default "" (repository e) in
  negb (String.eqb repo "") && bool_decide (repos !! repo = None).

(** [cleanup_orphaned_commits] *)
Definition cleanup_orphaned_commits (w : World) : World * OrphanReply :=
  match qdrant_client w with
  | None => (w, index_not_available)
  | Some client =>
      let index_step : result (Qdrant * nat) :=
        let* all_points :=
          Collection.scroll_all client None
            (fun all_points page => (all_points ++ page)%list) [] in
        let orphaned_ids :=
          map fst
            (List.filter
               (fun point => is_orphan (indexed_repositories w) point.2)
               all_points) in
        let* client :=
          match orphaned_ids with
          | [] => Ok client
          | _ => Collection.delete client orphaned_ids
          end in
        Ok (client, length orphaned_ids) in
      match index_step with
      | Ok (client, removed) =>
          ({| git_events := git_events w; qdrant_client := Some client;
              embedding_model := embedding_model w;
              indexed_repositories := indexed_repositories w |},
           orphans_removed removed)
      | Raise e => (w, orphan_cleanup_error e)
      end
  end.

(** [indexed_repositories[repo_path]["commit_count"] = count] *)
Definition set_commit_count (count : Z) (entry : RepositoryEntry)
  : RepositoryEntry :=
  {| path := path entry; first_indexed := first_indexed entry;
     last_updated := last_updated entry; commit_count := count;
     selected := selected entry |}.

(** The loop of [get_repositories] over the tracked paths; an index error
    is logged and ends the loop, the counts written so far stay. *)
Fixpoint recount (client : Qdrant) (paths : list string)
    (repos : gmap string RepositoryEntry) : gmap string RepositoryEntry :=
  match paths with
  | [] => repos
  | repo_path :: rest =>
      match
        Collection.scroll_all client (repository_filter repo_path)
          (fun count page => (count + length page)%nat) 0%nat
      with
      | Ok count =>
          recount client rest
            (alter (set_commit_count (Z.of_nat count)) repo_path repos)
      | Raise _ => repos
      end
  end.

(** [get_repositories]: the new state and the reply's [repositories] and
    [total]. *)
Definition get_repositories (w : World)
  : World * (gmap string RepositoryEntry * nat) :=
  let repos :=
    match qdrant_client w with
    | Some client =>
        recount client (map_to_list (indexed_repositories w)).*1
                (indexed_repositories w)
    | None => indexed_repositories w
    end in
  ({| git_events := git_events w; qdrant_client := qdrant_client w;
      embedding_model := embedding_model w;
      indexed_repositories := repos |},
   (repos, size repos)).

(** [clear_all_repositories]: the repository table is emptied; the commits
    stay in memory and in the index. *)
Definition clear_all_repositories (w : World) : World :=
  {| git_events := git_events w; qdrant_client := qdrant_client w;
     embedding_model := embedding_model w; indexed_repositories := ∅ |}.





End Admin.

(** ** The commit report's context section *)

Module CommitReport.
Import Text.

Definition newline : string := String (ascii_of_nat 10) "".

(** [f"**{label}:** [{c.get('commit_hash', '')[:8]}] {c.get('message', '')[:50]}\n"] *)
Definition neighbour_line (label : string) (c : Event) : string :=
  "**" +:+ label +:+ ":** ["
  +:+ str_take 8 (default "" (commit_hash c)) +:+ "] "
  +:+ str_take 50 (default "" (message c)) +:+ newline.

(** the position of the first event whose [commit_hash] is [h], counting
    from [i]; [-1] when there is none *)
Fixpoint commit_index_from (i : Z) (h : string) (all_events : list Event)
  : Z :=
  match all_events with
  | [] => -1
  | event :: rest =>
      if match commit_hash event with
         | Some h' => String.eqb h' h
         | None => false
         end
      then i
      else commit_index_from (i + 1) h rest
  end.

(** [analyze_commit_context] *)
Definition analyze_commit_context (commit : Event) (all_events : list Event)
  : string :=
  let commit_hash_ := default "" (commit_hash commit) in
  let commit_index := commit_index_from 0 commit_hash_ all_events in
  if commit_index =? -1 then "Could not determine commit context"
  else
    let context := "" in
    let context :=
      if commit_index <? Z.of_nat (length all_events) - 1 then
        match all_events !! Z.to_nat (commit_index + 1) with
        | Some prev_commit => context +:+ neighbour_line "Previous" prev_commit
        | None => context
        end
      else context in
    let context :=
      if 0 <? commit_index then
        match all_events !! Z.to_nat (commit_index - 1) with
        | Some next_commit => context +:+ neighbour_line "Following" next_commit
        | None => context
        end
      else context in
    if negb (String.eqb context "") then context
    else "This is an isolated commit".

End CommitReport.

(** ** Commit patterns *)

Module CommitPatterns.
Import Text.

(** [patterns["commit_types"]] *)
Record CommitTypes := {
  feature : Z;
  fix_ : Z;
  refactor : Z;
  docs : Z;
  other : Z
}.

(** The dict [analyze_commit_patterns] returns, without its key
    [commit_frequency], which stays the empty dict; [common_files] keeps
    the order in which the files were first seen, as a Python dict does. *)
Record Patterns := {
  commit_types : CommitTypes;
  common_files : list (string * Z);
  most_changed_files : list (string * Z)
}.

(** the branch of the [if]/[elif] chain a message takes *)
Definition count_commit (message_ : string) (t : CommitTypes) : CommitTypes :=
  let message_ := lower message_ in
  if str_in "feat" message_ || str_in "add" message_ then
    {| feature := feature t + 1; fix_ := fix_ t; refactor := refactor t;
       docs := docs t; other := other t |}
  else if str_in "fix" message_ || str_in "bug" message_ then
    {| feature := feature t; fix_ := fix_ t + 1; refactor := refactor t;
       docs := docs t; other := other t |}
  else if str_in "refactor" message_ then
    {| feature := feature t; fix_ := fix_ t; refactor := refactor t + 1;
       docs := docs t; other := other t |}
  else if str_in "doc" message_ then
    {| feature := feature t; fix_ := fix_ t; refactor := refactor t;
       docs := docs t + 1; other := other t |}
  else
    {| feature := feature t; fix_ := fix_ t; refactor := refactor t;
       docs := docs t; other := other t + 1 |}.

(** [d[file] = d.get(file, 0) + 1] *)
Fixpoint bump (file : string) (d : list (string * Z)) : list (string * Z) :=
  match d with
  | [] => [(file, 0 + 1)]
  | (f, n) :: rest =>
      if String.eqb f file then (f, n + 1) :: rest
      else (f, n) :: bump file rest
  end.

(** [x] goes in front of the first entry whose count is not greater. *)
Fixpoint insert_by_count (x : string * Z) (l : list (string * Z))
  : list (string * Z) :=
  match l with
  | [] => [x]
  | y :: l' =>
      if x.2 <? y.2 then y :: insert_by_count x l' else x :: y :: l'
  end.

(** [sorted(d.items(), key=lambda x: x[1], reverse=True)] *)
Definition sorted_by_count (d : list (string * Z)) : list (string * Z) :=
  fold_right insert_by_count [] d.

(** the state of the loop over the events *)
Definition visit (p : CommitTypes * list (string * Z)) (event : Event)
  : CommitTypes * list (string * Z) :=
  (count_commit (default "" (message event)) p.1,
   fold_left (fun d file => bump file d) (default [] (files_changed event)) p.2).

(** [analyze_commit_patterns] *)
Definition analyze_commit_patterns (events : list Event) : Patterns :=
  let start :=
    ({| feature := 0; fix_ := 0; refactor := 0; docs := 0; other := 0 |},
     @nil (string * Z)) in
  let p := fold_left visit events start in
  {| commit_types := p.1;
     common_files := p.2;
     most_changed_files := firstn 10 (sorted_by_count p.2) |}.

End CommitPatterns.

(** ** The commit listing's page *)

Module Listing.
Import Text HexToken.

(** the number of leading characters of [s] in [\d] *)
Fixpoint digit_run (s : string) : nat :=
  match s with
  | String c s' => if is_digit c then S (digit_run s') else O
  | EmptyString => O
  end.

(** An attempt of [\b(\d+)\b] anchored at the current position: the
    quantifier takes all the digits and gives them back one at a time
    until the closing [\b] holds. *)
Definition number_at (prev : option ascii) (s : string) : option string :=
  if word_boundary prev (char_at s 0) then
    match
      find (fun k => word_boundary (char_at s (k - 1)) (char_at s k))
           (rev (seq 1 (digit_run s)))
    with
    | Some k => Some (String.substring 0 k s)
    | None => None
    end
  else None.

(** [re.findall(r'\b(\d+)\b', query)] *)
Fixpoint numbers_from (prev : option ascii) (skip : nat) (s : string)
  : list string :=
  match s with
  | EmptyString => []
  | String c s' =>
      match skip with
      | S k => numbers_from (Some c) k s'
      | O =>
          match number_at prev s with
          | Some tok => tok :: numbers_from (Some c) (String.length tok - 1) s'
          | None => numbers_from (Some c) 0 s'
          end
      end
  end.

(** the value of a string of decimal digits *)
Definition decimal (digits : string) : Z :=
  fold_left (fun n c => 10 * n + (Z.of_N (N_of_ascii c) - 48))
            (list_ascii_of_string digits) 0.

(** [sys.get_int_max_str_digits()]: the interpreter's default bound on
    the number of digits [int] converts *)
Definition int_max_str_digits : nat := 4300.

(** [int(digits)] on a string of decimal digits: a [ValueError] when the
    string has more digits than the bound (leading zeros count) *)
Definition int (digits : string) : result Z :=
  if (int_max_str_digits <? String.length digits)%nat
  then Raise (ValueError
                "Exceeds the limit (4300 digits) for integer string conversion")
  else Ok (decimal digits).

(** [extract_number_from_query]: [int(numbers[0]) if numbers else 0] *)
Definition extract_number_from_query (query : string) : result Z :=
  match numbers_from None 0 query with
  | first :: _ => int first
  | [] => Ok 0
  end.

(** What [list_all_commits] renders: the message for an empty list, or the
    page size, the commits shown and whether the closing line
    "Showing {limit} of {len(events)} total commits" is there. *)
Inductive Page :=
| no_commits_found
| commits_page (limit : Z) (limited_events : list Event) (footer : bool).

(** [list_all_commits], up to the text of the page *)
Definition list_all_commits (events : list Event) (query : string)
  : result Page :=
  match events with
  | [] => Ok no_commits_found
  | _ =>
      let* number := extract_number_from_query query in
      let limit := if number =? 0 then 20 else number in
      let limited_events := Py.take limit events in
      Ok (commits_page limit limited_events
                       (limit <? Z.of_nat (length events)))
  end.

End Listing.

Example listing_numbers :
  map Listing.extract_number_from_query
      ["show all commits"; "list commits, the last 5 please";
       "list commits 0"; "list commits from v2 and 007"; "list 3rd commits"]
  = [Ok 0; Ok 5; Ok 0; Ok 7; Ok 0].
Proof. vm_compute. reflexivity. Qed.

(** ** Repository statistics *)

Module Statistics.
Import Text.

(** [stats['commit_breakdown']] *)
Record Breakdown := {
  Features : Z;
  Fixes : Z;
  Refactors : Z;
  Documentation : Z;
  Tests : Z;
  Build : Z;
  Other : Z
}.

(** The dict [analyze_comprehensive_stats] returns. *)
Record Stats := {
  total_commits : nat;
  contributors : nat;
  files_touched : nat;
  commit_breakdown : Breakdown;
  author_stats : list (string * Z);
  primary_language : string;
  date_range : string
}.

(** [s.upper()] *)
Definition upper_char (c : ascii) : ascii :=
  if is_lower c then ascii_of_N (N_of_ascii c - 32) else c.

Fixpoint upper (s : string) : string :=
  match s with
  | EmptyString => EmptyString
  | String c s' => String (upper_char c) (upper s')
  end.

(** [s.split('<')[0]]: the text before the first ['<'] *)
Fixpoint before_angle (s : string) : string :=
  match s with
  | EmptyString => EmptyString
  | String c s' =>
      if Ascii.eqb c "<" then EmptyString else String c (before_angle s')
  end.

(** the characters [str.strip()] removes: tab to carriage return, the four
    separators and the space *)
Definition is_space (c : ascii) : bool :=
  char_between (ascii_of_nat 9) (ascii_of_nat 13) c
  || char_between (ascii_of_nat 28) (ascii_of_nat 32) c.

Fixpoint lstrip (s : string) : string :=
  match s with
  | EmptyString => EmptyString
  | String c s' => if is_space c then lstrip s' else s
  end.

Fixpoint rstrip (s : string) : string :=
  match s with
  | EmptyString => EmptyString
  | String c s' =>
      match rstrip s' with
      | EmptyString => if is_space c then EmptyString else String c EmptyString
      | r => String c r
      end
  end.

(** [s.strip()] *)
Definition strip (s : string) : string := rstrip (lstrip s).

(** [file.split('.')[-1]]: the text after the last ['.'] *)
Fixpoint after_last_dot (s : string) : string :=
  match s with
  | EmptyString => EmptyString
  | String c s' =>
      if str_in "." s' then after_last_dot s'
      else if Ascii.eqb c "." then s' else s
  end.

(** the branch of the [if]/[elif] chain a message takes *)
Definition count_commit (message_ : string) (t : Breakdown) : Breakdown :=
  let message_ := lower message_ in
  if any_in ["feat"; "add"; "implement"; "create"; "new"] message_ then
    {| Features := Features t + 1; Fixes := Fixes t; Refactors := Refactors t;
       Documentation := Documentation t; Tests := Tests t; Build := Build t;
       Other := Other t |}
  else if any_in ["fix"; "bug"; "patch"; "resolve"] message_ then
    {| Features := Features t; Fixes := Fixes t + 1; Refactors := Refactors t;
       Documentation := Documentation t; Tests := Tests t; Build := Build t;
       Other := Other t |}
  else if any_in ["refactor"; "improve"; "optimize"] message_ then
    {| Features := Features t; Fixes := Fixes t; Refactors := Refactors t + 1;
       Documentation := Documentation t; Tests := Tests t; Build := Build t;
       Other := Other t |}
  else if any_in ["doc"; "readme"; "comment"] message_ then
    {| Features := Features t; Fixes := Fixes t; Refactors := Refactors t;
       Documentation := Documentation t + 1; Tests := Tests t;
       Build := Build t; Other := Other t |}
  else if any_in ["test"; "spec"] message_ then
    {| Features := Features t; Fixes := Fixes t; Refactors := Refactors t;
       Documentation := Documentation t; Tests := Tests t + 1;
       Build := Build t; Other := Other t |}
  else if any_in ["build"; "deps"; "version"] message_ then
    {| Features := Features t; Fixes := Fixes t; Refactors := Refactors t;
       Documentation := Documentation t; Tests := Tests t;
       Build := Build t + 1; Other := Other t |}
  else
    {| Features := Features t; Fixes := Fixes t; Refactors := Refactors t;
       Documentation := Documentation t; Tests := Tests t; Build := Build t;
       Other := Other t + 1 |}.

(** the three dicts the loop over the events fills *)
Record Tally := {
  commit_types : Breakdown;
  author_commits : list (string * Z);
  extensions : list (string * Z)
}.

(** one round of the loop *)
Definition visit (t : Tally) (event : Event) : Tally :=
  let author_ := strip (before_angle (default "Unknown" (author event))) in
  {| commit_types := count_commit (default "" (message event)) (commit_types t);
     author_commits := CommitPatterns.bump author_ (author_commits t);
     extensions :=
       fold_left
         (fun d file =>
            if str_in "." file
            then CommitPatterns.bump (lower (after_last_dot file)) d
            else d)
         (default [] (files_changed event)) (extensions t) |}.

(** [max(d.items(), key=lambda x: x[1])]: the first item with the greatest
    count *)
Fixpoint max_by_count (best : string * Z) (items : list (string * Z))
  : string * Z :=
  match items with
  | [] => best
  | x :: rest => max_by_count (if best.2 <? x.2 then x else best) rest
  end.

Definition lang_map : list (string * string) :=
  [ ("py", "Python"); ("js", "JavaScript"); ("ts", "TypeScript");
    ("java", "Java"); ("cpp", "C++"); ("cs", "C#"); ("go", "Go");
    ("rs", "Rust"); ("rb", "Ruby"); ("php", "PHP") ].

(** [lang_map.get(primary_ext, primary_ext.upper())] *)
Definition language_of (primary_ext : string) : string :=
  match find (fun kv => String.eqb kv.1 primary_ext) lang_map with
  | Some kv => kv.2
  | None => upper primary_ext
  end.

(** [x] goes in front of the first element that is not smaller. *)
Fixpoint insert_asc (x : string) (l : list string) : list string :=
  match l with
  | [] => [x]
  | y :: l' => if String.ltb y x then y :: insert_asc x l' else x :: y :: l'
  end.

(** [l.sort()] on strings *)
Definition sort (l : list string) : list string := fold_right insert_asc [] l.

(** [analyze_comprehensive_stats] *)
Definition analyze_comprehensive_stats (events : list Event) : Stats :=
  let t :=
    fold_left visit events
      {| commit_types :=
           {| Features := 0; Fixes := 0; Refactors := 0; Documentation := 0;
              Tests := 0; Build := 0; Other := 0 |};
         author_commits := []; extensions := [] |} in
  {| total_commits := length events;
     contributors :=
       length (remove_dups (map (fun e => default "" (author e)) events));
     files_touched :=
       length (remove_dups
                 (flat_map (fun e => default [] (files_changed e)) events));
     commit_breakdown := commit_types t;
     author_stats := CommitPatterns.sorted_by_count (author_commits t);
     primary_language :=
       match extensions t with
       | [] => "Unknown"
       | first :: rest => language_of (max_by_count first rest).1
       end;
     date_range :=
       let timestamps :=
         omap (fun e => if Py.truthy (timestamp e) then timestamp e else None)
              events in
       let timestamps := sort timestamps in
       match timestamps, list.last timestamps with
       | last_ :: _, Some first =>
           str_take 10 first +:+ " to " +:+ str_take 10 last_
       | _, _ => "Unknown"
       end |}.

End Statistics.

(** ** Repository de-duplication *)

Module RepositoryDedup.

Section dedup.
(** [normalize_repo_path] resolves the path against the file system. *)
Variable normalize_repo_path : string -> string.

(** one round of the loop over [indexed_repositories.items()]: [seen] maps
    a normalized path to the path kept for it and that path's commit
    count *)
Definition visit (st : gmap string (string * Z) * list string)
    (item : string * RepositoryEntry) : gmap string (string * Z) * list string :=
  let seen := st.1 in
  let to_remove := st.2 in
  let path_ := item.1 in
  let repo := item.2 in
  let normalized := normalize_repo_path path_ in
  match seen !! normalized with
  | Some kept =>
      if kept.2 <? commit_count repo then
        (<[ normalized := (path_, commit_count repo) ]> seen,
         (to_remove ++ [kept.1])%list)
      else (seen, (to_remove ++ [path_])%list)
  | None => (<[ normalized := (path_, commit_count repo) ]> seen, to_remove)
  end.

(** [for path in to_remove: if path in indexed_repositories: del ...] *)
Definition remove_all (to_remove : list string)
    (repos : gmap string RepositoryEntry) : gmap string RepositoryEntry :=
  fold_left (fun repos path_ => delete path_ repos) to_remove repos.

(** [deduplicate_repositories], the repository table being iterated in
    the order [items]; the reply's [removed] and [remaining] *)
Definition deduplicate_in_order (items : list (string * RepositoryEntry))
    (w : World) : World * (nat * nat) :=
  let to_remove := (fold_left visit items (∅, [])).2 in
  let repos := remove_all to_remove (indexed_repositories w) in
  ({| git_events := git_events w; qdrant_client := qdrant_client w;
      embedding_model := embedding_model w; indexed_repositories := repos |},
   (length to_remove, size repos)).

Definition deduplicate_repositories (w : World) : World * (nat * nat) :=
  deduplicate_in_order (map_to_list (indexed_repositories w)) w.

End dedup.

End RepositoryDedup.

(** ** Stand-ins used to run the model on concrete inputs *)

(** Report bodies that only name the commits they were given; the language
    model is silent. *)
Definition plain_renderers : Renderers :=
  {| generate_detailed_commit_analysis :=
       fun commit _ => "# Commit Analysis: " +:+ default "unknown" (commit_hash commit);
     recent_changes_report := fun _ => "# Recent Changes";
     repository_summary_report := fun _ _ => "# Repository Analysis";
     commit_listing := fun _ _ => "# All Commits";
     timeline_report := fun _ _ => "# Development Timeline";
     author_report := fun _ _ => "# Author Activity Analysis";
     llm_answer := fun _ _ => "";
     fallback_listing := fun _ _ => "Found relevant commits:" |}.

(** A commit on branch [main] with the given hash, repository and time. *)
Definition commit (hash repo time : string) : Event :=
  {| commit_hash := Some hash; repository := Some repo;
     message := Some ("update " +:+ hash); author := Some "Dev <dev@example.org>";
     timestamp := Some time; files_changed := Some ["app/main.py"];
     primary_branch := Some "main"; all_branches := Some ["main"];
     merge_commit := Some false; event_type := Some "git_commit";
     branch_context := None |}.

(** The process with only the in-memory collection (no index client). *)
Definition memory_only (events : list Event) : World :=
  {| git_events := events; qdrant_client := None; embedding_model := false;
     indexed_repositories := ∅ |}.

(** An index that ranks its points in insertion order for every query. *)
Definition index_of (stored : list Event) (up : bool) : Qdrant :=
  {| points := stored; rank := fun _ ps => ps; online := up |}.

(** The process with index client and embedding model loaded. *)
Definition with_index (events stored : list Event) (up : bool) : World :=
  {| git_events := events; qdrant_client := Some (index_of stored up);
     embedding_model := true; indexed_repositories := ∅ |}.

Definition request (text : string) (limit : option Z) (repo : option string)
    (branches : option (list string)) : QueryRequest :=
  {| q_query := text; q_limit := limit; q_repository := repo;
     q_branches := branches |}.

(** the sources of a reply, when it is a response *)
Definition reply_sources (r : Reply) : option (list Source) :=
  match r with
  | Response resp => Some (sources resp)
  | HTTPException _ _ => None
  end.

(** the three-commit scenario: hashes [aaa111], [bbb222], [ccc333] at
    times [T1 < T2 < T3] *)
Definition scenario : list Event :=
  [ commit "aaa111" "/srv/app" "2024-03-01T10:00:00";
    commit "bbb222" "/srv/app" "2024-03-02T10:00:00";
    commit "ccc333" "/srv/app" "2024-03-03T10:00:00" ].

(** * Properties *)

(** ** Slices and sorting *)

Module PyFacts.

Lemma take_is_firstn {A} (n : Z) (l : list A) :
  exists k, Py.take n l = firstn k l.
Proof. unfold Py.take. destruct (0 <=? n); eauto. Qed.

Lemma take_opt_is_firstn {A} (n : option Z) (l : list A) :
  exists k, Py.take_opt n l = firstn k l.
Proof.
  destruct n as [n |]; cbn; [apply take_is_firstn |].
  exists (length l). symmetry. apply firstn_all.
Qed.

Lemma In_firstn {A} (n : nat) (l : list A) (x : A) :
  In x (firstn n l) -> In x l.
Proof.
  revert n. induction l as [| y l IH]; intros [| n]; cbn; try tauto.
  intros [-> | H]; [now left | right; eauto].
Qed.

Lemma In_take {A} (n : Z) (l : list A) (x : A) :
  In x (Py.take n l) -> In x l.
Proof. destruct (take_is_firstn n l) as [k ->]. apply In_firstn. Qed.

(** the order on keys *)
Lemma compare_trans_lt (a b c : string) :
  String.compare a b = Lt -> String.compare b c = Lt ->
  String.compare a c = Lt.
Proof.
  revert b c. induction a as [| x a IH]; intros [| y b] [| z c]; cbn;
    try discriminate; try reflexivity.
  unfold Ascii.compare.
  destruct (N.compare_spec (N_of_ascii x) (N_of_ascii y)) as [Hxy | Hxy | Hxy];
    destruct (N.compare_spec (N_of_ascii y) (N_of_ascii z)) as [Hyz | Hyz | Hyz];
    try discriminate; intros H1 H2.
  - rewrite Hxy, Hyz, N.compare_refl. eapply IH; eassumption.
  - rewrite Hxy. now apply N.compare_lt_iff in Hyz as ->.
  - rewrite <- Hyz. now apply N.compare_lt_iff in Hxy as ->.
  - assert (Hxz : (N_of_ascii x < N_of_ascii z)%N) by lia.
    now apply N.compare_lt_iff in Hxz as ->.
Qed.

Lemma leb_trans (a b c : string) :
  String.leb a b = true -> String.leb b c = true -> String.leb a c = true.
Proof.
  unfold String.leb. intros Hab Hbc.
  destruct (String.compare a c) eqn:Hac; try reflexivity.
  exfalso.
  assert (Hca : String.compare c a = Lt)
    by (rewrite String.compare_antisym, Hac; reflexivity).
  destruct (String.compare a b) eqn:H1; try discriminate.
  - apply String.compare_eq_iff in H1. subst b. now rewrite Hac in Hbc.
  - destruct (String.compare b c) eqn:H2; try discriminate.
    + apply String.compare_eq_iff in H2. subst c. congruence.
    + pose proof (compare_trans_lt _ _ _ H1 H2). congruence.
Qed.

Lemma compare_refl (a : string) : String.compare a a = Eq.
Proof.
  induction a as [| x a IH]; cbn; [reflexivity |].
  unfold Ascii.compare. now rewrite N.compare_refl.
Qed.

Lemma leb_refl (a : string) : String.leb a a = true.
Proof. unfold String.leb. now rewrite compare_refl. Qed.

Lemma ltb_leb (a b : string) : String.ltb a b = true -> String.leb a b = true.
Proof.
  unfold String.ltb, String.leb. destruct (String.compare a b); congruence.
Qed.

Lemma not_ltb_leb (a b : string) :
  String.ltb a b = false -> String.leb b a = true.
Proof.
  unfold String.ltb, String.leb. rewrite (String.compare_antisym a b).
  destruct (String.compare b a); cbn; congruence.
Qed.

Section sorted.
Context {A : Type} (key : A -> string).



Lemma insert_desc_perm (x : A) (l : list A) :
  Permutation (Py.insert_desc key x l) (x :: l).
Proof.
  induction l as [| y l IH]; cbn; [reflexivity |].
  destruct (String.ltb (key x) (key y)); [| reflexivity].
  rewrite IH. apply perm_swap.
Qed.

Lemma sorted_desc_perm (l : list A) : Permutation (Py.sorted_desc key l) l.
Proof.
  induction l as [| x l IH]; cbn; [reflexivity |].
  rewrite insert_desc_perm. now apply perm_skip.
Qed.



Lemma In_sorted_desc (x : A) (l : list A) :
  In x (Py.sorted_desc key l) <-> In x l.
Proof.
  split; apply Permutation_in;
    [| symmetry]; apply sorted_desc_perm.
Qed.



End sorted.

(** Equal keys keep their order: the sort is stable. *)
Example sorted_desc_stable :
  Py.sorted_desc fst [("b", 1); ("a", 2); ("b", 3); ("c", 4); ("a", 5)]
  = [("c", 4); ("b", 1); ("b", 3); ("a", 2); ("a", 5)].
Proof. vm_compute. reflexivity. Qed.

Example take_negative : Py.take (-2) [1; 2; 3; 4; 5] = [1; 2; 3].
Proof. reflexivity. Qed.

End PyFacts.

(** ** The hexadecimal token *)

Module HexTokenFacts.
Import Text HexToken.

Lemma match_at_empty (prev : option ascii) : match_at prev "" = None.
Proof. unfold match_at. destruct (word_boundary _ _); reflexivity. Qed.

(** [matches[0] if matches else None] is what [re.search] finds. *)
Lemma findall_head (prev : option ascii) (s : string) :
  head (findall_from prev 0 s) = search_from prev s.
Proof.
  revert prev. induction s as [| c s IH]; intros prev.
  - cbn [findall_from search_from]. now rewrite match_at_empty.
  - cbn [findall_from search_from].
    destruct (match_at prev (String c s)); [reflexivity | apply IH].
Qed.

Lemma hex_run_le_length (s : string) : (hex_run s <= String.length s)%nat.
Proof.
  induction s as [| c s IH]; cbn; [lia |].
  destruct (is_hex_char c); lia.
Qed.

Lemma substring_length (k : nat) (s : string) :
  (k <= String.length s)%nat -> String.length (String.substring 0 k s) = k.
Proof.
  revert k. induction s as [| c s IH]; intros [| k]; cbn; try lia.
  intros H. f_equal. apply IH. lia.
Qed.

Lemma In_repetitions (k : nat) : In k repetitions -> (6 <= k <= 40)%nat.
Proof. unfold repetitions. rewrite <- in_rev, in_seq. lia. Qed.

(** A match is between 6 and 40 characters long. *)
Lemma match_at_length (prev : option ascii) (s tok : string) :
  match_at prev s = Some tok -> (6 <= String.length tok <= 40)%nat.
Proof.
  unfold match_at. destruct (word_boundary prev _); [| discriminate].
  destruct (find _ _) as [k |] eqn:Hf; [| discriminate].
  intros [= <-]. apply find_some in Hf as [Hin Hk].
  apply andb_prop in Hk as [Hk _]. apply Nat.leb_le in Hk.
  rewrite substring_length
    by (etransitivity; [exact Hk | apply hex_run_le_length]).
  now apply In_repetitions.
Qed.

Lemma search_from_length (prev : option ascii) (s tok : string) :
  search_from prev s = Some tok -> (6 <= String.length tok <= 40)%nat.
Proof.
  revert prev. induction s as [| c s IH]; intros prev; cbn [search_from].
  - rewrite match_at_empty. discriminate.
  - destruct (match_at prev (String c s)) as [t |] eqn:Hm.
    + intros [= <-]. eapply match_at_length. exact Hm.
    + apply IH.
Qed.

(** *** Case folding does not move the token *)

Lemma lower_char_hex (c : ascii) :
  is_hex_char (lower_char c) = is_hex_char c.
Proof. destruct c as [[] [] [] [] [] [] [] []]; reflexivity. Qed.

Lemma lower_char_word (c : ascii) :
  is_word_char (lower_char c) = is_word_char c.
Proof. destruct c as [[] [] [] [] [] [] [] []]; reflexivity. Qed.

Lemma lower_hex_run (s : string) : hex_run (lower s) = hex_run s.
Proof.
  induction s as [| c s IH]; cbn; [reflexivity |].
  now rewrite lower_char_hex, IH.
Qed.

Lemma lower_char_at (s : string) (i : nat) :
  char_at (lower s) i = option_map lower_char (char_at s i).
Proof.
  unfold char_at. revert i.
  induction s as [| c s IH]; intros [| i]; cbn; try reflexivity. apply IH.
Qed.

Lemma lower_boundary (a b : option ascii) :
  word_boundary (option_map lower_char a) (option_map lower_char b)
  = word_boundary a b.
Proof.
  unfold word_boundary.
  destruct a, b; cbn; now rewrite ?lower_char_word.
Qed.

Lemma lower_substring (n m : nat) (s : string) :
  String.substring n m (lower s) = lower (String.substring n m s).
Proof.
  revert n m. induction s as [| c s IH]; intros [| n] [| m]; cbn;
    try reflexivity.
  - f_equal. apply IH.
  - apply IH.
  - apply IH.
Qed.

Lemma find_pointwise {A} (f g : A -> bool) (l : list A) :
  (forall x, f x = g x) -> find f l = find g l.
Proof.
  intros H. induction l as [| x l IH]; cbn; [reflexivity |].
  now rewrite H, IH.
Qed.

Lemma lower_match_at (prev : option ascii) (s : string) :
  match_at (option_map lower_char prev) (lower s)
  = option_map lower (match_at prev s).
Proof.
  unfold match_at.
  rewrite lower_char_at, lower_boundary, lower_hex_run.
  destruct (word_boundary prev (char_at s 0)); [| reflexivity].
  rewrite (find_pointwise _
             (fun k => (k <=? hex_run s)%nat
                       && word_boundary (char_at s (k - 1)) (char_at s k)))
    by (intros k; now rewrite !lower_char_at, lower_boundary).
  destruct (find _ _); cbn; [| reflexivity].
  now rewrite lower_substring.
Qed.

Lemma lower_search_from (prev : option ascii) (s : string) :
  search_from (option_map lower_char prev) (lower s)
  = option_map lower (search_from prev s).
Proof.
  revert prev. induction s as [| c s IH]; intros prev.
  - cbn [lower search_from]. now rewrite !match_at_empty.
  - cbn [search_from]. change (lower (String c s)) with
      (String (lower_char c) (lower s)).
    cbn [search_from].
    change (String (lower_char c) (lower s)) with (lower (String c s)).
    rewrite lower_match_at.
    destruct (match_at prev (String c s)); cbn; [reflexivity |].
    apply (IH (Some c)).
Qed.

Lemma lower_re_search (s : string) :
  re_search (lower s) = option_map lower (re_search s).
Proof. apply (lower_search_from None). Qed.

(** *** What a match is *)

Lemma hex_is_word (c : ascii) : is_hex_char c = true -> is_word_char c = true.
Proof. destruct c as [[] [] [] [] [] [] [] []]; vm_compute; tauto. Qed.

Lemma hex_run_app (tok post : string) :
  all_hex tok = true -> is_word (char_at post 0) = false ->
  hex_run (tok ++ post) = String.length tok.
Proof.
  intros Ht Hp. induction tok as [| c tok IH]; simpl in *.
  - destruct post as [| d post]; simpl in *; [reflexivity |].
    destruct (is_hex_char d) eqn:Hd; [| reflexivity].
    apply hex_is_word in Hd. congruence.
  - apply andb_prop in Ht as [Hc Ht]. rewrite Hc. f_equal. now apply IH.
Qed.

Lemma char_at_app_r (tok post : string) :
  char_at (tok ++ post) (String.length tok) = char_at post 0.
Proof. induction tok as [| c tok IH]; simpl; [reflexivity | exact IH]. Qed.

Lemma char_at_hex (s : string) (i : nat) :
  (i < hex_run s)%nat -> exists c, char_at s i = Some c /\ is_hex_char c = true.
Proof.
  revert i. induction s as [| c s IH]; intros i; simpl; [lia |].
  destruct (is_hex_char c) eqn:Hc; [| lia].
  destruct i as [| i]; [eauto |]. intros H. apply IH. lia.
Qed.

Lemma substring_split (k : nat) (s : string) :
  (k <= String.length s)%nat ->
  exists post, s = String.substring 0 k s ++ post
               /\ char_at post 0 = char_at s k.
Proof.
  revert k. induction s as [| c s IH]; intros k Hk.
  - destruct k; [| simpl in Hk; lia]. exists "". split; reflexivity.
  - destruct k as [| k].
    + exists (String c s). split; reflexivity.
    + destruct (IH k) as (post & E & Hc); [simpl in Hk; lia |].
      exists post. split; [| exact Hc].
      change (String c s = String c (String.substring 0 k s ++ post)).
      now rewrite <- E.
Qed.

Lemma substring_all_hex (k : nat) (s : string) :
  (k <= hex_run s)%nat -> all_hex (String.substring 0 k s) = true.
Proof.
  revert k. induction s as [| c s IH]; intros [| k]; simpl; try reflexivity; try lia.
  destruct (is_hex_char c); [| lia]. intros H. simpl. apply IH. lia.
Qed.

(** An anchored attempt succeeds exactly on a token that starts here. *)
Lemma match_at_sound (prev : option ascii) (s tok : string) :
  match_at prev s = Some tok ->
  is_word prev = false
  /\ exists post, s = tok ++ post
       /\ (6 <= String.length tok <= 40)%nat
       /\ all_hex tok = true
       /\ is_word (char_at post 0) = false.
Proof.
  unfold match_at. destruct (word_boundary prev (char_at s 0)) eqn:Hb;
    [| discriminate].
  destruct (find _ _) as [k |] eqn:Hf; [| discriminate]. intros [= <-].
  apply find_some in Hf as [Hin Hk]. apply andb_prop in Hk as [Hk Hbk].
  apply Nat.leb_le in Hk. apply In_repetitions in Hin.
  pose proof (hex_run_le_length s) as Hlen.
  destruct (char_at_hex s 0) as (c0 & E0 & H0); [lia |].
  destruct (char_at_hex s (k - 1)) as (c1 & E1 & H1); [lia |].
  rewrite E0 in Hb. rewrite E1 in Hbk. unfold word_boundary in Hb, Hbk.
  cbn [is_word] in Hb, Hbk.
  rewrite (hex_is_word _ H0) in Hb. rewrite (hex_is_word _ H1) in Hbk.
  split; [now destruct (is_word prev) |].
  destruct (substring_split k s) as (post & E & Hc); [lia |].
  exists post. split; [exact E |].
  rewrite substring_length by lia.
  split; [exact Hin |]. split; [now apply substring_all_hex |].
  rewrite Hc. now destruct (is_word (char_at s k)).
Qed.

Lemma match_at_complete (prev : option ascii) (tok post : string) :
  is_word prev = false ->
  (6 <= String.length tok <= 40)%nat ->
  all_hex tok = true ->
  is_word (char_at post 0) = false ->
  match_at prev (tok ++ post) <> None.
Proof.
  intros Hp Hlen Ht Hpost. unfold match_at.
  pose proof (hex_run_app tok post Ht Hpost) as Hrun.
  destruct (char_at_hex (tok ++ post) 0) as (c0 & E0 & H0); [lia |].
  destruct (char_at_hex (tok ++ post) (String.length tok - 1))
    as (c1 & E1 & H1); [lia |].
  rewrite E0. unfold word_boundary at 1. cbn [is_word].
  rewrite Hp, (hex_is_word _ H0). cbn [xorb].
  destruct (find _ _) eqn:Hf; [discriminate |].
  exfalso.
  assert (Hin : In (String.length tok) repetitions).
  { unfold repetitions. rewrite <- in_rev, in_seq. lia. }
  pose proof (find_none _ _ Hf _ Hin) as Hk. cbn beta in Hk.
  rewrite Hrun, Nat.leb_refl, E1, char_at_app_r in Hk.
  unfold word_boundary in Hk. cbn [is_word andb] in Hk.
  rewrite (hex_is_word _ H1), Hpost in Hk. discriminate.
Qed.

(** [re.search] finds a match exactly when the text contains a token. *)
Lemma search_from_iff (prev : option ascii) (s : string) :
  search_from prev s <> None <-> contains_token prev s.
Proof.
  revert prev. induction s as [| c s IH]; intros prev.
  - cbn [search_from]. rewrite match_at_empty. split; [congruence |].
    intros (pre & tok & post & E & Hlen & _).
    destruct pre, tok; simpl in *; try discriminate; lia.
  - cbn [search_from].
    destruct (match_at prev (String c s)) as [tok |] eqn:Hm.
    + split; [intros _ | congruence].
      apply match_at_sound in Hm as (Hp & post & E & Hlen & Ht & Hpost).
      exists "", tok, post. simpl. repeat split; try assumption; lia.
    + rewrite IH. split.
      * intros (pre & tok & post & E & H).
        exists (String c pre), tok, post. simpl. now rewrite E.
      * intros (pre & tok & post & E & Hlen & Ht & Hp & Hpost).
        destruct pre as [| c' pre].
        -- exfalso. simpl in E, Hp. rewrite E in Hm.
           now apply (match_at_complete prev tok post).
        -- simpl in E. injection E as -> E.
           exists pre, tok, post. simpl in Hp. repeat split; assumption || lia.
Qed.

End HexTokenFacts.

(** ** Classifier *)

Module ClassifierFacts.
Import Classifier.

Lemma has_hex_token_iff (q : string) :
  has_hex_token q = true <-> HexToken.contains_token None q.
Proof.
  unfold has_hex_token, HexToken.re_search.
  rewrite <- HexTokenFacts.search_from_iff.
  destruct (HexToken.search_from None q); split; congruence.
Qed.

(** C6: the classifier is a function of the query text alone and agrees,
    on every query, with evaluating the closed ordered rule table
    (latest_commit, repository_summary, list_commits, specific_commit,
    general_commit_query, recent_changes, commit_comparison, timeline,
    author_analysis) first-match-wins, with [general] as the default; the
    test that separates specific_commit from general_commit_query holds
    exactly when the folded query contains a hexadecimal token of 6 to 40
    characters. *)
Theorem classify_is_first_match (query : string) :
  classify query = classify_by_rules query
  /\ (has_hex_token (Text.lower query) = true
      <-> HexToken.contains_token None (Text.lower query)).
Proof.
  split; [| apply has_hex_token_iff].
  unfold classify, classify_by_rules, classify_query_type, rules,
    mentions_commit_action.
  cbn [first_match].
  repeat match goal with
    | |- context [if ?b then _ else _] =>
        match b with
        | context [if _ then _ else _] => fail 1
        | _ => destruct b eqn:?; cbn [andb negb]
        end
    end; try reflexivity; try discriminate.
Qed.

(** Each intent is produced by some query: the table has no dead rule. *)
Lemma every_intent_reachable (i : Intent) : exists query, classify query = i.
Proof.
  destruct i;
    [ exists "show the latest commit" | exists "summarize the repo"
    | exists "list commits" | exists "explain commit bbb222"
    | exists "explain commit bbb2" | exists "recent changes"
    | exists "compare a and b" | exists "project timeline"
    | exists "top contributor" | exists "hello" ];
    vm_compute; reflexivity.
Qed.

(** The edge case the design accepts: priority order, not specificity. *)
Example latest_beats_explain :
  classify "explain the latest commit's refactor" = latest_commit.
Proof. vm_compute. reflexivity. Qed.

End ClassifierFacts.

(** ** Synthesizer on an empty commit list *)

Module SynthesizerFacts.
Import Synthesizer.

(** The formatters the dispatch can reach each have a guard of their own
    ([compare_commits] is not among them: the name does not denote a
    formatter when a request is served). *)
Lemma formatters_on_empty (R : Renderers) (query : string) :
  get_latest_commit R [] = "No commits found."
  /\ get_recent_changes R [] = "No recent changes found."
  /\ generate_enhanced_repository_summary R [] query
     = "No repository data available for summary."
  /\ list_all_commits R [] query = "No commits found."
  /\ analyze_specific_commit R [] query
     = "Could not find the specified commit."
  /\ handle_general_commit_query R [] query
     ∈ ["No commits found."; "Could not find the specified commit."]
  /\ generate_detailed_timeline R [] query = "No timeline data available."
  /\ analyze_author_activity R [] query = "No author data available."
  /\ query_enhanced_llm R query [] = ""
  /\ generate_fallback_response R query [] = "No relevant events found.".
Proof.
  assert (Hspec : analyze_specific_commit R [] query
                  = "Could not find the specified commit.").
  { unfold analyze_specific_commit, target_commit.
    destruct (negb _); reflexivity. }
  repeat split; try reflexivity; try exact Hspec.
  unfold handle_general_commit_query.
  destruct (Text.any_in _ _).
  - apply list_elem_of_here.
  - rewrite Hspec. apply list_elem_of_further, list_elem_of_here.
Qed.

(** C10: for every query, hence for every intent the classifier can
    assign, answer synthesis on an empty commit list returns the literal
    message "No relevant events found." and does not raise; the formatters
    behind the dispatch return a literal message of their own ("No commits
    found.", "No recent changes found.", ...) on an empty list. *)
Theorem empty_commit_list_answer (R : Renderers) (query : string) :
  generate_intelligent_answer R query [] = Ok "No relevant events found."
  /\ get_latest_commit R [] = "No commits found."
  /\ get_recent_changes R [] = "No recent changes found."
  /\ generate_enhanced_repository_summary R [] query
     = "No repository data available for summary."
  /\ list_all_commits R [] query = "No commits found."
  /\ analyze_specific_commit R [] query
     = "Could not find the specified commit."
  /\ generate_detailed_timeline R [] query = "No timeline data available."
  /\ analyze_author_activity R [] query = "No author data available."
  /\ generate_fallback_response R query [] = "No relevant events found.".
Proof.
  destruct (formatters_on_empty R query)
    as (H1 & H2 & H3 & H4 & H5 & _ & H7 & H8 & _ & H10).
  split; [reflexivity |].
  repeat split; assumption.
Qed.

(** The same through the endpoint's dispatch on the assigned intent: no
    intent's branch is taken before the guard. *)
Lemma empty_commit_list_any_intent (R : Renderers) (i : Intent) :
  exists query,
    Classifier.classify query = i
    /\ generate_intelligent_answer R query [] = Ok "No relevant events found.".
Proof.
  destruct (ClassifierFacts.every_intent_reachable i) as [query Hq].
  exists query. split; [exact Hq | reflexivity].
Qed.

End SynthesizerFacts.

(** ** Looking a commit up by its hash *)

Module SpecificCommit.
Import Text Synthesizer.

Definition hash_starts_with (tok : string) (e : Event) : bool :=
  startswith (default "" (commit_hash e)) tok.

(** what [extract_commit_hash] returns, in terms of [re.search] *)
Lemma extract_commit_hash_search (query : string) :
  extract_commit_hash query = default "" (HexToken.re_search query).
Proof.
  unfold extract_commit_hash, HexToken.re_search, HexToken.re_findall.
  rewrite <- HexTokenFacts.findall_head.
  now destruct (HexToken.findall_from None 0 query).
Qed.

Lemma classify_specific_has_token (query : string) :
  Classifier.classify query = specific_commit ->
  Classifier.has_hex_token (lower query) = true.
Proof.
  unfold Classifier.classify, Classifier.classify_query_type.
  repeat match goal with
    | |- context [if ?b then _ else _] =>
        match b with
        | context [if _ then _ else _] => fail 1
        | _ => destruct b eqn:?
        end
    end; try discriminate. reflexivity.
Qed.

(** [query] reads [pre ++ tok ++ post] where [tok] is a hexadecimal token:
    6 to 40 hexadecimal digits with no word character on either side
    ([prev] is the character before [query], if any). *)
Definition token_at (prev : option ascii) (query pre tok post : string)
  : Prop :=
  query = pre ++ tok ++ post
  /\ (6 <= String.length tok <= 40)%nat
  /\ HexToken.all_hex tok = true
  /\ HexToken.is_word (HexToken.last_char prev pre) = false
  /\ HexToken.is_word (HexToken.char_at post 0) = false.

(** [tok] is the first hexadecimal token of [query]: no token starts
    further left. *)
Definition first_token (query tok : string) : Prop :=
  exists pre post,
    token_at None query pre tok post
    /\ forall pre' tok' post',
         token_at None query pre' tok' post' ->
         (String.length pre <= String.length pre')%nat.

Lemma append_cons (c : ascii) (a b : string) :
  String c a ++ b = String c (a ++ b).
Proof. reflexivity. Qed.

Lemma append_same_length (a a' b b' : string) :
  String.length a = String.length a' -> a ++ b = a' ++ b' ->
  a = a' /\ b = b'.
Proof.
  revert a'. induction a as [| c a IH]; intros [| c' a']; cbn [String.length];
    try discriminate.
  - intros _ H. split; [reflexivity | exact H].
  - intros [= Hlen]. rewrite !append_cons. intros [= -> H].
    destruct (IH _ Hlen H) as [-> ->]. split; reflexivity.
Qed.

(** [re.search] returns a token, and the leftmost one. *)
Lemma search_from_leftmost (prev : option ascii) (s tok : string) :
  HexToken.search_from prev s = Some tok ->
  exists pre post,
    token_at prev s pre tok post
    /\ forall pre' tok' post',
         token_at prev s pre' tok' post' ->
         (String.length pre <= String.length pre')%nat.
Proof.
  revert prev. induction s as [| c s IH]; intros prev;
    cbn [HexToken.search_from].
  - rewrite HexTokenFacts.match_at_empty. discriminate.
  - destruct (HexToken.match_at prev (String c s)) as [t |] eqn:Hm.
    + intros [= ->].
      apply HexTokenFacts.match_at_sound in Hm
        as (Hp & post & E & Hlen & Hhex & Hpost).
      exists "", post. split.
      * repeat split; try assumption; lia.
      * intros pre' tok' post' _. cbn. lia.
    + intros Hs. destruct (IH _ Hs) as (pre & post & Htok & Hmin).
      destruct Htok as (E & Hlen & Hhex & Hp & Hpost).
      exists (String c pre), post. split.
      * repeat split; try assumption; try lia.
        rewrite append_cons. now rewrite <- E.
      * intros pre' tok' post' (E' & Hlen' & Hhex' & Hp' & Hpost').
        destruct pre' as [| c' pre'].
        -- exfalso. cbn [HexToken.last_char] in Hp'.
           change ("" ++ tok' ++ post') with (tok' ++ post') in E'.
           rewrite E' in Hm.
           now apply (HexTokenFacts.match_at_complete prev tok' post').
        -- rewrite append_cons in E'. injection E' as -> E'.
           cbn [HexToken.last_char] in Hp'.
           specialize (Hmin pre' tok' post').
           cbn [String.length]. apply le_n_S, Hmin.
           repeat split; try assumption; lia.
Qed.

Lemma length_append (a b : string) :
  String.length (a ++ b) = (String.length a + String.length b)%nat.
Proof.
  induction a as [| c a IH]; [reflexivity |].
  rewrite append_cons. cbn [String.length plus]. now rewrite IH.
Qed.

(** Two tokens that start at the same place are the same token. *)
Lemma token_at_same_start (prev : option ascii)
    (s pre tok post pre' tok' post' : string) :
  token_at prev s pre tok post -> token_at prev s pre' tok' post' ->
  String.length pre = String.length pre' -> tok = tok'.
Proof.
  intros (E & _ & Hhex & _ & Hpost) (E' & _ & Hhex' & _ & Hpost') Hlen.
  rewrite E in E'.
  destruct (append_same_length _ _ _ _ Hlen E') as [_ Hrest].
  pose proof (HexTokenFacts.hex_run_app tok post Hhex Hpost) as Hrun.
  pose proof (HexTokenFacts.hex_run_app tok' post' Hhex' Hpost') as Hrun'.
  rewrite Hrest, Hrun' in Hrun.
  now destruct (append_same_length _ _ _ _ (eq_sym Hrun) Hrest).
Qed.

(** The first token of a query is determined by the query. *)
Lemma first_token_unique (query tok tok' : string) :
  first_token query tok -> first_token query tok' -> tok = tok'.
Proof.
  intros (pre & post & Ht & Hmin) (pre' & post' & Ht' & Hmin').
  eapply token_at_same_start; [exact Ht | exact Ht' |].
  specialize (Hmin _ _ _ Ht'). specialize (Hmin' _ _ _ Ht). lia.
Qed.

(** A query classified [specific_commit] has a first token, and it is the
    one [extract_commit_hash] returns. *)
Lemma specific_commit_first_token (query : string) :
  Classifier.classify query = specific_commit ->
  first_token query (extract_commit_hash query)
  /\ extract_commit_hash query <> "".
Proof.
  intros H. apply classify_specific_has_token in H.
  unfold Classifier.has_hex_token in H.
  rewrite HexTokenFacts.lower_re_search in H.
  rewrite extract_commit_hash_search.
  destruct (HexToken.re_search query) as [tok |] eqn:Hs; [| discriminate].
  cbn [default]. change (id tok) with tok.
  pose proof (HexTokenFacts.search_from_length _ _ _ Hs) as Hlen.
  split; [apply search_from_leftmost, Hs |].
  intros ->. cbn in Hlen. lia.
Qed.

(** C7 (as stated it fails): the token [bbb2] has four characters, the
    pattern asks for six; the query is classified [general_commit_query],
    no hash is extracted, and the commit a lookup without hash settles on
    is the first in result order, not [bbb222]. *)
Lemma short_token_is_not_looked_up :
  Classifier.classify "explain commit bbb2" = general_commit_query
  /\ extract_commit_hash "explain commit bbb2" = ""
  /\ option_map src_commit
       (option_map (Endpoint.format_source 3 0)
          (target_commit scenario "explain commit bbb2"))
     = Some "aaa111"
  /\ generate_intelligent_answer plain_renderers "explain commit bbb2" scenario
     = Ok "# Commit Analysis: ccc333".
Proof. vm_compute. repeat split; reflexivity. Qed.

(** The target is the first commit whose hash starts with the token, not
    the one that shares the longest prefix with it: with the hashes
    [bbb222] and [bbb222333444] in this order, the token [bbb222333]
    finds the second, and the token [bbb222] the first although the
    second starts with it as well. *)
Example first_prefix_match_wins :
  let events := [ commit "bbb222" "/srv/app" "2024-03-01T10:00:00";
                  commit "bbb222333444" "/srv/app" "2024-03-02T10:00:00" ] in
  option_map commit_hash (target_commit events "explain commit bbb222333")
  = Some (Some "bbb222333444")
  /\ option_map commit_hash (target_commit events "explain commit bbb222")
     = Some (Some "bbb222")
  /\ target_commit events "explain commit bbb222333444555" = None.
Proof. vm_compute. repeat split; reflexivity. Qed.

(** C7 (amended): for a query of ASCII characters classified as
    specific_commit the synthesizer extracts the first hexadecimal token
    of 6 to 40 characters of the query (the leftmost run of 6 to 40
    hexadecimal digits with no word character on either side; the query
    determines it) and targets the first commit in result order whose
    hash starts with that token (prefix match, case-sensitive, not
    equality); when no hash starts with it the answer is "Could not find
    the specified commit." and nothing is raised.  Whenever no token is
    extracted from the query as typed, the first commit in result order is
    the target. *)
Theorem specific_commit_prefix_lookup
    (R : Renderers) (events : list Event) (query : string) :
  (is_ascii query = true ->
   Classifier.classify query = specific_commit ->
   let tok := extract_commit_hash query in
   first_token query tok
   /\ (forall t, first_token query t -> t = tok)
   /\ analyze_specific_commit R events query
      = match find (hash_starts_with tok) events with
        | Some target => generate_detailed_commit_analysis R target events
        | None => "Could not find the specified commit."
        end
   /\ (events <> [] ->
       generate_intelligent_answer R query events
       = Ok (analyze_specific_commit R events query)))
  /\ (extract_commit_hash query = "" ->
      analyze_specific_commit R events query
      = match events with
        | first :: _ => generate_detailed_commit_analysis R first events
        | [] => "Could not find the specified commit."
        end).
Proof.
  split.
  - intros _ Hc tok.
    destruct (specific_commit_first_token query Hc) as [Hfirst Hne].
    fold tok in Hfirst, Hne. split; [exact Hfirst |]. split.
    { intros t Ht. eapply first_token_unique; eassumption. }
    split.
    + unfold analyze_specific_commit, target_commit. fold tok.
      destruct (String.eqb_spec tok "") as [E | _]; [contradiction |].
      reflexivity.
    + intros Hev. unfold generate_intelligent_answer.
      destruct events as [| e es]; [contradiction |].
      unfold Classifier.classify in Hc. now rewrite Hc.
  - intros E. unfold analyze_specific_commit, target_commit. rewrite E.
    destruct events; reflexivity.
Qed.

(** the scenario with the six-character token, a longer hash, and a token
    no hash starts with *)
Lemma specific_commit_prefix_lookup_witness :
  (option_map src_commit
     (option_map (Endpoint.format_source 3 0)
        (target_commit scenario "explain commit bbb222"))
   = Some "bbb222"
   /\ target_commit
        [commit "aaa111000000" "/srv/app" "2024-03-01T10:00:00";
         commit "bbb222333444" "/srv/app" "2024-03-02T10:00:00"]
        "Explain commit bbb222"
      = Some (commit "bbb222333444" "/srv/app" "2024-03-02T10:00:00"))
  /\ first_token "explain commit bbb222" "bbb222"
  /\ analyze_specific_commit plain_renderers scenario "explain commit bbb222"
     = "# Commit Analysis: bbb222"
  /\ analyze_specific_commit plain_renderers scenario "explain commit ddd444"
     = "Could not find the specified commit.".
Proof.
  split; [split; vm_compute; reflexivity |].
  assert (Ha : is_ascii "explain commit bbb222" = true)
    by (vm_compute; reflexivity).
  assert (Hc : Classifier.classify "explain commit bbb222" = specific_commit)
    by (vm_compute; reflexivity).
  destruct (proj1 (specific_commit_prefix_lookup plain_renderers
                     scenario "explain commit bbb222") Ha Hc)
    as (Hfirst & _ & Hlookup & _).
  split; [exact Hfirst |]. split.
  - rewrite Hlookup. vm_compute. reflexivity.
  - vm_compute. reflexivity.
Defined.

End SpecificCommit.

(** a reply is a response as soon as the synthesizer's dispatch does not
    reach [compare_commits] *)
Ltac answer_is_ok intent :=
  match goal with
  | |- context [Synthesizer.generate_intelligent_answer ?R ?q ?evs] =>
      let a := fresh "a" in
      let e := fresh "e" in
      let Ha := fresh "Ha" in
      destruct (Synthesizer.generate_intelligent_answer R q evs)
        as [a | e] eqn:Ha;
      [ | exfalso; revert Ha; unfold Synthesizer.generate_intelligent_answer;
          replace (Classifier.classify_query_type _) with intent
            by (vm_compute; reflexivity);
          cbn; try destruct (negb _); discriminate ]
  end.

(** ** Deduplication *)

Module Dedup.
Import Retrieval.

Definition hash_key (e : Event) : string := default "" (commit_hash e).

Lemma str_mem_In (x : string) (l : list string) :
  Py.str_mem x l = true <-> In x l.
Proof.
  unfold Py.str_mem. rewrite existsb_exists. split.
  - intros (y & Hy & He). apply String.eqb_eq in He. now subst.
  - intros H. exists x. split; [exact H | apply String.eqb_refl].
Qed.

Lemma unique_events_spec (seen : list string) (events : list Event) :
  List.NoDup (map hash_key (unique_events seen events))
  /\ (forall e, In e (unique_events seen events) ->
        In e events /\ ~ In (hash_key e) seen).
Proof.
  revert seen. induction events as [| ev rest IH]; intros seen; cbn.
  - split; [constructor | tauto].
  - fold (hash_key ev).
    destruct (Py.str_mem (hash_key ev) seen) eqn:Hm.
    + destruct (IH seen) as [Hnd Hin]. split; [exact Hnd |].
      intros e He. destruct (Hin e He). tauto.
    + destruct (IH (hash_key ev :: seen)) as [Hnd Hin]. split.
      * cbn. constructor; [| exact Hnd].
        rewrite in_map_iff. intros (e & Hk & He).
        destruct (Hin e He) as [_ Hns]. apply Hns. left. now rewrite Hk.
      * intros e [-> | He].
        -- split; [now left |]. rewrite <- str_mem_In. now rewrite Hm.
        -- destruct (Hin e He) as [Hr Hns]. split; [now right |].
           intros Hs. apply Hns. now right.
Qed.

(** On the vector-index path no two returned commits share a hash. *)
Lemma index_path_no_duplicate_hash (w : World) (client : Qdrant)
    (query : string) (limit : Z) (repo : option string)
    (bf : option (list Condition)) (tp : bool) :
  qdrant_client w = Some client ->
  embedding_model w = true ->
  List.NoDup (map hash_key (search_similar w query limit repo bf tp)).
Proof.
  intros Hc Hm. unfold search_similar. rewrite Hc, Hm.
  destruct (Index.search _ _ _ _); [apply unique_events_spec | constructor].
Qed.

(** the same commit ingested twice while no index client was there *)
Definition twice : list Event :=
  [ commit "aaa11122334455" "/srv/app" "2024-03-01T10:00:00";
    commit "aaa11122334455" "/srv/app" "2024-03-01T10:00:00" ].

(** C1 (the in-memory path does not deduplicate): with the collection
    holding one commit twice and no index client, a query answers with two
    sources carrying the same [commit] value, whatever the report
    renderers are. *)
Theorem fallback_sources_repeat_commit (R : Renderers) :
  option_map (map src_commit)
    (reply_sources
       (Endpoint.query_context R (memory_only twice)
          (request "what changed in the parser" (Some 10) None None)))
  = Some ["aaa11122"; "aaa11122"].
Proof.
  unfold Endpoint.query_context.
  replace (Endpoint.retrieve _ _) with (Ok (A := list Event) twice)
    by (vm_compute; reflexivity).
  cbn [bind].
  destruct (Synthesizer.generate_intelligent_answer _ _ _) as [a | e] eqn:Ha.
  - cbn [bind reply_sources sources option_map]. vm_compute. reflexivity.
  - exfalso. revert Ha. unfold Synthesizer.generate_intelligent_answer.
    replace (Classifier.classify_query_type _) with general
      by (vm_compute; reflexivity).
    cbn. destruct (negb _); discriminate.
Qed.

(** The temporal path over memory behaves the same way. *)
Example temporal_fallback_repeats_commit :
  option_map (map src_commit)
    (reply_sources
       (Endpoint.query_context plain_renderers (memory_only twice)
          (request "show the latest commit" (Some 10) None None)))
  = Some ["aaa11122"; "aaa11122"].
Proof. vm_compute. reflexivity. Qed.

End Dedup.

(** ** Repository scoping *)

Module RepositoryScope.
Import Retrieval.

Lemma truthy_Some (r : string) : Py.truthy (Some r) = true -> r <> "".
Proof. cbn. intros H ->. discriminate. Qed.

(** [search_similar] as the program calls it (no branch filter): with a
    repository filter, both of its paths keep exact matches only. *)
Lemma search_similar_exact (w : World) (query : string) (limit : Z)
    (r : string) (tp : bool) (e : Event) :
  Py.truthy (Some r) = true ->
  In e (search_similar w query limit (Some r) None tp) ->
  repository e = Some r.
Proof.
  intros Hr. unfold search_similar. rewrite Hr.
  assert (Hexact : forall l,
            In e (List.filter
                    (fun e => match repository e with
                              | Some r' => String.eqb r' (default "" (Some r))
                              | None => false
                              end) l) -> repository e = Some r).
  { intros l H. apply filter_In in H as [_ H].
    destruct (repository e) as [r' |]; [| discriminate].
    apply String.eqb_eq in H. now subst. }
  destruct (qdrant_client w) as [client |]; [destruct (embedding_model w) |].
  - cbn [app default]. unfold Index.search.
    destruct (online client); [| intros []].
    intros H. apply Dedup.unique_events_spec in H as [H _].
    assert (H' : In e (firstn (Z.to_nat limit)
                (List.filter
                   (Index.filter_holds
                      (Some (Must [{| cond_key := "repository";
                                      cond_value := r |}])))
                   (rank client query (points client))))).
    { destruct tp; [now apply PyFacts.In_sorted_desc in H | exact H]. }
    apply PyFacts.In_firstn, filter_In in H' as [_ H'].
    cbn in H'. rewrite andb_true_r in H'.
    destruct (repository e) as [r' |]; [| discriminate].
    apply String.eqb_eq in H'. now subst.
  - intros H. apply PyFacts.In_take in H. cbn [apply_branch_filter] in H.
    destruct tp; [apply PyFacts.In_sorted_desc in H |]; eauto.
  - intros H. apply PyFacts.In_take in H. cbn [apply_branch_filter] in H.
    destruct tp; [apply PyFacts.In_sorted_desc in H |]; eauto.
Qed.

(** C2 (the temporal path over memory matches by substring): with a commit
    of repository [/srv/app-legacy] in memory and no index client, a
    temporal query filtered to repository [/srv/app] returns that commit
    as a source, whatever the report renderers are. *)
Theorem temporal_fallback_returns_other_repository (R : Renderers) :
  option_map (map src_repository)
    (reply_sources
       (Endpoint.query_context R
          (memory_only [commit "d0c5ab1e77" "/srv/app-legacy"
                               "2024-03-01T10:00:00"])
          (request "show the latest commit" (Some 10) (Some "/srv/app") None)))
  = Some ["/srv/app-legacy"].
Proof.
  unfold Endpoint.query_context.
  replace (Endpoint.retrieve _ _)
    with (Ok (A := list Event)
            [commit "d0c5ab1e77" "/srv/app-legacy" "2024-03-01T10:00:00"])
    by (vm_compute; reflexivity).
  cbn [bind]. answer_is_ok latest_commit.
  cbn [bind reply_sources sources option_map]. vm_compute. reflexivity.
Qed.

(** The sibling path compares with [==]: the same store and filter on a
    query without temporal keyword return nothing. *)
Example plain_fallback_is_exact :
  reply_sources
    (Endpoint.query_context plain_renderers
       (memory_only [commit "d0c5ab1e77" "/srv/app-legacy"
                            "2024-03-01T10:00:00"])
       (request "parser rewrite" (Some 10) (Some "/srv/app") None))
  = Some [].
Proof. vm_compute. reflexivity. Qed.

End RepositoryScope.

(** ** Temporal retrieval *)

Module Temporal.
Import Retrieval Endpoint.














(** the retrieval and the sources behind a response *)
Lemma response_inv (R : Renderers) (w : World) (req : QueryRequest)
    (resp : QueryResponse) :
  query_context R w req = Response resp ->
  exists events,
    retrieve w req = Ok events
    /\ sources resp = format_sources (q_limit req) events.
Proof.
  unfold query_context.
  destruct (retrieve w req) as [events | e]; cbn [bind]; [| discriminate].
  destruct (Synthesizer.generate_intelligent_answer _ _ _) as [a | e];
    cbn [bind]; [| discriminate].
  intros [= <-]. eauto.
Qed.











(** a record without a commit hash, as a context event has none *)
Definition note (text time : string) : Event :=
  {| commit_hash := None; repository := Some "/srv/app";
     message := Some text; author := Some "Dev <dev@example.org>";
     timestamp := Some time; files_changed := None;
     primary_branch := Some "main"; all_branches := Some ["main"];
     merge_commit := None; event_type := Some "context";
     branch_context := None |}.

(** On the index path the records of a hash already seen are dropped
    before the hits are sorted by time: of two best-ranked records without
    a commit hash the later one is lost, and the first source is the
    earlier one. *)
Example index_path_drops_later_hit :
  let stored := [ note "first" "2024-03-01T10:00:00";
                  note "second" "2024-03-03T10:00:00" ] in
  option_map (map src_timestamp)
    (reply_sources
       (query_context plain_renderers (with_index stored stored true)
          (request "show the latest commit" (Some 1) None None)))
  = Some ["2024-03-01T10:00:00"].
Proof. vm_compute. reflexivity. Qed.



End Temporal.

(** ** A failing vector index *)

Module IndexFailure.
Import Retrieval Endpoint.

(** [search_similar] swallows the error of the index call. *)
Lemma search_similar_on_error (w : World) (client : Qdrant) (query : string)
    (limit : Z) (repo : option string) (bf : option (list Condition))
    (tp : bool) :
  qdrant_client w = Some client ->
  embedding_model w = true ->
  online client = false ->
  search_similar w query limit repo bf tp = [].
Proof.
  intros Hc Hm Hoff. unfold search_similar, Index.search.
  now rewrite Hc, Hm, Hoff.
Qed.

Lemma apply_branch_filter_nil (bf : option (list Condition)) :
  apply_branch_filter bf [] = [].
Proof. destruct bf; reflexivity. Qed.

Lemma take_nil {A} (n : Z) : Py.take n (@nil A) = [].
Proof. unfold Py.take. destruct (0 <=? n); apply firstn_nil. Qed.

Definition no_data : QueryResponse :=
  {| answer := "No relevant events found."; sources := [];
     confidence := Confidence.c0_5 |}.

(** When the index client and the embedding model are loaded and the
    index call raises, [search_similar] swallows the error: a request with
    an integer limit that is temporal or names no branch is answered with
    "No relevant events found.", no sources and confidence 0.5, whatever
    the collection in memory holds. *)
Lemma index_error_gives_empty_response
    (R : Renderers) (w : World) (client : Qdrant) (req : QueryRequest)
    (n : Z) :
  qdrant_client w = Some client ->
  embedding_model w = true ->
  online client = false ->
  q_limit req = Some n ->
  is_temporal_query (q_query req) = true
    \/ build_branch_filter (q_branches req) = None ->
  query_context R w req = Response no_data.
Proof.
  intros Hc Hm Hoff Hl Hpath.
  assert (Hret : retrieve w req = Ok []).
  { unfold retrieve. rewrite Hl. cbn [limit_times_2 bind].
    destruct (is_temporal_query (q_query req)) eqn:Ht.
    - cbn [orb bind]. unfold search_similar_with_temporal_priority.
      rewrite Hc, Hm.
      rewrite (search_similar_on_error _ _ _ _ _ _ _ Hc Hm Hoff).
      rewrite apply_branch_filter_nil. unfold Py.sorted_desc.
      cbn [fold_right]. now rewrite take_nil.
    - destruct Hpath as [| ->]; [discriminate |]. cbn [orb].
      rewrite bool_decide_eq_false_2 by (intros [? [=]]).
      destruct (Text.str_in _ _); cbn [bind];
        now rewrite (search_similar_on_error _ _ _ _ _ _ _ Hc Hm Hoff). }
  unfold query_context. rewrite Hret. cbn [bind].
  unfold format_sources. rewrite Hl. cbn [Py.take_opt].
  rewrite take_nil. reflexivity.
Qed.

(** C4 (a failing index is not replaced by the collection in memory): the
    index client is bound and its calls raise, as when the service is down
    (start-up binds the client before its first call and keeps it when
    that call fails); the collection in memory, kept as the backup for
    that case, holds three commits.  A plain request and a temporal
    request are both answered without error but with "No relevant events
    found." and no source at all, whatever the report renderers are,
    whereas the same requests return the three commits when no client is
    bound. *)
Theorem failing_index_skips_memory (R : Renderers) :
  let down := with_index scenario scenario false in
  let plain := request "parser rewrite" (Some 10) None None in
  let temporal := request "show the latest commit" (Some 10) None None in
  query_context R down plain = Response no_data
  /\ query_context R down temporal = Response no_data
  /\ option_map (map src_commit)
       (reply_sources (query_context R (memory_only scenario) plain))
     = Some ["aaa111"; "bbb222"; "ccc333"]
  /\ option_map (map src_commit)
       (reply_sources (query_context R (memory_only scenario) temporal))
     = Some ["ccc333"; "bbb222"; "aaa111"].
Proof.
  cbv zeta. split; [| split; [| split]].
  - apply (index_error_gives_empty_response R _ (index_of scenario false) _ 10);
      try reflexivity. now right.
  - apply (index_error_gives_empty_response R _ (index_of scenario false) _ 10);
      try reflexivity. left. vm_compute. reflexivity.
  - unfold query_context.
    replace (retrieve _ _) with (Ok (A := list Event) scenario)
      by (vm_compute; reflexivity).
    cbn [bind]. answer_is_ok general.
    cbn [bind reply_sources sources option_map]. vm_compute. reflexivity.
  - unfold query_context.
    replace (retrieve _ _) with (Ok (A := list Event) (rev scenario))
      by (vm_compute; reflexivity).
    cbn [bind]. answer_is_ok latest_commit.
    cbn [bind reply_sources sources option_map]. vm_compute. reflexivity.
Qed.

End IndexFailure.

(** ** The undefined retrieval helper *)

Module UndefinedHelper.
Import Endpoint.

Definition branch_request (limit : option Z) : QueryRequest :=
  request "authentication work" limit None (Some ["main"]).

Lemma build_branch_filter_nonempty (b : string) (bs : list string) :
  is_Some (build_branch_filter (Some (b :: bs))).
Proof. cbn. eauto. Qed.

(** C3 (as stated it fails when [limit] is null): the request supplies
    branches and has no temporal keyword, yet the exception that reaches
    the handler is the [TypeError] of [request.limit * 2], raised before
    the retrieval path is entered. *)
Lemma null_limit_raises_type_error :
  query_context plain_renderers (memory_only scenario) (branch_request None)
  = HTTPException 500
      (TypeError "unsupported operand type(s) for *: 'NoneType' and 'int'").
Proof. vm_compute. reflexivity. Qed.

(** C3 (amended): a request with a non-empty branches list, no temporal
    keyword in its text and an integer limit reaches the retrieval path
    with [temporal_priority=False], which calls the undefined
    [search_with_filters]: the [NameError] is turned into a server error
    (status 500) whatever the state of the store; with a null limit the
    request fails as well, so no such request gets branch-filtered
    results. *)
Theorem branch_query_hits_undefined_helper
    (R : Renderers) (w : World) (req : QueryRequest)
    (b : string) (bs : list string) :
  q_branches req = Some (b :: bs) ->
  is_temporal_query (q_query req) = false ->
  (forall n, q_limit req = Some n ->
     query_context R w req
     = HTTPException 500 (NameError "search_with_filters"))
  /\ exists e, query_context R w req = HTTPException 500 e.
Proof.
  intros Hb Ht.
  assert (Hn : forall n, q_limit req = Some n ->
            query_context R w req
            = HTTPException 500 (NameError "search_with_filters")).
  { intros n Hl. unfold query_context, retrieve.
    rewrite Hb, Ht, Hl. reflexivity. }
  split; [exact Hn |].
  destruct (q_limit req) as [n |] eqn:Hl.
  - eexists. apply (Hn n). reflexivity.
  - eexists. unfold query_context, retrieve.
    rewrite Hb, Ht, Hl. reflexivity.
Qed.

(** branches [[main]], limit 10, no temporal keyword *)
Lemma branch_query_hits_undefined_helper_witness :
  query_context plain_renderers (memory_only scenario)
                (branch_request (Some 10))
  = HTTPException 500 (NameError "search_with_filters").
Proof.
  refine (proj1 (branch_query_hits_undefined_helper
                   plain_renderers (memory_only scenario)
                   (branch_request (Some 10)) "main" [] _ _) 10 _).
  - reflexivity.
  - vm_compute. reflexivity.
  - reflexivity.
Defined.

End UndefinedHelper.

(** ** Ingesting a commit twice *)

Module IngestionFacts.
Import Ingestion.

Definition holds_hash (h : string) (client : Qdrant) : Prop :=
  exists p, In p (points client) /\ commit_hash p = Some h.

Lemma hash_clause_holds (h : string) (e : Event) :
  Index.filter_holds
    (Some (Must [ {| cond_key := "commit_hash"; cond_value := h |} ])) e = true
  <-> commit_hash e = Some h.
Proof.
  cbn. rewrite andb_true_r. destruct (commit_hash e) as [s |].
  - rewrite String.eqb_eq. split; congruence.
  - split; discriminate.
Qed.

(** [check_commit_exists] answers from the index alone. *)
Lemma check_commit_exists_spec (w : World) (client : Qdrant) (h : string) :
  qdrant_client w = Some client -> online client = true -> h <> "" ->
  check_commit_exists w h = true <-> holds_hash h client.
Proof.
  intros Hc Hon Hh. unfold check_commit_exists, Index.scroll, holds_hash.
  rewrite Hc, Hon. apply String.eqb_neq in Hh. rewrite Hh.
  set (f := Index.filter_holds _).
  destruct (List.filter f (points client)) as [| p ps] eqn:Hf.
  - split; [discriminate |]. intros (p & Hin & Hp).
    assert (In p (List.filter f (points client)))
      by (apply filter_In; split; [exact Hin | now apply hash_clause_holds]).
    rewrite Hf in H. contradiction.
  - split; [intros _ | reflexivity].
    assert (Hin : In p (List.filter f (points client)))
      by (rewrite Hf; now left).
    apply filter_In in Hin as [Hin Hp]. exists p.
    split; [exact Hin | now apply hash_clause_holds].
Qed.

Lemma check_commit_exists_no_client (w : World) (h : string) :
  qdrant_client w = None -> check_commit_exists w h = false.
Proof. unfold check_commit_exists. now intros ->. Qed.

Section ingest.
Variable normalize_repo_path : string -> string.

(** A commit the index already holds is reported as a duplicate and
    nothing is stored. *)
Lemma ingest_indexed_commit (now : string) (w : World) (client : Qdrant)
    (event : Event) (h : string) :
  qdrant_client w = Some client -> online client = true ->
  commit_hash event = Some h -> h <> "" -> holds_hash h client ->
  let r := ingest_git_event normalize_repo_path now w event in
  r.1.2 = duplicate /\ r.2 = None
  /\ git_events r.1.1 = git_events w
  /\ qdrant_client r.1.1 = qdrant_client w
  /\ embedding_model r.1.1 = embedding_model w.
Proof.
  intros Hc Hon He Hh Hheld. unfold ingest_git_event.
  rewrite He. cbn [default id]. cbn zeta.
  rewrite (proj2 (check_commit_exists_spec w client h Hc Hon Hh) Hheld).
  apply String.eqb_neq in Hh. rewrite Hh. cbn. tauto.
Qed.

(** After an ingestion and its background write, the index holds the
    commit's hash. *)
Lemma ingest_and_store_indexes (now : string) (w : World) (client : Qdrant)
    (event : Event) (h : string) :
  qdrant_client w = Some client -> online client = true ->
  embedding_model w = true ->
  commit_hash event = Some h -> h <> "" ->
  let w1 := (ingest_and_store normalize_repo_path now w event).1 in
  exists client1,
    qdrant_client w1 = Some client1 /\ online client1 = true
    /\ holds_hash h client1.
Proof.
  intros Hc Hon Hm He Hh. cbn zeta.
  unfold ingest_and_store, ingest_git_event.
  rewrite He. cbn [default id]. cbn zeta.
  destruct (check_commit_exists w h) eqn:Hchk.
  - apply String.eqb_neq in Hh as Hh'. rewrite Hh'. cbn.
    exists client. repeat split; try assumption.
    now apply (check_commit_exists_spec w client h Hc Hon Hh).
  - rewrite andb_false_r. rewrite Hc. cbn [fst snd].
    rewrite bool_decide_eq_true_2 by eauto.
    unfold store_in_qdrant. cbn [qdrant_client embedding_model].
    rewrite Hm, Hon. cbn.
    eexists. split; [reflexivity |]. split; [reflexivity |].
    eexists. split; [apply in_or_app; right; now left |]. exact He.
Qed.

(** C9 (amended): with the index client and the embedding model
    available, once the background write of the first ingestion has
    completed, ingesting the same non-empty commit hash again is
    reported as a duplicate and the event is not stored again: the
    in-memory collection and the index are unchanged, so the
    unique-commit count is the same as after ingesting it once.
    (Without an index client no duplicate is detected.) *)
Theorem second_ingestion_is_duplicate
    (now1 now2 : string) (w : World) (client : Qdrant) (event : Event)
    (h : string) :
  qdrant_client w = Some client -> online client = true ->
  embedding_model w = true ->
  commit_hash event = Some h -> h <> "" ->
  let once := ingest_and_store normalize_repo_path now1 w event in
  let twice := ingest_and_store normalize_repo_path now2 once.1 event in
  twice.2 = duplicate
  /\ git_events twice.1 = git_events once.1
  /\ qdrant_client twice.1 = qdrant_client once.1
  /\ unique_commit_count twice.1 = unique_commit_count once.1.
Proof.
  intros Hc Hon Hm He Hh once twice.
  destruct (ingest_and_store_indexes now1 w client event h Hc Hon Hm He Hh)
    as (client1 & Hc1 & Hon1 & Hheld).
  fold once in Hc1.
  destruct (ingest_indexed_commit now2 once.1 client1 event h
              Hc1 Hon1 He Hh Hheld) as (Hs & Ht & Hg & Hq & _).
  assert (Htw : twice
            = ((ingest_git_event normalize_repo_path now2 once.1 event).1.1,
               duplicate)).
  { unfold twice, ingest_and_store.
    destruct (ingest_git_event normalize_repo_path now2 once.1 event)
      as [[w2 s2] t2]. cbn in Hs, Ht |- *. now subst. }
  rewrite Htw. cbn [fst snd]. repeat split; try assumption.
  unfold unique_commit_count. now rewrite Hg.
Qed.

End ingest.

Definition posix_normalized (p : string) : string := p.

Definition first_push : Event :=
  commit "abc123def456" "/srv/app" "2024-03-09T12:00:00".

Definition commit_count_of (w : World) (r : string) : option Z :=
  commit_count <$> indexed_repositories w !! r.

(** C9 (as stated it fails): without an index client the second
    ingestion of a commit is reported as a success and the event is
    stored a second time; and with the index in place, where the second
    ingestion is reported as a duplicate, the repository's [commit_count]
    is 2 after two ingestions and 1 after one. *)
Lemma repeated_ingestion_is_counted :
  let once := ingest_and_store posix_normalized "2024-03-09T12:00:01"
                (memory_only []) first_push in
  let twice := ingest_and_store posix_normalized "2024-03-09T12:00:02"
                 once.1 first_push in
  let once' := ingest_and_store posix_normalized "2024-03-09T12:00:01"
                 (with_index [] [] true) first_push in
  let twice' := ingest_and_store posix_normalized "2024-03-09T12:00:02"
                  once'.1 first_push in
  (twice.2 = success
   /\ length (git_events once.1) = 1%nat
   /\ length (git_events twice.1) = 2%nat)
  /\ (twice'.2 = duplicate
      /\ commit_count_of once'.1 "/srv/app" = Some 1
      /\ commit_count_of twice'.1 "/srv/app" = Some 2).
Proof. vm_compute. repeat split; reflexivity. Qed.

(** one push ingested twice with the index in place *)
Lemma second_ingestion_is_duplicate_witness :
  let once := ingest_and_store posix_normalized "2024-03-09T12:00:01"
                (with_index [] [] true) first_push in
  let twice := ingest_and_store posix_normalized "2024-03-09T12:00:02"
                 once.1 first_push in
  twice.2 = duplicate
  /\ git_events twice.1 = git_events once.1
  /\ qdrant_client twice.1 = qdrant_client once.1
  /\ unique_commit_count twice.1 = unique_commit_count once.1.
Proof.
  apply (second_ingestion_is_duplicate posix_normalized
           "2024-03-09T12:00:01" "2024-03-09T12:00:02"
           (with_index [] [] true) (index_of [] true) first_push
           "abc123def456"); try reflexivity.
  discriminate.
Defined.

End IngestionFacts.

(** ** Binary64 rounding *)

(** Facts about the IEEE-754 operations ([SpecFloat], precision 53) needed
    to follow [len(sources) * 0.05] for an arbitrary number of sources. *)
Module Binary64.

Lemma digits_bounds (m : positive) :
  2 ^ (Zpos (digits2_pos m) - 1) <= Zpos m < 2 ^ Zpos (digits2_pos m).
Proof.
  induction m as [m IH | m IH |]; cbn [digits2_pos].
  - rewrite Pos2Z.inj_succ, (Pos2Z.inj_xI m).
    replace (Z.succ (Zpos (digits2_pos m)) - 1)
      with (Z.succ (Zpos (digits2_pos m) - 1)) by lia.
    rewrite !Z.pow_succ_r by lia.
    generalize dependent (2 ^ (Zpos (digits2_pos m) - 1)).
    generalize dependent (2 ^ Zpos (digits2_pos m)). intros; lia.
  - rewrite Pos2Z.inj_succ, (Pos2Z.inj_xO m).
    replace (Z.succ (Zpos (digits2_pos m)) - 1)
      with (Z.succ (Zpos (digits2_pos m) - 1)) by lia.
    rewrite !Z.pow_succ_r by lia.
    generalize dependent (2 ^ (Zpos (digits2_pos m) - 1)).
    generalize dependent (2 ^ Zpos (digits2_pos m)). intros; lia.
  - cbn. lia.
Qed.

Lemma digits_unique (m : positive) (d : Z) :
  2 ^ (d - 1) <= Zpos m < 2 ^ d -> Zpos (digits2_pos m) = d.
Proof.
  intros [Hlo Hhi]. pose proof (digits_bounds m) as [Blo Bhi].
  set (D := Zpos (digits2_pos m)) in *.
  destruct (Z.lt_trichotomy D d) as [Hlt | [-> | Hgt]]; [| reflexivity |].
  - exfalso.
    assert (2 ^ D <= 2 ^ (d - 1)) by (apply Z.pow_le_mono_r; lia). lia.
  - exfalso.
    assert (0 <= d).
    { destruct (Z.le_gt_cases 0 d); [assumption |].
      rewrite Z.pow_neg_r in Hhi by lia. lia. }
    assert (2 ^ d <= 2 ^ (D - 1)) by (apply Z.pow_le_mono_r; lia). lia.
Qed.

Lemma shr_1_m (mrs : shr_record) :
  0 <= shr_m mrs -> shr_m (shr_1 mrs) = shr_m mrs / 2.
Proof.
  destruct mrs as [[| [p | p |] | p] r s]; cbn [shr_m shr_1]; intros H;
    try lia; rewrite <- Z.div2_div; reflexivity.
Qed.

Lemma pow2_xO (p : positive) : 2 ^ Zpos p~0 = 2 ^ Zpos p * 2 ^ Zpos p.
Proof.
  rewrite (Pos2Z.inj_xO p). replace (2 * Zpos p) with (Zpos p + Zpos p) by lia.
  apply Z.pow_add_r; lia.
Qed.

Lemma pow2_xI (p : positive) : 2 ^ Zpos p~1 = 2 * (2 ^ Zpos p * 2 ^ Zpos p).
Proof.
  rewrite (Pos2Z.inj_xI p), <- pow2_xO, (Pos2Z.inj_xO p).
  replace (2 * Zpos p + 1) with (Z.succ (2 * Zpos p)) by lia.
  apply Z.pow_succ_r. lia.
Qed.

Lemma pow2_pos (n : Z) : 0 <= n -> 0 < 2 ^ n.
Proof. intros. apply Z.pow_pos_nonneg; lia. Qed.

Lemma iter_shr_m (p : positive) (mrs : shr_record) :
  0 <= shr_m mrs ->
  shr_m (iter_pos shr_1 p mrs) = shr_m mrs / 2 ^ Zpos p.
Proof.
  revert mrs. induction p as [p IH | p IH |]; intros mrs H; cbn [iter_pos].
  - assert (Hp : 0 < 2 ^ Zpos p) by (apply pow2_pos; lia).
    assert (H1 : 0 <= shr_m (shr_1 mrs))
      by (rewrite shr_1_m by exact H; apply Z.div_pos; lia).
    assert (H2 : 0 <= shr_m (iter_pos shr_1 p (shr_1 mrs)))
      by (rewrite IH by exact H1; apply Z.div_pos; lia).
    rewrite (IH _ H2), (IH _ H1), shr_1_m by exact H.
    rewrite !Z.div_div by lia. now rewrite pow2_xI, Z.mul_assoc.
  - assert (Hp : 0 < 2 ^ Zpos p) by (apply pow2_pos; lia).
    assert (H2 : 0 <= shr_m (iter_pos shr_1 p mrs))
      by (rewrite IH by exact H; apply Z.div_pos; lia).
    rewrite (IH _ H2), (IH _ H).
    rewrite !Z.div_div by lia. now rewrite pow2_xO.
  - rewrite shr_1_m by exact H. reflexivity.
Qed.

(** [shr]: the mantissa is divided, the exponent grows by the shift *)
Lemma shr_spec (mrs : shr_record) (e n : Z) :
  0 <= shr_m mrs -> 0 <= n ->
  shr_m (shr mrs e n).1 = shr_m mrs / 2 ^ n /\ (shr mrs e n).2 = e + n.
Proof.
  intros Hm Hn. destruct n as [| p | p]; cbn [shr fst snd]; [| | lia].
  - now rewrite Z.div_1_r, Z.add_0_r.
  - split; [now apply iter_shr_m | reflexivity].
Qed.

Lemma shr_record_of_loc_m (m : Z) (l : location) :
  shr_m (shr_record_of_loc m l) = m.
Proof. destruct l as [| []]; reflexivity. Qed.

Lemma round_nearest_even_bounds (m : Z) (l : location) :
  m <= round_nearest_even m l <= m + 1.
Proof.
  destruct l as [| []]; cbn [round_nearest_even]; try lia.
  destruct (Z.even m); lia.
Qed.

(** A mantissa of at least 53 digits is shifted down to exactly 53. *)
Lemma shr_fexp_normal (q : positive) (e : Z) (l : location) :
  let D := Zpos (digits2_pos q) in
  53 <= D -> -1074 <= D + e - 53 ->
  let r := shr_fexp prec emax (Zpos q) e l in
  r.2 = D + e - 53 /\ 2 ^ 52 <= shr_m r.1 < 2 ^ 53.
Proof.
  intros D HD He r. subst r. unfold shr_fexp, fexp, emin, prec, emax.
  cbn [Zdigits2]. fold D.
  replace (Z.max (D + e - 53) (3 - 1024 - 53) - e) with (D - 53) by lia.
  destruct (shr_spec (shr_record_of_loc (Zpos q) l) e (D - 53)) as [Hm Hx].
  { rewrite shr_record_of_loc_m. lia. }
  { lia. }
  rewrite Hm, Hx, shr_record_of_loc_m. split; [lia |].
  pose proof (digits_bounds q) as [Blo Bhi]. fold D in Blo, Bhi.
  assert (Hs : 0 < 2 ^ (D - 53)) by (apply pow2_pos; lia).
  assert (E1 : 2 ^ (D - 1) = 2 ^ (D - 53) * 2 ^ 52)
    by (rewrite <- Z.pow_add_r by lia; f_equal; lia).
  assert (E2 : 2 ^ D = 2 ^ (D - 53) * 2 ^ 53)
    by (rewrite <- Z.pow_add_r by lia; f_equal; lia).
  split.
  - apply Z.div_le_lower_bound; [exact Hs | now rewrite <- E1].
  - apply Z.div_lt_upper_bound; [exact Hs | now rewrite <- E2].
Qed.

Lemma pow2_le_inv (a b : Z) : 0 <= b -> 2 ^ a < 2 ^ b -> a < b.
Proof.
  intros Hb H. destruct (Z.lt_ge_cases a b) as [| Hge]; [assumption |].
  assert (2 ^ b <= 2 ^ a) by (apply Z.pow_le_mono_r; lia). lia.
Qed.

(** Rounding a positive number with at least 53 significant digits, in the
    normal range: the result is finite, normalised, and its exponent is
    the input's magnitude minus 53, or one more. *)
Lemma binary_round_aux_normal (sx : bool) (m : positive) (e : Z) :
  let D := Zpos (digits2_pos m) in
  53 <= D -> -1074 <= D + e - 53 -> D + e - 52 <= 971 ->
  exists m' e',
    binary_round_aux prec emax sx (Zpos m) e loc_Exact = S754_finite sx m' e'
    /\ 2 ^ 52 <= Zpos m' < 2 ^ 53
    /\ D + e - 53 <= e' <= D + e - 52.
Proof.
  intros D HD Hlo Hhi. unfold binary_round_aux.
  pose proof (shr_fexp_normal m e loc_Exact HD Hlo) as [He1 Hm1].
  destruct (shr_fexp prec emax (Zpos m) e loc_Exact) as [mrs1 e1].
  cbn [fst snd] in He1, Hm1. fold D in He1.
  pose proof (round_nearest_even_bounds (shr_m mrs1) (loc_of_shr_record mrs1))
    as Hr.
  destruct (round_nearest_even (shr_m mrs1) (loc_of_shr_record mrs1))
    as [| q | q] eqn:Hq; try lia.
  pose proof (digits_bounds q) as [Blo Bhi].
  assert (HD2 : 53 <= Zpos (digits2_pos q) <= 54).
  { split.
    - assert (52 < Zpos (digits2_pos q)); [| lia].
      apply pow2_le_inv; lia.
    - assert (Zpos (digits2_pos q) - 1 < 54); [| lia].
      apply pow2_le_inv; [lia |].
      change (2 ^ 54) with (2 * 2 ^ 53). lia. }
  pose proof (shr_fexp_normal q e1 loc_Exact (proj1 HD2)) as Hsecond.
  cbn zeta in Hsecond.
  destruct Hsecond as [He2 Hm2]; [lia |].
  destruct (shr_fexp prec emax (Zpos q) e1 loc_Exact) as [mrs2 e2].
  cbn [fst snd] in He2, Hm2.
  destruct (shr_m mrs2) as [| m' | m'] eqn:Hm'; try lia.
  exists m', e2. unfold emax, prec.
  replace (e2 <=? 1024 - 53) with true by (symmetry; apply Z.leb_le; lia).
  repeat split; lia.
Qed.

Lemma iter_xO (p d : positive) :
  Zpos (Pos.iter xO p d) = Zpos p * 2 ^ Zpos d.
Proof.
  induction d as [| d IH] using Pos.peano_ind.
  - cbn [Pos.iter]. rewrite (Pos2Z.inj_xO p). change (2 ^ 1) with 2. lia.
  - rewrite Pos.iter_succ, Pos2Z.inj_xO, IH, Pos2Z.inj_succ.
    rewrite Z.pow_succ_r by lia. lia.
Qed.

(** [float(z)] for an integer between 16 and [2^63]: finite, normalised,
    with an exponent of at least -48. *)
Lemma of_integer_normal (z : Z) :
  16 <= z < 2 ^ 63 ->
  exists m e,
    binary_normalize prec emax z 0 false = S754_finite false m e
    /\ 2 ^ 52 <= Zpos m < 2 ^ 53 /\ -48 <= e <= 11.
Proof.
  intros [Hlo Hhi]. destruct z as [| p | p]; try lia.
  cbn [binary_normalize]. unfold binary_round.
  pose proof (digits_bounds p) as [Blo Bhi].
  set (dp := Zpos (digits2_pos p)) in *.
  assert (Hdp : 5 <= dp <= 63).
  { split.
    - assert (4 < dp); [| lia]. apply pow2_le_inv; [lia |].
      change (2 ^ 4) with 16. lia.
    - assert (dp - 1 < 63); [| lia]. apply pow2_le_inv; lia. }
  assert (Hf : fexp prec emax (dp + 0) = dp - 53)
    by (unfold fexp, emin, prec, emax; lia).
  rewrite Hf. unfold shl_align.
  assert (Hgoal : forall mz ez,
            53 <= Zpos (digits2_pos mz) ->
            Zpos (digits2_pos mz) + ez = dp ->
            exists m e,
              binary_round_aux prec emax false (Zpos mz) ez loc_Exact
              = S754_finite false m e
              /\ 2 ^ 52 <= Zpos m < 2 ^ 53 /\ -48 <= e <= 11).
  { intros mz ez HD Hsum.
    destruct (binary_round_aux_normal false mz ez HD) as (m & e & -> & Hm & He);
      [lia | lia |].
    exists m, e. repeat split; lia. }
  destruct (dp - 53 - 0) as [| d | d] eqn:Hd.
  - apply Hgoal; fold dp; lia.
  - apply Hgoal; fold dp; lia.
  - assert (Hmz : Zpos (digits2_pos (Pos.iter xO p d)) = 53).
    { apply digits_unique. rewrite iter_xO.
      assert (Hs : 0 < 2 ^ Zpos d) by (apply pow2_pos; lia).
      assert (E1 : 2 ^ (53 - 1) = 2 ^ (dp - 1) * 2 ^ Zpos d)
        by (rewrite <- Z.pow_add_r by lia; f_equal; lia).
      assert (E2 : 2 ^ 53 = 2 ^ dp * 2 ^ Zpos d)
        by (rewrite <- Z.pow_add_r by lia; f_equal; lia).
      rewrite E1, E2. split.
      - apply Z.mul_le_mono_nonneg_r; lia.
      - apply Z.mul_lt_mono_pos_r; lia. }
    apply Hgoal; rewrite Hmz; lia.
Qed.

(** the binary64 values of 0.05 and 0.3 *)
Definition sf0_05 : spec_float := S754_finite false 7205759403792794 (-57).
Definition sf0_3 : spec_float := S754_finite false 5404319552844595 (-54).

(** Six or more sources: the product with 0.05 is not below 0.3. *)
Lemma product_reaches_cap (z : Z) :
  16 <= z < 2 ^ 63 ->
  SFltb (SF64mul (binary_normalize prec emax z 0 false) sf0_05) sf0_3 = false.
Proof.
  intros Hz. destruct (of_integer_normal z Hz) as (m & e & -> & Hm & He).
  unfold SF64mul, sf0_05. cbn [SFmul xorb].
  set (mc := 7205759403792794%positive).
  pose proof (digits_bounds (m * mc)) as [Blo Bhi].
  set (D := Zpos (digits2_pos (m * mc))) in *.
  assert (HD : 105 <= D <= 106).
  { rewrite Pos2Z.inj_mul in Blo, Bhi. split.
    - assert (104 < D); [| lia]. apply pow2_le_inv; [lia |].
      assert (2 ^ 104 <= Zpos m * Zpos mc); [| lia].
      change (2 ^ 104) with (2 ^ 52 * 2 ^ 52).
      apply Z.mul_le_mono_nonneg; subst mc; lia.
    - assert (D - 1 < 106); [| lia]. apply pow2_le_inv; [lia |].
      assert (Zpos m * Zpos mc < 2 ^ 106); [| lia].
      change (2 ^ 106) with (2 ^ 53 * 2 ^ 53).
      apply Z.mul_lt_mono_nonneg; subst mc; lia. }
  destruct (binary_round_aux_normal false (m * mc) (e + -57))
    as (m' & e' & -> & Hm' & He'); fold D; try lia.
  unfold SFltb, sf0_3. cbn [SFcompare].
  replace (e' ?= -54) with Gt by (symmetry; apply Z.compare_gt_iff; lia).
  reflexivity.
Qed.

End Binary64.

(** ** Confidence scorer *)

Module ConfidenceFacts.
Import Confidence Binary64.
Local Open Scope float_scope.

Lemma Prim2SF_c0_05 : Prim2SF c0_05 = sf0_05.
Proof. vm_compute. reflexivity. Qed.

Lemma Prim2SF_c0_3 : Prim2SF c0_3 = sf0_3.
Proof. vm_compute. reflexivity. Qed.

(** [m * 2^e] is within half a unit in the last place of [num / den] *)
Definition nearest_to (num den : Z) (x : spec_float) : bool :=
  match x with
  | S754_finite false m e =>
      (Z.abs (2 * den * Zpos m - 2 * num * 2 ^ (- e)) <=? den)%Z
      && (Zpos (digits2_pos m) =? 53)%Z
  | _ => false
  end.

(** The constants are the binary64 values of the decimal literals. *)
Lemma literals_are_nearest :
  nearest_to 1 2 (Prim2SF c0_5) = true
  /\ nearest_to 3 10 (Prim2SF c0_3) = true
  /\ nearest_to 5 100 (Prim2SF c0_05) = true
  /\ nearest_to 1 10 (Prim2SF c0_1) = true
  /\ nearest_to 95 100 (Prim2SF c0_95) = true.
Proof. vm_compute. repeat split; reflexivity. Qed.

(** the values [min(0.3, n * 0.05)] takes *)
Definition source_bonuses : list float :=
  [ 0; c0_05; c0_1; 0x1.3333333333334p-3; 0x1.999999999999ap-3; 0x1p-2;
    c0_3 ].

Definition source_bonus (n : float) : float := py_min c0_3 (n * c0_05).

Lemma source_bonus_capped (u : PrimInt63.int) :
  (16 <= Uint63.to_Z u)%Z -> source_bonus (of_uint63 u) = c0_3.
Proof.
  intros Hu. unfold source_bonus, py_min.
  rewrite ltb_spec, mul_spec, of_uint63_spec, Prim2SF_c0_05, Prim2SF_c0_3.
  rewrite product_reaches_cap; [reflexivity |].
  pose proof (Uint63.to_Z_bounded u) as Hb.
  change Uint63.wB with (2 ^ 63)%Z in Hb. lia.
Qed.

Lemma source_bonus_values (u : PrimInt63.int) :
  In (source_bonus (of_uint63 u)) source_bonuses.
Proof.
  destruct (Z.le_gt_cases 16 (Uint63.to_Z u)) as [Hge | Hlt].
  - rewrite source_bonus_capped by exact Hge. unfold source_bonuses.
    do 6 right. now left.
  - pose proof (Uint63.to_Z_bounded u) as [Hlo _].
    rewrite <- (Uint63.of_to_Z u).
    assert (Hk : In (Uint63.to_Z u) (map Z.of_nat (seq 0 16))).
    { apply in_map_iff. exists (Z.to_nat (Uint63.to_Z u)).
      split; [lia | apply in_seq; lia]. }
    revert Hk. generalize (Uint63.to_Z u). intros k Hk.
    cbn in Hk.
    repeat (destruct Hk as [<- | Hk];
            [vm_compute; intuition congruence |]).
    destruct Hk.
Qed.

(** From six sources on the per-source bonus is the cap itself. *)
Lemma six_sources_reach_cap {A} (l : list A) :
  (6 <= Z.of_nat (length l) < 2 ^ 63)%Z ->
  py_min c0_3 (float_of_len l * c0_05) = c0_3.
Proof.
  intros Hl. unfold float_of_len.
  set (z := Z.of_nat (length l)) in *.
  assert (Hz : Uint63.to_Z (Uint63.of_Z z) = z)
    by (rewrite Uint63.of_Z_spec; apply Z.mod_small;
        change Uint63.wB with (2 ^ 63)%Z; lia).
  destruct (Z.le_gt_cases 16 z) as [Hge | Hlt].
  - apply source_bonus_capped. now rewrite Hz.
  - assert (Hk : In z (map Z.of_nat (seq 6 10))).
    { apply in_map_iff. exists (Z.to_nat z).
      split; [lia | apply in_seq; lia]. }
    clear Hz Hl Hlt. revert Hk. generalize z. intros k Hk. cbn in Hk.
    repeat (destruct Hk as [<- | Hk]; [vm_compute; reflexivity |]).
    destruct Hk.
Qed.

Ltac by_float_cases H :=
  unfold source_bonuses in H; cbn [In] in H;
  repeat (destruct H as [<- | H];
          [vm_compute; intuition congruence |]);
  destruct H.

(** C8: for every query, answer and source list the score is 0.5, plus
    min(0.3, 0.05 x number of sources) (nothing for an empty list), plus
    0.1 for an answer longer than 100 characters, plus 0.1 for an answer
    containing "I found" or "Based on", capped at 0.95; it always lies in
    [0.5, 0.95]. *)
Theorem confidence_formula_and_range {A} (query answer : string)
    (sources : list A) :
  calculate_confidence query answer sources
  = confidence_by_words (float_of_len sources) (is_long answer)
                        (has_attribution answer)
  /\ (c0_5 <=? calculate_confidence query answer sources) = true
  /\ (calculate_confidence query answer sources <=? c0_95) = true.
Proof.
  unfold calculate_confidence, confidence_by_words.
  fold (is_long answer). fold (has_attribution answer).
  destruct sources as [| s sources].
  - destruct (is_long answer), (has_attribution answer);
      vm_compute; intuition congruence.
  - set (n := float_of_len (s :: sources)).
    pose proof (source_bonus_values
                  (Uint63.of_Z (Z.of_nat (length (s :: sources))))) as Hb.
    fold (@float_of_len A (s :: sources)) in Hb. fold n in Hb.
    unfold source_bonus in Hb.
    generalize dependent (py_min c0_3 (n * c0_05)). intros b Hb.
    destruct (is_long answer), (has_attribution answer); by_float_cases Hb.
Qed.

End ConfidenceFacts.

(** ** Substring tests *)

Module TextFacts.
Import Text.

Lemma prefix_iff (p q : string) :
  String.prefix p q = true <-> exists post, q = p ++ post.
Proof.
  revert q. induction p as [| c p IH]; intros q.
  - simpl. split; [intros _; exists q; reflexivity |].
    intros _. destruct q; reflexivity.
  - destruct q as [| d q]; simpl.
    + split; [discriminate | intros [post E]; simpl in E; discriminate].
    + destruct (Ascii.ascii_dec c d) as [-> | Hne].
      * rewrite IH. split; intros [post E]; exists post.
        -- rewrite E. reflexivity.
        -- change (String d q = String d (p ++ post)) in E. congruence.
      * split; [discriminate |].
        intros [post E]. change (String d q = String c (p ++ post)) in E.
        congruence.
Qed.

(** [p in q] holds exactly when [q] is [pre ++ p ++ post]. *)
Lemma str_in_iff (p q : string) :
  str_in p q = true <-> exists pre post, q = pre ++ p ++ post.
Proof.
  induction q as [| d q IH].
  - cbn [str_in]. rewrite prefix_iff. split.
    + intros [post E]. exists "", post. exact E.
    + intros (pre & post & E). destruct pre; simpl in E; [eauto | discriminate].
  - cbn [str_in]. rewrite orb_true_iff, prefix_iff, IH. split.
    + intros [[post E] | (pre & post & E)].
      * exists "", post. exact E.
      * exists (String d pre), post. simpl. now rewrite E.
    + intros (pre & post & E). destruct pre as [| c pre]; simpl in E.
      * left. eauto.
      * right. injection E as _ E. eauto.
Qed.

Lemma append_assoc (a b c : string) : (a ++ b) ++ c = a ++ b ++ c.
Proof.
  induction a as [| x a IH]; [reflexivity |].
  change (String x ((a ++ b) ++ c) = String x (a ++ b ++ c)). now rewrite IH.
Qed.

Lemma str_in_trans (a b q : string) :
  str_in a b = true -> str_in b q = true -> str_in a q = true.
Proof.
  rewrite !str_in_iff. intros (p1 & s1 & ->) (p2 & s2 & ->).
  exists (p2 ++ p1), (s1 ++ s2). now rewrite !append_assoc.
Qed.

Lemma any_in_iff (phrases : list string) (q : string) :
  any_in phrases q = true <-> exists p, In p phrases /\ str_in p q = true.
Proof. unfold any_in. apply existsb_exists. Qed.

(** Every phrase of [ps] contains a word of [ks]: a text that contains a
    phrase of [ps] contains a word of [ks]. *)
Lemma any_in_covered (ps ks : list string) (q : string) :
  forallb (fun p => any_in ks p) ps = true ->
  any_in ps q = true -> any_in ks q = true.
Proof.
  rewrite forallb_forall, !any_in_iff. intros Hcov (p & Hp & Hq).
  apply Hcov, any_in_iff in Hp as (k & Hk & Hkp).
  exists k. split; [exact Hk | eapply str_in_trans; eassumption].
Qed.

End TextFacts.

(** ** How the intents are routed *)

Module IntentRouting.
Import Text Classifier Endpoint Synthesizer.

(** X1 (chronological intents take the temporal path): every query the
    classifier labels latest_commit or recent_changes contains one of the
    endpoint's temporal keywords, so the endpoint retrieves for it through
    search_similar_with_temporal_priority with temporal priority on. *)
Theorem chronological_intents_are_temporal (query : string) :
  classify query = latest_commit \/ classify query = recent_changes ->
  is_temporal_query query = true.
Proof.
  unfold classify, classify_query_type, is_temporal_query.
  intros H.
  destruct (any_in latest_phrases (lower query)) eqn:H1.
  { eapply TextFacts.any_in_covered; [| exact H1]. vm_compute. reflexivity. }
  destruct (any_in recent_phrases (lower query)) eqn:H2.
  { eapply TextFacts.any_in_covered; [| exact H2]. vm_compute. reflexivity. }
  exfalso.
  repeat match type of H with
    | context [if ?b then _ else _] =>
        match b with
        | context [if _ then _ else _] => fail 1
        | _ => destruct b
        end
    end; destruct H; discriminate.
Qed.

Lemma chronological_intents_are_temporal_witness :
  classify "What changed recently?" = recent_changes
  /\ is_temporal_query "What changed recently?" = true.
Proof.
  split; [vm_compute; reflexivity |].
  apply chronological_intents_are_temporal. right. vm_compute. reflexivity.
Defined.

Lemma classify_general_commit_query (query : string) :
  classify query = general_commit_query ->
  any_in commit_words (lower query) = true.
Proof.
  unfold classify, classify_query_type.
  destruct (any_in commit_words (lower query)); [reflexivity |].
  cbn [andb].
  repeat match goal with
    | |- context [if ?b then _ else _] =>
        match b with
        | context [if _ then _ else _] => fail 1
        | _ => destruct b
        end
    end; discriminate.
Qed.

(** X2 (a general commit question is answered with the latest commit): a
    query that mentions a commit and an action word but no hexadecimal
    token is answered, over a non-empty commit list, with the analysis of
    the chronologically latest commit; the handler's other branch, the
    lookup of analyze_specific_commit, is never taken for such a query. *)
Theorem general_commit_query_shows_latest
    (R : Renderers) (query : string) (e : Event) (es : list Event) :
  classify query = general_commit_query ->
  generate_intelligent_answer R query (e :: es)
  = Ok (get_latest_commit R (e :: es)).
Proof.
  intros H. pose proof (classify_general_commit_query query H) as Hc.
  unfold generate_intelligent_answer. fold (classify query). rewrite H.
  unfold handle_general_commit_query.
  replace (any_in _ (lower query)) with true; [reflexivity |].
  symmetry. unfold any_in, commit_words in *. cbn [existsb] in *.
  rewrite orb_false_r in Hc. now rewrite Hc.
Qed.

Lemma general_commit_query_shows_latest_witness :
  generate_intelligent_answer plain_renderers "explain commit bbb2" scenario
  = Ok "# Commit Analysis: ccc333".
Proof.
  unfold scenario.
  rewrite (general_commit_query_shows_latest plain_renderers
             "explain commit bbb2"); [| vm_compute; reflexivity].
  vm_compute. reflexivity.
Defined.

(** X3 (comparison questions fail): the name compare_commits is rebound by
    the /api/commits/compare handler, which takes one argument.  A query
    classified commit_comparison for which retrieval finds at least one
    commit therefore ends in the endpoint's catch-all handler as a server
    error (status 500, TypeError) instead of a comparison. *)
Theorem comparison_query_fails
    (R : Renderers) (w : World) (req : QueryRequest)
    (e : Event) (es : list Event) :
  classify (q_query req) = commit_comparison ->
  retrieve w req = Ok (e :: es) ->
  query_context R w req
  = HTTPException 500
      (TypeError
         "compare_commits() takes 1 positional argument but 2 were given").
Proof.
  intros Hc Hr. unfold query_context. rewrite Hr. cbn [bind].
  unfold generate_intelligent_answer. fold (classify (q_query req)).
  rewrite Hc. reflexivity.
Qed.

Lemma comparison_query_fails_witness :
  query_context plain_renderers (memory_only scenario)
    (request "compare the parser rewrite versus the old one" (Some 10) None None)
  = HTTPException 500
      (TypeError
         "compare_commits() takes 1 positional argument but 2 were given").
Proof.
  eapply comparison_query_fails; vm_compute; reflexivity.
Defined.

(** X4 (a null limit is served only for summaries): [limit] is optional in
    the request model; with [limit = null] the endpoint computes
    [request.limit * 2] and fails with a TypeError (status 500), unless the
    query is not temporal, names no branch and contains "summar", the one
    path that retrieves with the fixed limit 50. *)
Theorem null_limit_fails_unless_summary
    (R : Renderers) (w : World) (req : QueryRequest) :
  q_limit req = None ->
  is_temporal_query (q_query req) = true
  \/ is_Some (build_branch_filter (q_branches req))
  \/ str_in "summar" (lower (q_query req)) = false ->
  query_context R w req
  = HTTPException 500
      (TypeError "unsupported operand type(s) for *: 'NoneType' and 'int'").
Proof.
  intros Hl H. unfold query_context, retrieve. rewrite Hl.
  destruct (is_temporal_query (q_query req)) eqn:Ht; [reflexivity |].
  cbn [orb]. case_bool_decide as Hb; [reflexivity |].
  destruct H as [H | [H | H]]; [discriminate | contradiction |].
  rewrite H. reflexivity.
Qed.

Lemma null_limit_fails_unless_summary_witness :
  query_context plain_renderers (memory_only scenario)
    (request "what changed in the parser" None None None)
  = HTTPException 500
      (TypeError "unsupported operand type(s) for *: 'NoneType' and 'int'").
Proof.
  apply null_limit_fails_unless_summary; [reflexivity |].
  right. right. vm_compute. reflexivity.
Defined.

End IntentRouting.

(** ** What retrieval hands back *)

Module RetrievalFacts.
Import Retrieval Endpoint.

Lemma unique_events_length (seen : list string) (events : list Event) :
  (length (unique_events seen events) <= length events)%nat.
Proof.
  revert seen. induction events as [| ev rest IH]; intros seen; cbn; [lia |].
  destruct (Py.str_mem _ seen); cbn; [specialize (IH seen) |
    specialize (IH (default "" (commit_hash ev) :: seen))]; lia.
Qed.

Lemma take_length {A} (n : Z) (l : list A) :
  0 <= n -> (length (Py.take n l) <= Z.to_nat n)%nat.
Proof.
  intros Hn. unfold Py.take. destruct (Z.leb_spec 0 n); [| lia].
  rewrite length_firstn. lia.
Qed.

Lemma sorted_desc_length {A} (key : A -> string) (l : list A) :
  length (Py.sorted_desc key l) = length l.
Proof. apply Permutation_length, PyFacts.sorted_desc_perm. Qed.

(** X5 (retrieval never returns more than [limit] commits): for a
    non-negative limit, search_similar returns at most [limit] commits on
    the vector-index path and on the in-memory path, with or without
    filters, and so does search_similar_with_temporal_priority whenever it
    returns. *)
Theorem retrieval_returns_at_most_limit
    (w : World) (query : string) (limit : Z) (repo : option string)
    (bf : option (list Condition)) (tp : bool) :
  0 <= limit ->
  (length (search_similar w query limit repo bf tp) <= Z.to_nat limit)%nat
  /\ forall events,
       search_similar_with_temporal_priority w query limit repo tp bf
       = Ok events ->
       (length events <= Z.to_nat limit)%nat.
Proof.
  intros Hn. split.
  - unfold search_similar.
    destruct (qdrant_client w) as [client |];
      [destruct (embedding_model w) |]; try (apply take_length; exact Hn).
    unfold Index.search. destruct (online client); [| cbn; lia].
    etransitivity; [apply unique_events_length |].
    destruct tp; rewrite ?sorted_desc_length, length_firstn; lia.
  - unfold search_similar_with_temporal_priority.
    destruct tp; [| discriminate].
    destruct (qdrant_client w) as [client |];
      [destruct (embedding_model w) |];
      intros events [= <-]; apply take_length; exact Hn.
Qed.

Lemma retrieval_returns_at_most_limit_witness :
  (length (search_similar (memory_only scenario) "parser" 2 None None false)
   <= 2)%nat
  /\ length (search_similar (memory_only scenario) "parser" 2 None None false)
     = 2%nat.
Proof.
  split; [| reflexivity].
  assert (H : 0 <= 2) by lia.
  exact (proj1 (retrieval_returns_at_most_limit
                  (memory_only scenario) "parser" 2 None None false H)).
Defined.

Lemma hash_eqb_false (a b : Event) (seen : list string) :
  In (Dedup.hash_key a) seen -> ~ In (Dedup.hash_key b) seen ->
  String.eqb (Dedup.hash_key a) (Dedup.hash_key b) = false.
Proof.
  intros Ha Hb. apply String.eqb_neq. intros E. apply Hb. now rewrite <- E.
Qed.

Lemma unique_events_first (seen : list string) (events : list Event)
    (k : Event) :
  In k (unique_events seen events) ->
  find (fun e => String.eqb (Dedup.hash_key e) (Dedup.hash_key k)) events
  = Some k.
Proof.
  revert seen. induction events as [| ev rest IH]; intros seen; cbn;
    [tauto |].
  fold (Dedup.hash_key ev).
  destruct (Py.str_mem (Dedup.hash_key ev) seen) eqn:Hm.
  - intros Hk.
    destruct (Dedup.unique_events_spec seen rest) as [_ Hin].
    destruct (Hin k Hk) as [_ Hns].
    apply Dedup.str_mem_In in Hm.
    rewrite (hash_eqb_false ev k seen Hm Hns). eapply IH, Hk.
  - intros [-> | Hk]; [now rewrite String.eqb_refl |].
    destruct (Dedup.unique_events_spec (Dedup.hash_key ev :: seen) rest)
      as [_ Hin].
    destruct (Hin k Hk) as [_ Hns].
    rewrite (hash_eqb_false ev k (Dedup.hash_key ev :: seen));
      [eapply IH, Hk | now left | exact Hns].
Qed.

Lemma unique_events_covers (seen : list string) (events : list Event)
    (e : Event) :
  In e events -> ~ In (Dedup.hash_key e) seen ->
  exists k, In k (unique_events seen events)
            /\ Dedup.hash_key k = Dedup.hash_key e.
Proof.
  revert seen. induction events as [| ev rest IH]; intros seen; cbn;
    [tauto |].
  fold (Dedup.hash_key ev).
  destruct (Py.str_mem (Dedup.hash_key ev) seen) eqn:Hm.
  - apply Dedup.str_mem_In in Hm. intros [-> | He] Hns; [contradiction |].
    now apply IH.
  - intros [-> | He] Hns; [exists e; split; [now left | reflexivity] |].
    destruct (String.eqb_spec (Dedup.hash_key ev) (Dedup.hash_key e)) as [E | N].
    + exists ev. split; [now left | exact E].
    + destruct (IH (Dedup.hash_key ev :: seen) He) as (k & Hk & E).
      * intros [E | Hs]; [now apply N | now apply Hns].
      * exists k. split; [now right | exact E].
Qed.

Lemma unique_events_sublist (seen : list string) (events : list Event) :
  sublist (unique_events seen events) events.
Proof.
  revert seen. induction events as [| ev rest IH]; intros seen; cbn;
    [constructor |].
  destruct (Py.str_mem _ seen); constructor; apply IH.
Qed.

(** X6 (deduplication keeps the best-ranked record of every commit): the
    loop that removes duplicates from the index results keeps, for each
    commit hash among the results, exactly the first record carrying it,
    and keeps the records in their original order; no two kept records
    carry the same hash, and no commit that was found is lost.  Records
    without a commit hash share the key [""], so only the first of them
    is kept. *)
Theorem dedup_keeps_first_record_per_hash (events : list Event) :
  let kept := unique_events [] events in
  sublist kept events
  /\ List.NoDup (map Dedup.hash_key kept)
  /\ (forall k, In k kept ->
        find (fun e => String.eqb (Dedup.hash_key e) (Dedup.hash_key k))
             events = Some k)
  /\ (forall e, In e events ->
        exists k, In k kept /\ Dedup.hash_key k = Dedup.hash_key e).
Proof.
  cbv zeta. split; [apply unique_events_sublist |].
  split; [apply Dedup.unique_events_spec |]. split.
  - intros k. apply unique_events_first.
  - intros e He. apply unique_events_covers; [exact He | intros []].
Qed.

(** A record that comes twice is kept once. *)
Example dedup_of_a_repeated_record :
  unique_events []
    [ commit "aaa111" "/srv/app" "2024-03-01T10:00:00";
      commit "aaa111" "/srv/app" "2024-03-01T10:00:00";
      commit "bbb222" "/srv/app" "2024-03-02T10:00:00" ]
  = [ commit "aaa111" "/srv/app" "2024-03-01T10:00:00";
      commit "bbb222" "/srv/app" "2024-03-02T10:00:00" ].
Proof. reflexivity. Qed.

(** one requested branch [b] is named by the filter built from the
    request, and nothing else is *)
Lemma target_branches_built (branches : list string) (should : list Condition)
    (x : string) :
  build_branch_filter (Some branches) = Some should ->
  In x (target_branches should) -> In x branches.
Proof.
  destruct branches as [| b bs]; [discriminate |]. intros H.
  assert (should
          = (map (fun branch => {| cond_key := "primary_branch";
                                   cond_value := branch |}) (b :: bs)
             ++ map (fun branch => {| cond_key := "all_branches";
                                      cond_value := branch |}) (b :: bs))%list)
    as -> by (injection H as <-; reflexivity).
  unfold target_branches. intros Hx.
  apply in_map_iff in Hx as (c & <- & Hc).
  apply in_app_iff in Hc as [Hc | Hc];
    apply in_map_iff in Hc as (y & <- & Hy); exact Hy.
Qed.

Lemma touches_branch_inv (targets : list string) (e : Event) :
  touches_branch targets e = true ->
  (exists p, primary_branch e = Some p /\ In p targets)
  \/ exists a, In a (default [] (all_branches e)) /\ In a targets.
Proof.
  unfold touches_branch. rewrite orb_true_iff, existsb_exists.
  intros [H | (a & Ha & H)].
  - left. destruct (primary_branch e) as [p |]; [| discriminate].
    exists p. split; [reflexivity | now apply Dedup.str_mem_In].
  - right. exists a. split; [exact Ha | now apply Dedup.str_mem_In].
Qed.

(** the sources are the formatted leading events *)
Lemma In_format_sources (limit : option Z) (events : list Event) (s : Source) :
  In s (format_sources limit events) ->
  exists i e, In e events /\ s = format_source (length events) i e.
Proof.
  unfold format_sources. intros Hs.
  apply list_elem_of_In, elem_of_lookup_imap in Hs as (i & e & -> & Hi).
  exists i, e. split; [| reflexivity].
  apply list_elem_of_lookup_2, list_elem_of_In in Hi.
  destruct (PyFacts.take_opt_is_firstn limit events) as [k Hk].
  rewrite Hk in Hi. eapply PyFacts.In_firstn, Hi.
Qed.

(** a source names one of the requested branches *)
Definition on_branch (branches : list string) (s : Source) : Prop :=
  (exists p, src_primary_branch s = Some p /\ In p branches)
  \/ exists a, In a (src_all_branches s) /\ In a branches.

(** X7 (temporal queries honour the branch filter): when a query
    containing a temporal keyword is answered for a request that names
    branches, every returned source is a commit whose primary branch or one
    of whose branches is among the requested ones, whichever backend
    served the request. *)
Theorem temporal_sources_are_on_requested_branches
    (R : Renderers) (w : World) (req : QueryRequest) (resp : QueryResponse)
    (b : string) (bs : list string) :
  is_temporal_query (q_query req) = true ->
  q_branches req = Some (b :: bs) ->
  query_context R w req = Response resp ->
  Forall (on_branch (b :: bs)) (sources resp).
Proof.
  intros Ht Hb Hq.
  apply Temporal.response_inv in Hq as (events & Hr & ->).
  unfold retrieve in Hr. rewrite Ht, Hb in Hr. cbn [orb] in Hr.
  destruct (q_limit req) as [n |]; [| discriminate]. cbn [limit_times_2 bind] in Hr.
  remember (build_branch_filter (Some (b :: bs))) as bf eqn:Hbf.
  assert (exists should, bf = Some should) as [should ->].
  { subst bf. cbn. eauto. }
  assert (exists l, events
                    = Py.take (n * 2)
                        (Py.sorted_desc timestamp_key
                           (apply_branch_filter (Some should) l))) as [l ->].
  { unfold search_similar_with_temporal_priority in Hr.
    destruct (qdrant_client w); [destruct (embedding_model w) |];
      injection Hr as <-; eauto. }
  apply Forall_forall. intros s Hs.
  apply In_format_sources in Hs as (i & e & He & ->).
  apply PyFacts.In_take, PyFacts.In_sorted_desc in He.
  cbn [apply_branch_filter] in He. apply filter_In in He as [_ He].
  apply touches_branch_inv in He as [(p & Hp & Hin) | (a & Ha & Hin)].
  - left. exists p. split; [exact Hp |].
    eapply target_branches_built; [symmetry; exact Hbf | exact Hin].
  - right. exists a. split; [exact Ha |].
    eapply target_branches_built; [symmetry; exact Hbf | exact Hin].
Qed.

(** two commits on [main] and one on [dev] *)
Definition two_branches : list Event :=
  [ commit "aaa111" "/srv/app" "2024-03-01T10:00:00";
    {| commit_hash := Some "ddd444"; repository := Some "/srv/app";
       message := Some "try the new parser"; author := Some "Dev <dev@example.org>";
       timestamp := Some "2024-03-04T10:00:00";
       files_changed := Some ["app/parser.py"];
       primary_branch := Some "dev"; all_branches := Some ["dev"];
       merge_commit := Some false; event_type := Some "git_commit";
       branch_context := None |};
    commit "ccc333" "/srv/app" "2024-03-03T10:00:00" ].

Lemma temporal_sources_are_on_requested_branches_witness :
  exists resp,
    query_context plain_renderers (memory_only two_branches)
      (request "show the latest commit" (Some 10) None (Some ["main"]))
    = Response resp
    /\ map src_commit (sources resp) = ["ccc333"; "aaa111"]
    /\ Forall (on_branch ["main"]) (sources resp).
Proof.
  eexists. split; [vm_compute; reflexivity |].
  split; [reflexivity |].
  eapply (temporal_sources_are_on_requested_branches
            plain_renderers (memory_only two_branches)
            (request "show the latest commit" (Some 10) None (Some ["main"])));
    vm_compute; reflexivity.
Defined.

Lemma substring_le (n : nat) (s : string) :
  (String.length (String.substring 0 n s) <= n)%nat.
Proof.
  revert s. induction n as [| n IH]; intros [| c s]; cbn; try lia.
  specialize (IH s). lia.
Qed.

(** X8 (the response is capped): for a request with a non-negative
    integer limit, a response carries at most [limit] sources; each source
    shows at most the first 8 characters of the commit hash and at most 5
    of the changed files. *)
Theorem sources_are_capped
    (R : Renderers) (w : World) (req : QueryRequest) (resp : QueryResponse)
    (n : Z) :
  q_limit req = Some n -> 0 <= n ->
  query_context R w req = Response resp ->
  (length (sources resp) <= Z.to_nat n)%nat
  /\ Forall (fun s => (String.length (src_commit s) <= 8)%nat
                      /\ (length (src_files_changed s) <= 5)%nat)
            (sources resp).
Proof.
  intros Hl Hn Hq.
  apply Temporal.response_inv in Hq as (events & _ & ->). rewrite Hl. split.
  - unfold format_sources. rewrite length_imap. cbn [Py.take_opt].
    apply take_length, Hn.
  - apply Forall_forall. intros s Hs.
    apply In_format_sources in Hs as (i & e & _ & ->). cbn. split.
    + destruct (Py.truthy (commit_hash e)); [apply substring_le | cbn; lia].
    + rewrite length_firstn. lia.
Qed.

Lemma sources_are_capped_witness :
  exists resp,
    query_context plain_renderers (memory_only scenario)
      (request "what changed in the parser" (Some 2) None None)
    = Response resp
    /\ length (sources resp) = 2%nat
    /\ (length (sources resp) <= 2)%nat.
Proof.
  eexists. split; [vm_compute; reflexivity |]. split; [reflexivity |].
  eapply (sources_are_capped plain_renderers (memory_only scenario)
            (request "what changed in the parser" (Some 2) None None) _ 2);
    [reflexivity | lia | vm_compute; reflexivity].
Defined.

End RetrievalFacts.

(** ** The latest commit *)

Module LatestCommit.
Import Retrieval Synthesizer.

Section head_of_sort.
Context {A : Type} (key : A -> string).

(** The head of the descending stable sort is the first element whose key
    is greatest. *)
Lemma sorted_desc_head (x : A) (l : list A) :
  exists pre m post,
    x :: l = (pre ++ m :: post)%list
    /\ head (Py.sorted_desc key (x :: l)) = Some m
    /\ Forall (fun e => String.ltb (key e) (key m) = true) pre
    /\ Forall (fun e => String.leb (key e) (key m) = true) post.
Proof.
  revert x. induction l as [| y l IH]; intros x.
  - exists [], x, []. cbn. repeat split; constructor.
  - destruct (IH y) as (pre & m & post & E & Hh & Hpre & Hpost).
    change (Py.sorted_desc key (x :: y :: l))
      with (Py.insert_desc key x (Py.sorted_desc key (y :: l))).
    destruct (Py.sorted_desc key (y :: l)) as [| m' tl]; [discriminate |].
    injection Hh as ->. cbn [Py.insert_desc].
    destruct (String.ltb (key x) (key m)) eqn:Hlt.
    + exists (x :: pre), m, post. rewrite E. cbn.
      repeat split; [constructor; assumption | assumption].
    + exists [], x, (y :: l). apply PyFacts.not_ltb_leb in Hlt.
      cbn. repeat split; [constructor |]. rewrite E.
      apply Forall_app. split; [| constructor].
      * eapply Forall_impl; [| exact Hpre]. cbn. intros e He.
        eapply PyFacts.leb_trans; [apply PyFacts.ltb_leb, He | exact Hlt].
      * exact Hlt.
      * eapply Forall_impl; [| exact Hpost]. cbn. intros e He.
        eapply PyFacts.leb_trans; [exact He | exact Hlt].
Qed.
End head_of_sort.

(** X9 (get_latest_commit analyses the first of the newest commits): over
    a non-empty list, get_latest_commit hands to the detailed analysis a
    commit of the list whose timestamp string is greatest; every commit
    before it in the list is strictly older, so among commits with the same
    greatest timestamp the first one in the list is taken.  A commit
    without timestamp counts as the oldest. *)
Theorem latest_commit_is_first_newest
    (R : Renderers) (e : Event) (es : list Event) :
  exists pre latest post,
    e :: es = (pre ++ latest :: post)%list
    /\ get_latest_commit R (e :: es)
       = generate_detailed_commit_analysis R latest (e :: es)
    /\ Forall (fun x => String.ltb (timestamp_key x) (timestamp_key latest)
                        = true) pre
    /\ Forall (fun x => String.leb (timestamp_key x) (timestamp_key latest)
                        = true) post.
Proof.
  destruct (sorted_desc_head timestamp_key e es)
    as (pre & m & post & E & Hh & Hpre & Hpost).
  exists pre, m, post. split; [exact E |]. split; [| tauto].
  unfold get_latest_commit.
  destruct (Py.sorted_desc timestamp_key (e :: es)); [discriminate |].
  now injection Hh as ->.
Qed.

End LatestCommit.

(** ** Ingestion: bookkeeping and duplicate detection *)

Module IngestionBookkeeping.
Import Ingestion.

Lemma check_commit_exists_iff (w : World) (h : string) :
  check_commit_exists w h = true
  <-> exists client,
        qdrant_client w = Some client /\ online client = true
        /\ h <> "" /\ IngestionFacts.holds_hash h client.
Proof.
  destruct (qdrant_client w) as [client |] eqn:Hc.
  - destruct (online client) eqn:Hon.
    + destruct (String.eqb_spec h "") as [-> | Hh].
      * unfold check_commit_exists. rewrite Hc. cbn. split; [discriminate |].
        intros (c & _ & _ & Hn & _). now contradiction Hn.
      * rewrite (IngestionFacts.check_commit_exists_spec w client h Hc Hon Hh).
        split; [intros H; exists client; tauto |].
        intros (c & [= <-] & _ & _ & H). exact H.
    + unfold check_commit_exists, Index.scroll. rewrite Hc, Hon.
      destruct (String.eqb h ""); (split; [discriminate |]);
        intros (c & [= <-] & Hon' & _); congruence.
  - rewrite (IngestionFacts.check_commit_exists_no_client w h Hc).
    split; [discriminate | intros (c & Hc' & _); discriminate].
Qed.

Section bookkeeping.
Variable normalize_repo_path : string -> string.
Variable now : string.

(** the repository name an event is filed under *)
Definition filed_under (event : Event) : string :=
  let r := default "unknown" (repository event) in
  if negb (String.eqb r "unknown") then normalize_repo_path r else r.

(** X10 (a commit is a duplicate exactly when the index holds its hash):
    ingest_git_event reports [duplicate] if and only if an index client is
    configured, its calls succeed, the event carries a non-empty
    commit_hash and some stored point has that very hash.  A duplicate
    leaves the in-memory collection as it was and schedules no index
    write; every other event is appended once, at the end, filed under the
    normalized repository path. *)
Theorem duplicate_exactly_when_indexed (w : World) (event : Event) :
  let r := ingest_git_event normalize_repo_path now w event in
  (r.1.2 = duplicate
   <-> exists client h,
         qdrant_client w = Some client /\ online client = true
         /\ commit_hash event = Some h /\ h <> ""
         /\ IngestionFacts.holds_hash h client)
  /\ git_events r.1.1
     = match r.1.2 with
       | duplicate => git_events w
       | success =>
           (git_events w
            ++ [stored_event now event (filed_under event)])%list
       end
  /\ (r.1.2 = duplicate -> r.2 = None).
Proof.
  cbv zeta. unfold ingest_git_event. cbn zeta. fold (filed_under event).
  destruct (commit_hash event) as [h |] eqn:Hh; cbn [default id].
  - destruct (negb (String.eqb h "") && check_commit_exists w h) eqn:Hd;
      cbn [fst snd git_events].
    + split; [| split; reflexivity]. split; [intros _ | reflexivity].
      apply andb_true_iff in Hd as [_ Hd].
      apply check_commit_exists_iff in Hd as (client & Hc & Hon & Hn & Hp).
      exists client, h. tauto.
    + split; [| split; [reflexivity | discriminate]].
      split; [discriminate |].
      intros (client & h' & Hc & Hon & [= <-] & Hn & Hp). exfalso.
      apply andb_false_iff in Hd as [Hd | Hd].
      * apply negb_false_iff, String.eqb_eq in Hd. contradiction.
      * apply not_true_iff_false in Hd. apply Hd, check_commit_exists_iff.
        exists client. tauto.
  - cbn. split; [| split; [reflexivity | discriminate]].
    split; [discriminate |]. intros (client & h & _ & _ & [=] & _).
Qed.

(** X11 (every push is counted): when an event names a repository,
    ingest_git_event raises the commit_count of the normalized repository
    path by exactly one (starting a new entry at zero, selected), sets its
    last_updated to the time of the call, keeps its first_indexed and
    selected fields, and leaves every other repository entry untouched.
    This happens before the duplicate check, so it holds whether the event
    is then stored or reported as duplicate. *)
Theorem every_push_is_counted (w : World) (event : Event) (r : string) :
  repository event = Some r -> r <> "unknown" ->
  normalize_repo_path r <> "unknown" ->
  let key := normalize_repo_path r in
  let repos := indexed_repositories w in
  let repos' :=
    indexed_repositories
      (ingest_git_event normalize_repo_path now w event).1.1 in
  (exists entry,
     repos' !! key = Some entry
     /\ commit_count entry = default 0 (commit_count <$> repos !! key) + 1
     /\ last_updated entry = now
     /\ first_indexed entry = default now (first_indexed <$> repos !! key)
     /\ selected entry = default true (selected <$> repos !! key)
     /\ path entry = default key (path <$> repos !! key))
  /\ forall other, other <> key -> repos' !! other = repos !! other.
Proof.
  intros Hr Hu Hn. cbv zeta.
  assert (Hrepos :
    indexed_repositories
      (ingest_git_event normalize_repo_path now w event).1.1
    = track_repository now (indexed_repositories w) (normalize_repo_path r)).
  { unfold ingest_git_event. cbn zeta. rewrite Hr. cbn [default id].
    apply String.eqb_neq in Hu. rewrite Hu. cbn [negb].
    destruct (_ && _); reflexivity. }
  rewrite Hrepos. unfold track_repository.
  apply String.eqb_neq in Hn. rewrite Hn. cbn [negb andb].
  set (key := normalize_repo_path r).
  destruct (indexed_repositories w !! key) as [entry |] eqn:He.
  - rewrite bool_decide_eq_false_2 by congruence. rewrite He. split.
    + eexists. rewrite lookup_insert_eq. split; [reflexivity |].
      cbn. repeat split; reflexivity.
    + intros other Ho. now rewrite lookup_insert_ne.
  - rewrite bool_decide_eq_true_2 by reflexivity.
    rewrite lookup_insert_eq. split.
    + eexists. rewrite lookup_insert_eq. split; [reflexivity |].
      cbn. repeat split; reflexivity.
    + intros other Ho. now rewrite !lookup_insert_ne.
Qed.

End bookkeeping.

Lemma every_push_is_counted_witness :
  let w1 := (ingest_and_store IngestionFacts.posix_normalized
               "2024-03-09T12:00:01" (with_index [] [] true)
               IngestionFacts.first_push).1 in
  let r := ingest_git_event IngestionFacts.posix_normalized
             "2024-03-09T12:00:02" w1 IngestionFacts.first_push in
  r.1.2 = duplicate
  /\ IngestionFacts.commit_count_of w1 "/srv/app" = Some 1
  /\ exists entry,
       indexed_repositories r.1.1 !! "/srv/app" = Some entry
       /\ commit_count entry = 2.
Proof.
  cbv zeta. split; [vm_compute; reflexivity |].
  split; [vm_compute; reflexivity |].
  destruct (every_push_is_counted IngestionFacts.posix_normalized
              "2024-03-09T12:00:02"
              (ingest_and_store IngestionFacts.posix_normalized
                 "2024-03-09T12:00:01" (with_index [] [] true)
                 IngestionFacts.first_push).1
              IngestionFacts.first_push "/srv/app")
    as [(entry & He & Hc & _) _];
    [reflexivity | discriminate | discriminate |].
  exists entry. split; [exact He |]. rewrite Hc. vm_compute. reflexivity.
Defined.

End IngestionBookkeeping.

(** ** Paging through the index and deleting from it *)

Module CollectionFacts.
Import Collection.

Lemma number_from_ge (s : nat) (l : list Event) (p : nat * Event) :
  In p (number_from s l) -> (s <= p.1)%nat.
Proof.
  revert s. induction l as [| e l IH]; intros s; cbn; [tauto |].
  intros [<- | H]; [cbn; lia |]. apply IH in H. lia.
Qed.

Lemma number_from_snd (s : nat) (l : list Event) :
  map snd (number_from s l) = l.
Proof.
  revert s. induction l as [| e l IH]; intros s; cbn; [| rewrite IH];
    reflexivity.
Qed.

Lemma number_from_length (s : nat) (l : list Event) :
  length (number_from s l) = length l.
Proof. now rewrite <- (length_map snd), number_from_snd. Qed.

Lemma number_from_fst (s : nat) (l : list Event) :
  map fst (number_from s l) = seq s (length l).
Proof.
  revert s. induction l as [| e l IH]; intros s; cbn; [| rewrite IH];
    reflexivity.
Qed.

Lemma number_from_NoDup (s : nat) (l : list Event) :
  List.NoDup (map fst (number_from s l)).
Proof. rewrite number_from_fst. apply seq_NoDup. Qed.

(** filtering the numbered points on their payloads *)
Lemma filter_payloads (P : Event -> bool) (s : nat) (l : list Event) :
  map snd (List.filter (fun p => P p.2) (number_from s l)) = List.filter P l.
Proof.
  revert s. induction l as [| e l IH]; intros s; cbn; [reflexivity |].
  destruct (P e); cbn; now rewrite IH.
Qed.

Lemma NoDup_app_disjoint {A} (l k : list A) (x : A) :
  List.NoDup (l ++ k) -> In x l -> In x k -> False.
Proof.
  induction l as [| a l IH]; cbn; [tauto |].
  intros Hnd. inversion Hnd as [| ? ? Ha Hnd']; subst.
  intros [-> | Hl] Hk; [| now apply IH].
  apply Ha, in_or_app. now right.
Qed.

(** ids identify points *)
Lemma same_id {A} (N : list (nat * A)) (p q : nat * A) :
  List.NoDup (map fst N) -> In p N -> In q N -> p.1 = q.1 -> p = q.
Proof.
  induction N as [| x N IH]; cbn; [tauto |].
  intros Hnd. inversion Hnd as [| ? ? Hx Hnd']; subst.
  intros [-> | Hp] [-> | Hq] E; try reflexivity.
  - exfalso. apply Hx. rewrite E. now apply in_map.
  - exfalso. apply Hx. rewrite <- E. now apply in_map.
  - now apply IH.
Qed.

Lemma selected_iff {A} (N : list (nat * A)) (Q : nat * A -> bool)
    (sel : list (nat * A)) (p : nat * A) :
  List.NoDup (map fst N) -> incl sel N -> In p N ->
  existsb (Nat.eqb p.1) (map fst (List.filter Q sel)) = true
  <-> In p sel /\ Q p = true.
Proof.
  intros Hnd Hsel Hp. rewrite existsb_exists. split.
  - intros (i & Hi & E). apply Nat.eqb_eq in E. subst i.
    apply in_map_iff in Hi as (q & E & Hq). apply filter_In in Hq as [Hq HQ].
    assert (q = p) as -> by
      (eapply same_id; [exact Hnd | apply Hsel, Hq | exact Hp | exact E]).
    tauto.
  - intros [Hs HQ]. exists p.1. split; [| apply Nat.eqb_refl].
    apply in_map, filter_In. tauto.
Qed.

(** Deleting the ids selected by [Q] among the leading points [front]
    removes exactly those points. *)
Lemma delete_selected {A} (Q : nat * A -> bool) (front back : list (nat * A)) :
  List.NoDup (map fst (front ++ back)) ->
  List.filter
    (fun p => negb (existsb (Nat.eqb p.1) (map fst (List.filter Q front))))
    (front ++ back)
  = (List.filter (fun p => negb (Q p)) front ++ back)%list.
Proof.
  intros Hnd. rewrite filter_app. f_equal.
  - apply filter_ext_in. intros p Hp. f_equal.
    apply eq_true_iff_eq.
    rewrite (selected_iff (front ++ back) Q front p Hnd);
      [tauto | | apply in_or_app; now left].
    intros x Hx. apply in_or_app. now left.
  - rewrite <- (filter_ext_in (fun _ => true)).
    + clear. induction back as [| x l IH]; cbn; [| rewrite IH]; reflexivity.
    + intros p Hp. symmetry. apply negb_true_iff, not_true_iff_false.
      rewrite (selected_iff (front ++ back) Q front p Hnd);
        [| intros x Hx; apply in_or_app; now left
         | apply in_or_app; now right].
      intros [Hf _]. rewrite map_app in Hnd.
      apply (NoDup_app_disjoint _ _ p.1 Hnd); now apply in_map.
Qed.

(** the matching points from id [o] on *)
Definition from_offset (f : option QFilter) (o : nat) (N : list (nat * Event))
  : list (nat * Event) :=
  List.filter (fun p => Index.filter_holds f p.2 && (o <=? p.1)%nat) N.

(** The next page starts where the previous one stopped. *)
Lemma next_page (f : option QFilter) (s : nat) (l : list Event)
    (o k i : nat) (x : Event) :
  nth_error (from_offset f o (number_from s l)) k = Some (i, x) ->
  from_offset f i (number_from s l)
  = skipn k (from_offset f o (number_from s l)).
Proof.
  revert s k. induction l as [| e l IH]; intros s k; cbn.
  - destruct k; discriminate.
  - destruct (Index.filter_holds f e) eqn:Hf; cbn [andb].
    + destruct (Nat.leb_spec o s) as [Hos | Hos].
      * destruct k as [| k]; cbn [nth_error skipn].
        -- intros [= <- <-]. rewrite Nat.leb_refl. f_equal.
           apply filter_ext_in. intros p Hp. apply number_from_ge in Hp.
           f_equal. apply eq_true_iff_eq. rewrite !Nat.leb_le. lia.
        -- intros Hk. pose proof (IH _ _ Hk) as E.
           apply nth_error_In, filter_In in Hk as [Hk _].
           apply number_from_ge in Hk. cbn in Hk.
           destruct (Nat.leb_spec i s); [lia | exact E].
      * intros Hk. pose proof (IH _ _ Hk) as E.
        apply nth_error_In, filter_In in Hk as [Hk _].
        apply number_from_ge in Hk. cbn in Hk.
        destruct (Nat.leb_spec i s); [lia | exact E].
    + intros Hk. apply (IH _ _ Hk).
Qed.

Section loop.
Context {A : Type} (step : A -> list (nat * Event) -> A).
(** the loop body treats two pages as it treats their concatenation *)
Hypothesis step_app :
  forall acc p1 p2, step (step acc p1) p2 = step acc (p1 ++ p2)%list.

Lemma scroll_loop_collects (cl : Qdrant) (f : option QFilter)
    (rounds : nat) (acc : A) (offset : option nat) :
  online cl = true ->
  (length (from_offset f (default 0%nat offset) (numbered cl)) < rounds)%nat ->
  scroll_loop rounds cl f step acc offset
  = Some (Ok (step acc (from_offset f (default 0%nat offset) (numbered cl)))).
Proof.
  intros Hon. revert acc offset.
  induction rounds as [| rounds IH]; intros acc offset Hlen; [lia |].
  cbn [scroll_loop]. unfold scroll. rewrite Hon. cbn zeta.
  fold (from_offset f (default 0%nat offset) (numbered cl)).
  set (M := from_offset f (default 0%nat offset) (numbered cl)) in *.
  destruct (nth_error M 100) as [[i x] |] eqn:Hn; cbn [fmap option_fmap option_map fst].
  - assert (Hlt : (100 < length M)%nat)
      by (apply nth_error_Some; congruence).
    pose proof (next_page f 0 (points cl) _ _ _ _ Hn) as Hnext.
    fold (numbered cl) in Hnext. fold M in Hnext.
    specialize (IH (step acc (firstn 100 M)) (Some i)).
    change (default 0%nat (Some i)) with i in IH.
    rewrite Hnext, length_skipn in IH.
    rewrite IH by lia. now rewrite step_app, firstn_skipn.
  - apply nth_error_None in Hn. now rewrite firstn_all2.
Qed.

(** The paging loop visits every matching point once, in id order, and
    fails only when the index call fails. *)
Lemma scroll_all_collects (cl : Qdrant) (f : option QFilter) (acc : A) :
  scroll_all cl f step acc
  = if online cl
    then Ok (step acc (List.filter (fun p => Index.filter_holds f p.2)
                                   (numbered cl)))
    else Raise (ServiceError "vector index call failed").
Proof.
  unfold scroll_all. destruct (online cl) eqn:Hon.
  - rewrite scroll_loop_collects; [| exact Hon |].
    + do 2 f_equal. unfold from_offset. apply filter_ext. intros p.
      cbn. now rewrite andb_true_r.
    + unfold from_offset.
      pose proof (filter_length_le
        (fun p => Index.filter_holds f p.2 && (default 0%nat None <=? p.1)%nat)
        (numbered cl)) as H.
      unfold numbered in *. rewrite number_from_length in H. lia.
  - cbn. unfold scroll. now rewrite Hon.
Qed.
End loop.

End CollectionFacts.

(** ** Repository administration *)

Module AdminFacts.
Import Admin.

(** the payloads the index holds (none without a client) *)
Definition stored_points (w : World) : list Event :=
  match qdrant_client w with
  | Some client => points client
  | None => []
  end.

(** there is no index client, or its calls succeed *)
Definition index_reachable (w : World) : Prop :=
  match qdrant_client w with
  | Some client => online client = true
  | None => True
  end.

Lemma filter_all {A} (P : A -> bool) (l : list A) :
  List.filter (fun x => negb (P x)) l = [] -> List.filter P l = l.
Proof.
  induction l as [| x l IH]; cbn; [reflexivity |].
  destruct (P x); cbn; [intros H; now rewrite IH | discriminate].
Qed.

Lemma filter_id {A} (P : A -> bool) (l : list A) :
  (forall x, P x = true) -> List.filter P l = l.
Proof.
  intros H. induction l as [| x l IH]; cbn; [reflexivity |].
  now rewrite H, IH.
Qed.

Lemma filter_snd {A B} (P : B -> bool) (l : list (A * B)) :
  map snd (List.filter (fun p => P p.2) l) = List.filter P (map snd l).
Proof.
  induction l as [| x l IH]; cbn; [reflexivity |].
  destruct (P x.2); cbn; now rewrite IH.
Qed.

Lemma firstn_numbered (n : nat) (cl : Qdrant) :
  map snd (firstn n (Collection.numbered cl)) = firstn n (points cl).
Proof.
  unfold Collection.numbered.
  now rewrite <- firstn_map, CollectionFacts.number_from_snd.
Qed.

Lemma skipn_numbered (n : nat) (cl : Qdrant) :
  map snd (skipn n (Collection.numbered cl)) = skipn n (points cl).
Proof.
  unfold Collection.numbered.
  now rewrite <- skipn_map, CollectionFacts.number_from_snd.
Qed.

Lemma map_fst_nil {A B} (l : list (A * B)) : map fst l = [] -> l = [].
Proof. destruct l; [reflexivity | discriminate]. Qed.

(** Deleting the ids of the points whose payload satisfies [Q] leaves the
    other points, in their order. *)
Lemma delete_matching (cl : Qdrant) (Q : Event -> bool) :
  online cl = true ->
  Collection.delete cl
    (map fst (List.filter (fun p => Q p.2) (Collection.numbered cl)))
  = Ok {| points := List.filter (fun e => negb (Q e)) (points cl);
          rank := rank cl; online := online cl |}.
Proof.
  intros Hon. unfold Collection.delete. rewrite Hon. do 2 f_equal.
  pose proof (CollectionFacts.delete_selected (fun p => Q p.2)
                (Collection.numbered cl) []) as H.
  rewrite !app_nil_r in H. rewrite H.
  - apply (CollectionFacts.filter_payloads (fun e => negb (Q e))).
  - apply CollectionFacts.number_from_NoDup.
Qed.

(** the same, when the selection is skipped because it is empty *)
Lemma delete_if_any (cl : Qdrant) (Q : Event -> bool) :
  online cl = true ->
  (let ids := map fst (List.filter (fun p => Q p.2) (Collection.numbered cl)) in
   match ids with
   | [] => Ok cl
   | _ => Collection.delete cl ids
   end)
  = Ok {| points := List.filter (fun e => negb (Q e)) (points cl);
          rank := rank cl; online := online cl |}.
Proof.
  intros Hon. cbv zeta.
  destruct (map fst _) as [| i ids] eqn:E; [| rewrite <- E; now apply delete_matching].
  apply map_fst_nil in E.
  assert (List.filter Q (points cl) = []) as E'.
  { rewrite <- (CollectionFacts.filter_payloads Q 0).
    fold (Collection.numbered cl). now rewrite E. }
  rewrite (filter_all (fun e => negb (Q e))).
  - now destruct cl.
  - rewrite <- E'. apply filter_ext. intros e. apply negb_involutive.
Qed.

Lemma repository_filter_holds (repo_path : string) (e : Event) :
  Index.filter_holds (repository_filter repo_path) e
  = negb (other_repository repo_path e).
Proof.
  cbn. unfold other_repository. rewrite andb_true_r.
  destruct (repository e); [now rewrite negb_involutive | reflexivity].
Qed.

Lemma ids_step (ids : list nat) (p1 p2 : list (nat * Event)) :
  ((ids ++ map fst p1) ++ map fst p2 = ids ++ map fst (p1 ++ p2))%list.
Proof. now rewrite map_app, app_assoc. Qed.

Lemma removed_count {A} (P : A -> bool) (l : list A) :
  length (List.filter P l)
  = (length l - length (List.filter (fun x => negb (P x)) l))%nat.
Proof. pose proof (filter_length P l). lia. Qed.

(** X12 (deleting a repository purges it and nothing else): for a tracked
    repository, with no index client or a reachable index,
    delete_repository removes from the in-memory collection and from the
    index exactly the commits whose repository equals the path, keeps all
    other commits in their order, untracks the path, and reports as
    commits_deleted the number of points removed from the index (however
    many pages of 100 they fill). *)
Theorem delete_repository_purges
    (w : World) (repo_path : string) (entry : RepositoryEntry) :
  indexed_repositories w !! repo_path = Some entry ->
  index_reachable w ->
  let r := delete_repository w repo_path in
  r.2 = repository_deleted
          (length (stored_points w) - length (stored_points r.1))
  /\ git_events r.1 = List.filter (other_repository repo_path) (git_events w)
  /\ stored_points r.1
     = List.filter (other_repository repo_path) (stored_points w)
  /\ indexed_repositories r.1 = delete repo_path (indexed_repositories w).
Proof.
  intros He Hr. cbv zeta. unfold delete_repository, index_reachable in *.
  rewrite He. unfold stored_points.
  destruct (qdrant_client w) as [client |] eqn:Hc; [| cbn; tauto].
  rewrite (CollectionFacts.scroll_all_collects _ ids_step), Hr.
  cbn [bind app].
  pose proof (delete_if_any client
                (fun e => Index.filter_holds (repository_filter repo_path) e) Hr)
    as Hd.
  cbv zeta in Hd. rewrite Hd. cbn [bind fst snd qdrant_client git_events
                                   indexed_repositories points].
  assert (Hf : List.filter
                 (fun e => negb (Index.filter_holds
                                   (repository_filter repo_path) e))
                 (points client)
               = List.filter (other_repository repo_path) (points client)).
  { apply filter_ext. intros e.
    now rewrite repository_filter_holds, negb_involutive. }
  rewrite Hf. repeat split. f_equal.
  rewrite length_map, <- Hf, <- removed_count.
  rewrite <- (CollectionFacts.filter_payloads
                (Index.filter_holds (repository_filter repo_path)) 0).
  now rewrite length_map.
Qed.

(** commits of two repositories, held in memory and in the index *)
Definition two_repositories : list Event :=
  [ commit "aaa111" "/srv/app" "2024-03-01T10:00:00";
    commit "bbb222" "/srv/lib" "2024-03-02T10:00:00";
    commit "ccc333" "/srv/app" "2024-03-03T10:00:00" ].

Definition tracked (paths : list string) : gmap string RepositoryEntry :=
  list_to_map
    (map (fun p => (p, {| path := p; first_indexed := "2024-03-01T09:00:00";
                          last_updated := "2024-03-03T10:00:01";
                          commit_count := 7; selected := true |})) paths).

Definition two_repository_world (up : bool) : World :=
  {| git_events := two_repositories;
     qdrant_client := Some (index_of two_repositories up);
     embedding_model := true;
     indexed_repositories := tracked ["/srv/app"; "/srv/lib"] |}.

Lemma delete_repository_purges_witness :
  let r := delete_repository (two_repository_world true) "/srv/app" in
  r.2 = repository_deleted 2
  /\ git_events r.1 = [commit "bbb222" "/srv/lib" "2024-03-02T10:00:00"]
  /\ stored_points r.1 = [commit "bbb222" "/srv/lib" "2024-03-02T10:00:00"]
  /\ indexed_repositories r.1 !! "/srv/app" = None.
Proof.
  cbv zeta.
  destruct (delete_repository_purges (two_repository_world true) "/srv/app"
              {| path := "/srv/app"; first_indexed := "2024-03-01T09:00:00";
                 last_updated := "2024-03-03T10:00:01";
                 commit_count := 7; selected := true |})
    as (H1 & H2 & H3 & H4); [reflexivity | reflexivity |].
  rewrite H1, H2, H3, H4. repeat split; vm_compute; reflexivity.
Defined.

(** X13 (a failed deletion changes nothing): delete_repository answers 404
    for a path that is not tracked and 500 when the index call fails; in
    both cases the in-memory collection, the index and the repository
    table are left exactly as they were.  It succeeds in every other
    case. *)
Theorem delete_repository_is_all_or_nothing (w : World) (repo_path : string) :
  let r := delete_repository w repo_path in
  match r.2 with
  | repository_deleted _ =>
      is_Some (indexed_repositories w !! repo_path) /\ index_reachable w
  | repository_not_found =>
      r.1 = w /\ indexed_repositories w !! repo_path = None
  | delete_failed _ =>
      r.1 = w /\ is_Some (indexed_repositories w !! repo_path)
      /\ exists client, qdrant_client w = Some client /\ online client = false
  end.
Proof.
  cbv zeta. unfold delete_repository, index_reachable.
  destruct (indexed_repositories w !! repo_path) as [entry |] eqn:He;
    [| cbn; tauto].
  destruct (qdrant_client w) as [client |] eqn:Hc; [| cbn; eauto].
  rewrite (CollectionFacts.scroll_all_collects _ ids_step).
  destruct (online client) eqn:Hon.
  - cbn [bind app].
    pose proof (delete_if_any client
                  (fun e => Index.filter_holds (repository_filter repo_path) e)
                  Hon) as Hd.
    cbv zeta in Hd. rewrite Hd. cbn. eauto.
  - cbn. eauto 6.
Qed.

(** X14 (what the clean-up removes): cleanup_bad_entries always drops
    from the in-memory collection the entries without a commit hash, even
    when the index call then fails.  In the index it examines one page of
    1000 points: of those it deletes the ones without a commit hash, and
    points past the first 1000 are kept as they are.  The reported count
    is the number of points deleted from the index; entries dropped from
    memory are not counted, so without an index client it is 0. *)
Theorem cleanup_bad_entries_effect (w : World) :
  let r := cleanup_bad_entries w in
  git_events r.1 = List.filter has_hash (git_events w)
  /\ match qdrant_client w with
     | None => r.2 = cleaned 0 /\ qdrant_client r.1 = None
     | Some client =>
         if online client then
           stored_points r.1
           = (List.filter has_hash (firstn 1000 (points client))
              ++ skipn 1000 (points client))%list
           /\ r.2 = cleaned (length (points client)
                             - length (stored_points r.1))
         else
           qdrant_client r.1 = Some client
           /\ r.2 = cleanup_error (ServiceError "vector index call failed")
     end.
Proof.
  cbv zeta. unfold cleanup_bad_entries, stored_points.
  destruct (qdrant_client w) as [client |] eqn:Hc; [| cbn; tauto].
  unfold Collection.scroll.
  destruct (online client) eqn:Hon; [| cbn; tauto].
  cbn [bind fst snd default].
  set (N := Collection.numbered client).
  assert (HN : List.filter
                 (fun p => Index.filter_holds None p.2 && (0 <=? p.1)%nat) N
               = N).
  { apply filter_id. reflexivity. }
  rewrite HN.
  set (ids := map fst (List.filter (fun point => negb (has_hash point.2))
                                   (firstn 1000 N))).
  assert (Hd : match ids with
               | [] => Ok client
               | _ => Collection.delete client ids
               end
               = Ok {| points := (List.filter has_hash (firstn 1000 (points client))
                                  ++ skipn 1000 (points client))%list;
                       rank := rank client; online := online client |}).
  { assert (Hp : map snd
                   (List.filter
                      (fun p => negb (existsb (Nat.eqb p.1) ids)) N)
                 = (List.filter has_hash (firstn 1000 (points client))
                    ++ skipn 1000 (points client))%list).
    { rewrite <- (firstn_skipn 1000 N) at 1. subst ids.
      rewrite (CollectionFacts.delete_selected
                 (fun point => negb (has_hash point.2)))
        by (rewrite firstn_skipn; apply CollectionFacts.number_from_NoDup).
      rewrite map_app. f_equal; [| apply skipn_numbered].
      rewrite (filter_snd (fun e => negb (negb (has_hash e)))).
      subst N. rewrite firstn_numbered. apply filter_ext. intros e.
      apply negb_involutive. }
    destruct ids as [| i ids'] eqn:E.
    - rewrite <- Hp. cbn [existsb negb].
      rewrite filter_id by reflexivity.
      subst N. unfold Collection.numbered.
      rewrite CollectionFacts.number_from_snd. now destruct client.
    - unfold Collection.delete. rewrite Hon. fold N. now rewrite Hp. }
  rewrite Hd. cbn [bind fst snd git_events qdrant_client points].
  repeat split. f_equal. subst ids. rewrite length_map.
  rewrite length_app, length_skipn.
  pose proof (filter_length has_hash (firstn 1000 (points client))) as Hl.
  rewrite length_firstn in Hl.
  assert (length (List.filter (fun point => negb (has_hash point.2))
                              (firstn 1000 N))
          = length (List.filter (fun e => negb (has_hash e))
                                (firstn 1000 (points client)))) as ->.
  { rewrite <- (length_map snd).
    rewrite (filter_snd (fun e => negb (has_hash e))).
    subst N. now rewrite firstn_numbered. }
  lia.
Qed.

Lemma points_step (acc p1 p2 : list (nat * Event)) :
  ((acc ++ p1) ++ p2 = acc ++ (p1 ++ p2))%list.
Proof. now rewrite app_assoc. Qed.

(** X15 (orphan clean-up touches the index only): with the index
    reachable, cleanup_orphaned_commits deletes from the index exactly the
    points that name a non-empty repository which is not tracked; points
    of tracked repositories and points without repository stay, in their
    order.  It reports the number of points deleted, and it leaves the
    in-memory collection and the repository table as they were. *)
Theorem orphan_cleanup_effect (w : World) (client : Qdrant) :
  qdrant_client w = Some client -> online client = true ->
  let r := cleanup_orphaned_commits w in
  stored_points r.1
  = List.filter (fun e => negb (is_orphan (indexed_repositories w) e))
                (points client)
  /\ r.2 = orphans_removed (length (points client)
                            - length (stored_points r.1))
  /\ git_events r.1 = git_events w
  /\ indexed_repositories r.1 = indexed_repositories w.
Proof.
  intros Hc Hon. cbv zeta. unfold cleanup_orphaned_commits, stored_points.
  rewrite Hc.
  rewrite (CollectionFacts.scroll_all_collects _ points_step), Hon.
  cbn [bind app]. rewrite (filter_id _ (Collection.numbered client))
    by reflexivity.
  pose proof (delete_if_any client (is_orphan (indexed_repositories w)) Hon)
    as Hd.
  cbv zeta in Hd. rewrite Hd.
  cbn [bind fst snd qdrant_client git_events indexed_repositories points].
  repeat split. f_equal. rewrite length_map, <- removed_count.
  rewrite <- (length_map snd).
  rewrite (filter_snd (is_orphan (indexed_repositories w))).
  unfold Collection.numbered. now rewrite CollectionFacts.number_from_snd.
Qed.

Lemma orphan_cleanup_effect_witness :
  let w := {| git_events := two_repositories;
              qdrant_client := Some (index_of two_repositories true);
              embedding_model := true;
              indexed_repositories := tracked ["/srv/app"] |} in
  let r := cleanup_orphaned_commits w in
  stored_points r.1
  = [ commit "aaa111" "/srv/app" "2024-03-01T10:00:00";
      commit "ccc333" "/srv/app" "2024-03-03T10:00:00" ]
  /\ r.2 = orphans_removed 1
  /\ git_events r.1 = two_repositories.
Proof.
  cbv zeta.
  destruct (orphan_cleanup_effect
              {| git_events := two_repositories;
                 qdrant_client := Some (index_of two_repositories true);
                 embedding_model := true;
                 indexed_repositories := tracked ["/srv/app"] |}
              (index_of two_repositories true))
    as (H1 & H2 & H3 & _); [reflexivity | reflexivity |].
  rewrite H2, H1, H3. repeat split; vm_compute; reflexivity.
Defined.

(** the number of index points filed under [repo_path] *)
Definition indexed_commits (client : Qdrant) (repo_path : string) : nat :=
  length (List.filter (fun e => negb (other_repository repo_path e))
                      (points client)).

Lemma count_step (count : nat) (p1 p2 : list (nat * Event)) :
  (count + length p1 + length p2 = count + length (p1 ++ p2))%nat.
Proof. rewrite length_app. lia. Qed.

Lemma count_of_repository (client : Qdrant) (repo_path : string) :
  online client = true ->
  Collection.scroll_all client (repository_filter repo_path)
    (fun count page => (count + length page)%nat) 0%nat
  = Ok (indexed_commits client repo_path).
Proof.
  intros Hon.
  rewrite (CollectionFacts.scroll_all_collects _ count_step), Hon.
  f_equal. cbn [Nat.add]. unfold indexed_commits.
  rewrite <- (length_map snd).
  rewrite (filter_snd (Index.filter_holds (repository_filter repo_path))).
  unfold Collection.numbered. rewrite CollectionFacts.number_from_snd.
  f_equal. apply filter_ext. intros e. apply repository_filter_holds.
Qed.

Lemma recount_lookup (client : Qdrant) (paths : list string)
    (repos : gmap string RepositoryEntry) (p : string) :
  online client = true -> base.NoDup paths ->
  recount client paths repos !! p
  = if bool_decide (p ∈ paths)
    then set_commit_count (Z.of_nat (indexed_commits client p)) <$> repos !! p
    else repos !! p.
Proof.
  intros Hon. revert repos.
  induction paths as [| q rest IH]; intros repos Hnd; cbn [recount].
  - reflexivity.
  - apply list.NoDup_cons in Hnd as [Hq Hnd].
    rewrite (count_of_repository client q Hon), (IH _ Hnd).
    destruct (decide (p = q)) as [-> | Hne].
    + rewrite (bool_decide_eq_false_2 (q ∈ rest)) by exact Hq.
      rewrite (bool_decide_eq_true_2 (q ∈ q :: rest)) by left.
      apply lookup_alter_eq.
    + rewrite lookup_alter_ne by congruence.
      destruct (decide (p ∈ rest)) as [Hin | Hout].
      * rewrite !bool_decide_eq_true_2; [reflexivity | now right | exact Hin].
      * rewrite !bool_decide_eq_false_2; [reflexivity | | exact Hout].
        intros [E | Hin]%elem_of_cons; contradiction.
Qed.

(** X16 (listing the repositories repairs their counts): with the index
    reachable, get_repositories overwrites the commit_count of every
    tracked repository with the number of index points filed under exactly
    that path, whatever the count was before, and changes nothing else: no
    entry is added or removed, the other fields, the in-memory collection
    and the index stay as they were. *)
Theorem get_repositories_recounts (w : World) (client : Qdrant) :
  qdrant_client w = Some client -> online client = true ->
  let r := get_repositories w in
  (forall repo_path,
     indexed_repositories r.1 !! repo_path
     = set_commit_count (Z.of_nat (indexed_commits client repo_path))
         <$> indexed_repositories w !! repo_path)
  /\ r.2.1 = indexed_repositories r.1
  /\ git_events r.1 = git_events w
  /\ qdrant_client r.1 = qdrant_client w.
Proof.
  intros Hc Hon. cbv zeta. unfold get_repositories. rewrite Hc.
  cbn [fst snd indexed_repositories git_events qdrant_client].
  split; [| tauto]. intros p.
  rewrite (recount_lookup client _ _ p Hon)
    by apply NoDup_fst_map_to_list.
  case_bool_decide as Hp; [reflexivity |].
  destruct (indexed_repositories w !! p) as [entry |] eqn:He; [| reflexivity].
  exfalso. apply Hp. apply list_elem_of_fmap. exists (p, entry).
  split; [reflexivity | now apply elem_of_map_to_list].
Qed.

(** the push of [IngestionFacts.first_push] received twice, then the
    repositories listed *)
Lemma get_repositories_recounts_witness :
  let once := Ingestion.ingest_and_store IngestionFacts.posix_normalized
                "2024-03-09T12:00:01" (with_index [] [] true)
                IngestionFacts.first_push in
  let twice := Ingestion.ingest_and_store IngestionFacts.posix_normalized
                 "2024-03-09T12:00:02" once.1 IngestionFacts.first_push in
  IngestionFacts.commit_count_of twice.1 "/srv/app" = Some 2
  /\ IngestionFacts.commit_count_of (get_repositories twice.1).1 "/srv/app"
     = Some 1.
Proof.
  cbv zeta. split; [vm_compute; reflexivity |].
  set (w := (Ingestion.ingest_and_store _ _ _ _).1).
  set (client := match qdrant_client w with
                 | Some c => c
                 | None => index_of [] true
                 end).
  assert (Hc : qdrant_client w = Some client) by (vm_compute; reflexivity).
  assert (Hon : online client = true) by (vm_compute; reflexivity).
  destruct (get_repositories_recounts w client Hc Hon) as [H _].
  unfold IngestionFacts.commit_count_of. rewrite (H "/srv/app").
  vm_compute. reflexivity.
Defined.

Lemma orphan_without_table (e : Event) :
  is_orphan ∅ e = Py.truthy (repository e).
Proof.
  unfold is_orphan. cbn zeta. rewrite lookup_empty.
  rewrite bool_decide_eq_true_2 by reflexivity. rewrite andb_true_r.
  now destruct (repository e).
Qed.

(** X17 (clearing the repository table orphans every commit): after
    clear_all_repositories, which empties the table and keeps the commits,
    a reachable index loses to cleanup_orphaned_commits every point that
    names a repository; only points without repository stay, while the
    in-memory collection still holds all commits. *)
Theorem clearing_the_table_orphans_every_commit (w : World) (client : Qdrant) :
  qdrant_client w = Some client -> online client = true ->
  let r := cleanup_orphaned_commits (clear_all_repositories w) in
  stored_points r.1
  = List.filter (fun e => negb (Py.truthy (repository e))) (points client)
  /\ r.2 = orphans_removed
             (length (List.filter (fun e => Py.truthy (repository e))
                                  (points client)))
  /\ git_events r.1 = git_events w.
Proof.
  intros Hc Hon. cbv zeta.
  unfold cleanup_orphaned_commits, clear_all_repositories, stored_points.
  cbn [qdrant_client indexed_repositories git_events]. rewrite Hc.
  rewrite (CollectionFacts.scroll_all_collects _ points_step), Hon.
  cbn [bind app]. rewrite (filter_id _ (Collection.numbered client))
    by reflexivity.
  pose proof (delete_if_any client (is_orphan ∅) Hon) as Hd.
  cbv zeta in Hd. rewrite Hd.
  cbn [bind fst snd qdrant_client git_events points].
  split; [| split; [| reflexivity]].
  - apply filter_ext. intros e. now rewrite orphan_without_table.
  - f_equal. rewrite length_map, <- (length_map snd).
    rewrite (filter_snd (is_orphan ∅)).
    unfold Collection.numbered. rewrite CollectionFacts.number_from_snd.
    f_equal. apply filter_ext. intros e. apply orphan_without_table.
Qed.

Lemma clearing_the_table_orphans_every_commit_witness :
  let r := cleanup_orphaned_commits
             (clear_all_repositories (two_repository_world true)) in
  stored_points r.1 = [] /\ r.2 = orphans_removed 3
  /\ git_events r.1 = two_repositories.
Proof.
  cbv zeta.
  destruct (clearing_the_table_orphans_every_commit
              (two_repository_world true) (index_of two_repositories true))
    as (H1 & H2 & H3); [reflexivity | reflexivity |].
  rewrite H1, H2, H3. repeat split; vm_compute; reflexivity.
Defined.





End AdminFacts.

(** ** The context section of a commit report *)

Module CommitReportFacts.
Import CommitReport.

Lemma commit_index_found (i : Z) (h : string) (pre : list Event) (c : Event)
    (post : list Event) :
  commit_hash c = Some h ->
  Forall (fun e => commit_hash e <> Some h) pre ->
  commit_index_from i h (pre ++ c :: post) = i + Z.of_nat (length pre).
Proof.
  intros Hc Hpre. revert i.
  induction Hpre as [| e pre He Hpre IH]; intros i; cbn [app commit_index_from].
  - rewrite Hc, String.eqb_refl. cbn. lia.
  - replace (match commit_hash e with
             | Some h' => String.eqb h' h
             | None => false
             end) with false.
    + rewrite IH. cbn [length]. lia.
    + destruct (commit_hash e) as [h' |]; [| reflexivity].
      symmetry. apply String.eqb_neq. congruence.
Qed.

Lemma append_nil_r (s : string) : s +:+ "" = s.
Proof.
  induction s as [| c s IH]; [reflexivity |].
  change (String c (s +:+ "") = String c s). now rewrite IH.
Qed.

(** X19 (the context section names the neighbours in the list): for a
    commit with a hash, analyze_commit_context locates the first event of
    the list carrying that hash; it reports the event after it in the list
    as "Previous" and the event before it as "Following" (the list is
    taken to be newest first), each with the first 8 characters of its
    hash and the first 50 of its message, and answers "This is an
    isolated commit" exactly when the list holds nothing else. *)
Theorem context_names_the_list_neighbours
    (commit : Event) (h : string) (pre : list Event) (c : Event)
    (post : list Event) :
  commit_hash commit = Some h ->
  commit_hash c = Some h ->
  Forall (fun e => commit_hash e <> Some h) pre ->
  analyze_commit_context commit (pre ++ c :: post)
  = match head post, list.last pre with
    | None, None => "This is an isolated commit"
    | after, before =>
        from_option (neighbour_line "Previous") "" after
        +:+ from_option (neighbour_line "Following") "" before
    end.
Proof.
  intros Hh Hc Hpre. unfold analyze_commit_context. rewrite Hh.
  change (default "" (Some h)) with h.
  rewrite (commit_index_found 0 h pre c post Hc Hpre). cbv zeta.
  replace (0 + Z.of_nat (length pre) =? -1) with false
    by (symmetry; apply Z.eqb_neq; lia).
  replace (Z.to_nat (0 + Z.of_nat (length pre) + 1)) with (S (length pre))
    by lia.
  replace (Z.to_nat (0 + Z.of_nat (length pre) - 1)) with (pred (length pre))
    by lia.
  assert (Hprev : (pre ++ c :: post)%list !! S (length pre) = head post).
  { rewrite lookup_app_r by lia.
    replace (S (length pre) - length pre)%nat with 1%nat by lia.
    now destruct post. }
  rewrite Hprev. clear Hprev Hpre.
  assert (Hnext : forall e pre',
            ((pre' ++ [e]) ++ c :: post)%list !! pred (length (pre' ++ [e]))
            = Some e).
  { intros e pre'. rewrite length_app. cbn [length].
    replace (pred (length pre' + 1)) with (length pre') by lia.
    rewrite <- app_assoc. cbn [app]. now apply list_lookup_middle. }
  destruct pre as [| e pre _] using rev_ind;
    [| rewrite Hnext, last_snoc]; clear Hnext;
    destruct post as [| p post]; rewrite ?length_app;
    cbn [length head from_option list.last app];
    repeat match goal with
      | |- context [Z.ltb ?a ?b] =>
          destruct (Z.ltb_spec a b); try (exfalso; lia)
      end.
  - reflexivity.
  - change ("" +:+ neighbour_line "Previous" p)
      with (neighbour_line "Previous" p).
    now rewrite append_nil_r.
  - reflexivity.
  - reflexivity.
Qed.

Lemma context_names_the_list_neighbours_witness :
  analyze_commit_context (commit "bbb222" "/srv/app" "2024-03-02T10:00:00")
                         (rev scenario)
  = "**Previous:** [aaa111] update aaa111" +:+ newline
    +:+ "**Following:** [ccc333] update ccc333" +:+ newline.
Proof.
  change (rev scenario)
    with ([commit "ccc333" "/srv/app" "2024-03-03T10:00:00"]
          ++ commit "bbb222" "/srv/app" "2024-03-02T10:00:00"
             :: [commit "aaa111" "/srv/app" "2024-03-01T10:00:00"])%list.
  rewrite (context_names_the_list_neighbours
             (commit "bbb222" "/srv/app" "2024-03-02T10:00:00") "bbb222"
             [commit "ccc333" "/srv/app" "2024-03-03T10:00:00"]
             (commit "bbb222" "/srv/app" "2024-03-02T10:00:00")
             [commit "aaa111" "/srv/app" "2024-03-01T10:00:00"]);
    [vm_compute; reflexivity | reflexivity | reflexivity |].
  repeat constructor. discriminate.
Defined.

End CommitReportFacts.

(** ** Commit patterns *)

Module CommitPatternsFacts.
Import CommitPatterns.

(** the commits counted under some type *)
Definition classified (t : CommitTypes) : Z :=
  feature t + fix_ t + refactor t + docs t + other t.

Definition no_negative_count (t : CommitTypes) : Prop :=
  0 <= feature t /\ 0 <= fix_ t /\ 0 <= refactor t /\ 0 <= docs t
  /\ 0 <= other t.

Lemma count_commit_classified (m : string) (t : CommitTypes) :
  classified (count_commit m t) = classified t + 1
  /\ (no_negative_count t -> no_negative_count (count_commit m t)).
Proof.
  unfold count_commit, classified, no_negative_count.
  repeat match goal with
    | |- context [if ?b then _ else _] => destruct b
    end; cbn; (split; [lia | intros; lia]).
Qed.

Lemma visit_all_classified (events : list Event)
    (p : CommitTypes * list (string * Z)) :
  classified (fold_left visit events p).1
  = classified p.1 + Z.of_nat (length events)
  /\ (no_negative_count p.1 ->
      no_negative_count (fold_left visit events p).1).
Proof.
  revert p. induction events as [| e events IH]; intros p; cbn [fold_left].
  - cbn. split; [lia | tauto].
  - destruct (IH (visit p e)) as [H1 H2].
    destruct (count_commit_classified (default "" (message e)) p.1)
      as [H3 H4].
    cbn [visit fst] in *. split.
    + rewrite H1. cbn [visit fst length]. rewrite H3. lia.
    + intros H. apply H2. cbn [visit fst]. now apply H4.
Qed.

(** X20 (every commit is counted under exactly one type): the five
    commit-type counters of analyze_commit_patterns are non-negative and
    add up to the number of events analysed, whatever the messages are
    (an event without message counts as "other"). *)
Theorem commit_types_partition_the_events (events : list Event) :
  let t := commit_types (analyze_commit_patterns events) in
  feature t + fix_ t + refactor t + docs t + other t
  = Z.of_nat (length events)
  /\ 0 <= feature t /\ 0 <= fix_ t /\ 0 <= refactor t /\ 0 <= docs t
  /\ 0 <= other t.
Proof.
  cbv zeta. unfold analyze_commit_patterns. cbn [commit_types].
  match goal with
  | |- context [fold_left visit events ?s] =>
      destruct (visit_all_classified events s) as [H1 H2]
  end.
  split; [exact H1 |]. apply H2. cbn. unfold no_negative_count. cbn. lia.
Qed.

(** all the file names of the events, in the order the loop sees them *)
Definition all_changes (events : list Event) : list string :=
  flat_map (fun e => default [] (files_changed e)) events.

(** how often [file] occurs in the events' [files_changed] lists *)
Definition changes_of (file : string) (events : list Event) : Z :=
  Z.of_nat (length (List.filter (String.eqb file) (all_changes events))).

(** [d.get(file, 0)] *)
Definition lookup_count (file : string) (d : list (string * Z)) : Z :=
  match find (fun x => String.eqb x.1 file) d with
  | Some x => x.2
  | None => 0
  end.

Lemma bump_lookup (f g : string) (d : list (string * Z)) :
  lookup_count g (bump f d)
  = lookup_count g d + (if String.eqb g f then 1 else 0).
Proof.
  unfold lookup_count. induction d as [| [k n] d IH]; cbn.
  - rewrite (String.eqb_sym f g). destruct (String.eqb g f); reflexivity.
  - destruct (String.eqb_spec k f) as [-> | Hkf]; cbn.
    + rewrite (String.eqb_sym f g). destruct (String.eqb g f); cbn; lia.
    + destruct (String.eqb_spec k g) as [-> | Hkg]; cbn; [| exact IH].
      destruct (String.eqb_spec g f); [contradiction | lia].
Qed.

Lemma bump_keys (f : string) (d : list (string * Z)) (k : string) :
  In k (map fst (bump f d)) <-> k = f \/ In k (map fst d).
Proof.
  induction d as [| [k' n] d IH]; cbn.
  - intuition congruence.
  - destruct (String.eqb_spec k' f) as [-> | Hne]; cbn; [intuition |].
    rewrite IH. intuition.
Qed.

Lemma bump_NoDup (f : string) (d : list (string * Z)) :
  List.NoDup (map fst d) -> List.NoDup (map fst (bump f d)).
Proof.
  induction d as [| [k n] d IH]; cbn; intros Hnd.
  - repeat constructor. intros [].
  - inversion Hnd as [| ? ? Hk Hnd']; subst.
    destruct (String.eqb_spec k f) as [-> | Hne]; cbn;
      [now constructor |].
    constructor; [| now apply IH].
    rewrite bump_keys. intros [E | H]; [now apply Hne | now apply Hk].
Qed.

Lemma bump_positive (f : string) (d : list (string * Z)) :
  Forall (fun x => 0 < x.2) d -> Forall (fun x => 0 < x.2) (bump f d).
Proof.
  induction 1 as [| [k n] d Hk Hd IH]; cbn.
  - repeat constructor.
  - destruct (String.eqb k f); constructor; cbn in *; (lia || assumption).
Qed.

(** the state of the file counter *)
Definition counter_ok (files : list string) (d : list (string * Z)) : Prop :=
  List.NoDup (map fst d)
  /\ Forall (fun x => 0 < x.2) d
  /\ forall g, lookup_count g d
               = Z.of_nat (length (List.filter (String.eqb g) files)).

Lemma count_files (files seen : list string) (d : list (string * Z)) :
  counter_ok seen d ->
  counter_ok (seen ++ files) (fold_left (fun d file => bump file d) files d).
Proof.
  revert seen d. induction files as [| f files IH]; intros seen d Hd;
    cbn [fold_left].
  - now rewrite app_nil_r.
  - replace (seen ++ f :: files)%list with ((seen ++ [f]) ++ files)%list
      by (now rewrite <- app_assoc).
    apply IH. destruct Hd as (Hnd & Hpos & Hl).
    split; [now apply bump_NoDup |]. split; [now apply bump_positive |].
    intros g. rewrite bump_lookup, Hl, filter_app, length_app. cbn.
    destruct (String.eqb g f); cbn; lia.
Qed.

Lemma count_events (events : list Event) (seen : list string)
    (p : CommitTypes * list (string * Z)) :
  counter_ok seen p.2 ->
  counter_ok (seen ++ all_changes events) (fold_left visit events p).2.
Proof.
  revert seen p. induction events as [| e events IH]; intros seen p Hp;
    cbn [fold_left all_changes flat_map].
  - now rewrite app_nil_r.
  - rewrite app_assoc. apply IH. cbn [visit snd]. now apply count_files.
Qed.

Lemma common_files_ok (events : list Event) :
  counter_ok (all_changes events)
             (common_files (analyze_commit_patterns events)).
Proof.
  unfold analyze_commit_patterns. cbn [common_files].
  apply (count_events events []). cbn. split; [constructor |].
  split; [constructor | reflexivity].
Qed.

Lemma lookup_count_In (f : string) (n : Z) (d : list (string * Z)) :
  List.NoDup (map fst d) -> In (f, n) d -> lookup_count f d = n.
Proof.
  unfold lookup_count. induction d as [| [k m] d IH]; cbn; [tauto |].
  intros Hnd. inversion Hnd as [| ? ? Hk Hnd']; subst.
  intros [[= -> ->] | Hin]; [now rewrite String.eqb_refl |].
  destruct (String.eqb_spec k f) as [-> | _]; [| now apply IH].
  exfalso. apply Hk. change f with (f, n).1. now apply in_map.
Qed.

Lemma In_lookup_count (f : string) (d : list (string * Z)) :
  lookup_count f d <> 0 -> In (f, lookup_count f d) d.
Proof.
  unfold lookup_count.
  destruct (find (fun x => String.eqb x.1 f) d) as [[k n] |] eqn:E;
    [| congruence].
  intros _. apply find_some in E as [Hin Hk]. cbn in *.
  apply String.eqb_eq in Hk. now subst.
Qed.

(** not fewer changes than *)
Definition at_least (a b : string * Z) : Prop := b.2 <= a.2.

Lemma insert_by_count_perm (x : string * Z) (l : list (string * Z)) :
  Permutation (insert_by_count x l) (x :: l).
Proof.
  induction l as [| y l IH]; cbn; [reflexivity |].
  destruct (x.2 <? y.2); [| reflexivity].
  rewrite IH. apply perm_swap.
Qed.

Lemma sorted_by_count_perm (d : list (string * Z)) :
  Permutation (sorted_by_count d) d.
Proof.
  induction d as [| x d IH]; cbn; [reflexivity |].
  rewrite insert_by_count_perm. now constructor.
Qed.

Lemma insert_by_count_sorted (x : string * Z) (l : list (string * Z)) :
  StronglySorted at_least l -> StronglySorted at_least (insert_by_count x l).
Proof.
  induction 1 as [| y l Hs IH Hy]; cbn; [repeat constructor |].
  destruct (Z.ltb_spec x.2 y.2) as [Hlt | Hge].
  - constructor; [exact IH |].
    rewrite (Forall_forall (at_least y)). intros z Hz.
    apply (Permutation_in _ (insert_by_count_perm x l)) in Hz
      as [<- | Hz]; [unfold at_least; lia |].
    now apply (proj1 (Forall_forall _ _) Hy).
  - constructor; [now constructor |].
    constructor; [exact Hge |].
    eapply Forall_impl; [| exact Hy]. unfold at_least. intros z Hz. lia.
Qed.

Lemma sorted_by_count_sorted (d : list (string * Z)) :
  StronglySorted at_least (sorted_by_count d).
Proof.
  induction d as [| x d IH]; cbn; [constructor |].
  now apply insert_by_count_sorted.
Qed.

Lemma sorted_app {A} (R : A -> A -> Prop) (l1 l2 : list A) :
  StronglySorted R (l1 ++ l2) ->
  StronglySorted R l1 /\ forall a b, In a l1 -> In b l2 -> R a b.
Proof.
  induction l1 as [| x l1 IH]; cbn; intros Hs.
  - split; [constructor | tauto].
  - inversion Hs as [| ? ? Hs' Hx]; subst. destruct (IH Hs') as [H1 H2].
    split.
    + constructor; [exact H1 |]. apply Forall_app in Hx. tauto.
    + intros a b [<- | Ha] Hb; [| now apply H2].
      apply (proj1 (Forall_forall _ _) Hx), in_or_app. now right.
Qed.

(** X21 (the most-changed files are the ten most changed): the list
    most_changed_files of analyze_commit_patterns has at most ten entries,
    no file twice, ordered by decreasing count; each entry gives the number
    of times the file occurs in the events' files_changed lists; and a
    file that was changed but is not listed was changed no more often than
    any listed file (the list is then full). *)
Theorem most_changed_files_are_the_top_ten (events : list Event) :
  let top := most_changed_files (analyze_commit_patterns events) in
  (length top <= 10)%nat
  /\ List.NoDup (map fst top)
  /\ StronglySorted at_least top
  /\ (forall file n, In (file, n) top ->
        n = changes_of file events /\ 0 < n)
  /\ (forall file, 0 < changes_of file events ->
        In (file, changes_of file events) top
        \/ (length top = 10%nat
            /\ Forall (fun listed => changes_of file events <= listed.2) top)).
Proof.
  cbv zeta. destruct (common_files_ok events) as (Hnd & Hpos & Hl).
  unfold analyze_commit_patterns in *. cbn [most_changed_files common_files] in *.
  set (d := (fold_left visit events _).2) in *.
  set (S := sorted_by_count d).
  pose proof (sorted_by_count_perm d) as Hperm. fold S in Hperm.
  pose proof (sorted_by_count_sorted d) as Hsorted. fold S in Hsorted.
  rewrite <- (firstn_skipn 10 S) in Hsorted.
  apply sorted_app in Hsorted as [Htop Hcross].
  assert (Hin : forall x, In x (firstn 10 S) -> In x d).
  { intros x Hx. apply (Permutation_in _ Hperm).
    rewrite <- (firstn_skipn 10 S). apply in_or_app. now left. }
  split; [rewrite length_firstn; lia |].
  split.
  { assert (Hs : List.NoDup (map fst S))
      by (eapply Permutation_NoDup;
          [apply Permutation_map, Permutation_sym, Hperm | exact Hnd]).
    rewrite <- (firstn_skipn 10 S), map_app in Hs.
    eapply NoDup_app_remove_r, Hs. }
  split; [exact Htop |]. split.
  - intros file n Hn. apply Hin in Hn.
    split; [| apply (proj1 (Forall_forall _ _) Hpos _ Hn)].
    unfold changes_of. rewrite <- Hl. symmetry.
    now apply lookup_count_In.
  - intros file Hfile. unfold changes_of in *. rewrite <- Hl in *.
    assert (HinS : In (file, lookup_count file d) S).
    { apply (Permutation_in _ (Permutation_sym Hperm)), In_lookup_count.
      lia. }
    rewrite <- (firstn_skipn 10 S) in HinS.
    apply in_app_or in HinS as [Hfirst | Hrest]; [now left | right].
    split.
    + rewrite length_firstn.
      assert (length (skipn 10 S) <> 0)%nat
        by (destruct (skipn 10 S); [contradiction | discriminate]).
      rewrite length_skipn in *. lia.
    + apply Forall_forall. intros listed Hlisted.
      apply (Hcross listed _ Hlisted Hrest).
Qed.

End CommitPatternsFacts.

(** ** The commit listing's page *)

Module ListingFacts.
Import Text HexToken Listing.

Fixpoint all_digits (s : string) : bool :=
  match s with
  | EmptyString => true
  | String c s' => is_digit c && all_digits s'
  end.

Lemma substring_digits (k : nat) (s : string) :
  (k <= digit_run s)%nat -> all_digits (String.substring 0 k s) = true.
Proof.
  revert s. induction k as [| k IH]; intros [| c s] H; cbn in *;
    try reflexivity.
  destruct (is_digit c) eqn:Hc; [| lia]. cbn. apply IH. lia.
Qed.

Lemma number_at_digits (prev : option ascii) (s tok : string) :
  number_at prev s = Some tok -> all_digits tok = true.
Proof.
  unfold number_at. destruct (word_boundary prev (char_at s 0)); [| discriminate].
  destruct (find _ _) as [k |] eqn:Hf; [| discriminate]. intros [= <-].
  apply find_some in Hf as [Hin _]. rewrite <- in_rev in Hin.
  apply in_seq in Hin.
  apply substring_digits. lia.
Qed.

Lemma numbers_from_digits (prev : option ascii) (skip : nat) (s : string) :
  Forall (fun tok => all_digits tok = true) (numbers_from prev skip s).
Proof.
  revert prev skip. induction s as [| c s IH]; intros prev skip; cbn;
    [constructor |].
  destruct skip as [| k]; [| apply IH].
  destruct (number_at prev (String c s)) as [tok |] eqn:Hn; [| apply IH].
  constructor; [eapply number_at_digits, Hn | apply IH].
Qed.

Lemma int_nonneg_from (digits : list ascii) (n : Z) :
  0 <= n -> forallb is_digit digits = true ->
  0 <= fold_left (fun n c => 10 * n + (Z.of_N (N_of_ascii c) - 48)) digits n.
Proof.
  revert n. induction digits as [| c digits IH]; intros n Hn; cbn; [lia |].
  intros [Hc Hd]%andb_true_iff. apply IH; [| exact Hd].
  unfold is_digit, char_between in Hc.
  apply andb_true_iff in Hc as [Hlo _]. apply N.leb_le in Hlo.
  change (N_of_ascii "0") with 48%N in Hlo. lia.
Qed.

Lemma all_digits_list (s : string) :
  all_digits s = forallb is_digit (list_ascii_of_string s).
Proof. induction s as [| c s IH]; cbn; [| rewrite IH]; reflexivity. Qed.

Lemma decimal_nonneg (digits : string) :
  all_digits digits = true -> 0 <= decimal digits.
Proof.
  intros H. apply int_nonneg_from; [lia | now rewrite <- all_digits_list].
Qed.

(** the number of digits of the first number in the query ([0] when the
    query holds no number) *)
Definition first_number_digits (query : string) : nat :=
  match numbers_from None 0 query with
  | first :: _ => String.length first
  | [] => 0
  end.

(** the page size asked for: the first number in the query, [20] when
    there is none or it is [0] *)
Definition asked_page_size (query : string) : Z :=
  match numbers_from None 0 query with
  | first :: _ => if decimal first =? 0 then 20 else decimal first
  | [] => 20
  end.

Lemma asked_page_size_positive (query : string) : 1 <= asked_page_size query.
Proof.
  unfold asked_page_size.
  pose proof (numbers_from_digits None 0 query) as H.
  destruct (numbers_from None 0 query) as [| tok rest]; [lia |].
  inversion H as [| ? ? Htok _]; subst.
  pose proof (decimal_nonneg tok Htok).
  destruct (Z.eqb_spec (decimal tok) 0); lia.
Qed.

Lemma extract_number_small (query : string) :
  (first_number_digits query <= int_max_str_digits)%nat ->
  exists number,
    extract_number_from_query query = Ok number
    /\ (if number =? 0 then 20 else number) = asked_page_size query.
Proof.
  unfold first_number_digits, extract_number_from_query, asked_page_size, int.
  destruct (numbers_from None 0 query) as [| tok rest]; intros H.
  - exists 0. split; reflexivity.
  - destruct (Nat.ltb_spec int_max_str_digits (String.length tok)); [lia |].
    eexists. split; reflexivity.
Qed.

Lemma extract_number_large (query : string) :
  (int_max_str_digits < first_number_digits query)%nat ->
  extract_number_from_query query
  = Raise (ValueError
             "Exceeds the limit (4300 digits) for integer string conversion").
Proof.
  unfold first_number_digits, extract_number_from_query, int.
  destruct (numbers_from None 0 query) as [| tok rest]; intros H;
    [cbn in H; lia |].
  destruct (Nat.ltb_spec int_max_str_digits (String.length tok));
    [reflexivity | lia].
Qed.

(** X22 (the listing shows at least one commit, or fails on an oversized
    number): for a query of ASCII characters and a commit list that is not
    empty, list_all_commits raises a ValueError exactly when the first
    number in the query has more than 4300 digits, the bound of [int];
    otherwise its page size is that number, or 20 when the query holds no
    number or the number is 0, so it is at least 1, the page holds
    min(page size, number of commits) commits, is never empty, and the
    closing line is there exactly when commits are left out. *)
Theorem listing_page_is_never_empty (events : list Event) (query : string) :
  is_ascii query = true ->
  events <> [] ->
  ((first_number_digits query <= int_max_str_digits)%nat ->
   let limit := asked_page_size query in
   list_all_commits events query
   = Ok (commits_page limit (Py.take limit events)
                      (limit <? Z.of_nat (length events)))
   /\ 1 <= limit
   /\ length (Py.take limit events)
      = Nat.min (Z.to_nat limit) (length events)
   /\ Py.take limit events <> [])
  /\ ((int_max_str_digits < first_number_digits query)%nat ->
      list_all_commits events query
      = Raise (ValueError
                 "Exceeds the limit (4300 digits) for integer string conversion")).
Proof.
  intros _ Hne. destruct events as [| e es]; [contradiction |]. split.
  - intros Hsmall limit.
    pose proof (asked_page_size_positive query) as Hpos. fold limit in Hpos.
    destruct (extract_number_small query Hsmall) as (number & Hn & Hl).
    fold limit in Hl.
    assert (Hlen : length (Py.take limit (e :: es))
                   = Nat.min (Z.to_nat limit) (length (e :: es))).
    { unfold Py.take. destruct (Z.leb_spec 0 limit); [| lia].
      apply length_firstn. }
    split.
    { unfold list_all_commits. rewrite Hn. cbn [bind]. cbv zeta.
      now rewrite Hl. }
    split; [exact Hpos |]. split; [exact Hlen |].
    intros Hnil. rewrite Hnil in Hlen. cbn in Hlen. lia.
  - intros Hlarge. unfold list_all_commits.
    now rewrite (extract_number_large query Hlarge).
Qed.

(** a page of two out of the three commits of the scenario *)
Lemma listing_page_is_never_empty_witness :
  list_all_commits scenario "list commits, the last 2 please"
  = Ok (commits_page 2 (firstn 2 scenario) true).
Proof.
  refine (proj1 (proj1 (listing_page_is_never_empty scenario
                   "list commits, the last 2 please" _ _) _)).
  - vm_compute. reflexivity.
  - discriminate.
  - apply Nat.leb_le. vm_compute. reflexivity.
Defined.

(** A number of 4301 digits: the listing fails, whatever the commits are,
    unless there are none (the guard comes before the number is read). *)
Example oversized_page_size :
  let query :=
    "list commits " ++ string_of_list_ascii (repeat "7"%char 4301) in
  list_all_commits scenario query
  = Raise (ValueError
             "Exceeds the limit (4300 digits) for integer string conversion")
  /\ list_all_commits [] query = Ok no_commits_found.
Proof. vm_compute. split; reflexivity. Qed.

End ListingFacts.

(** ** Repository statistics *)

Module StatisticsFacts.
Import Statistics.

Example statistics_of_scenario :
  let s := Statistics.analyze_comprehensive_stats scenario in
  (Statistics.total_commits s, Statistics.contributors s,
   Statistics.author_stats s, Statistics.primary_language s,
   Statistics.date_range s)
  = (3%nat, 1%nat, [("Dev", 3)], "Python", "2024-03-03 to 2024-03-01").
Proof. vm_compute. reflexivity. Qed.

(** the commits counted under some category *)
Definition classified (t : Breakdown) : Z :=
  Features t + Fixes t + Refactors t + Documentation t + Tests t + Build t
  + Other t.

(** the commits counted for some name *)
Definition total_count (d : list (string * Z)) : Z :=
  fold_right (fun x n => x.2 + n) 0 d.

Lemma breakdown_gains_one (m : string) (t : Breakdown) :
  classified (count_commit m t) = classified t + 1.
Proof.
  unfold count_commit, classified. cbv zeta.
  repeat match goal with
    | |- context [if Text.any_in ?l ?q then _ else _] =>
        destruct (Text.any_in l q)
    end; cbn [Features Fixes Refactors Documentation Tests Build Other]. all: lia.
Qed.

Lemma bump_total (f : string) (d : list (string * Z)) :
  total_count (CommitPatterns.bump f d) = total_count d + 1.
Proof.
  unfold total_count. induction d as [| [k n] d IH]; cbn; [lia |].
  destruct (String.eqb k f); cbn in *; lia.
Qed.

Lemma total_count_perm (d d' : list (string * Z)) :
  Permutation d d' -> total_count d = total_count d'.
Proof. unfold total_count. induction 1; cbn in *; lia. Qed.

Lemma visit_counts (events : list Event) (t : Tally) :
  classified (commit_types (fold_left visit events t))
  = classified (commit_types t) + Z.of_nat (length events)
  /\ total_count (author_commits (fold_left visit events t))
     = total_count (author_commits t) + Z.of_nat (length events).
Proof.
  revert t. induction events as [| e events IH]; intros t; cbn [fold_left].
  - cbn. lia.
  - destruct (IH (visit t e)) as [H1 H2]. rewrite H1, H2.
    cbn [visit commit_types author_commits length].
    rewrite breakdown_gains_one, bump_total. lia.
Qed.

(** X23 (the statistics account for every commit): in the result of
    analyze_comprehensive_stats, total_commits is the number of events;
    the seven commit_breakdown counters add up to it (every commit falls
    under exactly one category); the commits of author_stats add up to it
    as well (every commit is credited to exactly one name, the author text
    before '<', stripped, or "Unknown"); and author_stats is ordered by
    decreasing number of commits. *)
Theorem statistics_account_for_every_commit (events : list Event) :
  let s := analyze_comprehensive_stats events in
  total_commits s = length events
  /\ Features (commit_breakdown s) + Fixes (commit_breakdown s)
     + Refactors (commit_breakdown s) + Documentation (commit_breakdown s)
     + Tests (commit_breakdown s) + Build (commit_breakdown s)
     + Other (commit_breakdown s)
     = Z.of_nat (total_commits s)
  /\ total_count (author_stats s) = Z.of_nat (total_commits s)
  /\ StronglySorted CommitPatternsFacts.at_least (author_stats s).
Proof.
  cbv zeta. unfold analyze_comprehensive_stats.
  cbn [total_commits commit_breakdown author_stats].
  match goal with
  | |- context [fold_left visit events ?t] =>
      destruct (visit_counts events t) as [H1 H2]
  end.
  split; [reflexivity |]. split; [exact H1 |]. split.
  - rewrite (total_count_perm _ _
               (CommitPatternsFacts.sorted_by_count_perm _)).
    exact H2.
  - apply CommitPatternsFacts.sorted_by_count_sorted.
Qed.

(** the timestamps the date range is taken from *)
Definition stamps (events : list Event) : list string :=
  omap (fun e => if Py.truthy (timestamp e) then timestamp e else None) events.

Definition ascending (a b : string) : Prop := String.leb a b = true.

Lemma insert_asc_perm (x : string) (l : list string) :
  Permutation (insert_asc x l) (x :: l).
Proof.
  induction l as [| y l IH]; cbn; [reflexivity |].
  destruct (String.ltb y x); [| reflexivity].
  rewrite IH. apply perm_swap.
Qed.

Lemma sort_perm (l : list string) : Permutation (sort l) l.
Proof.
  induction l as [| x l IH]; cbn; [reflexivity |].
  rewrite insert_asc_perm. now constructor.
Qed.

Lemma insert_asc_sorted (x : string) (l : list string) :
  StronglySorted ascending l -> StronglySorted ascending (insert_asc x l).
Proof.
  induction 1 as [| y l Hs IH Hy]; cbn; [repeat constructor |].
  destruct (String.ltb y x) eqn:Hlt.
  - constructor; [exact IH |].
    rewrite (Forall_forall (ascending y)). intros z Hz.
    apply (Permutation_in _ (insert_asc_perm x l)) in Hz as [<- | Hz];
      [now apply PyFacts.ltb_leb |].
    now apply (proj1 (Forall_forall _ _) Hy).
  - apply PyFacts.not_ltb_leb in Hlt.
    constructor; [now constructor |].
    constructor; [exact Hlt |].
    eapply Forall_impl; [| exact Hy]. unfold ascending. intros z Hz.
    eapply PyFacts.leb_trans; eassumption.
Qed.

Lemma sort_sorted (l : list string) : StronglySorted ascending (sort l).
Proof.
  induction l as [| x l IH]; cbn; [constructor |].
  now apply insert_asc_sorted.
Qed.

(** In a sorted list the first element is the least and the last one the
    greatest. *)
Lemma sorted_ends (l : list string) (lo hi : string) :
  StronglySorted ascending l -> head l = Some lo -> list.last l = Some hi ->
  Forall (fun t => String.leb t hi = true /\ String.leb lo t = true) l.
Proof.
  intros Hs Hlo Hhi. apply Forall_forall. intros t Ht. split.
  - destruct l as [| z l _] using rev_ind; [discriminate |].
    rewrite last_snoc in Hhi. injection Hhi as ->.
    apply CommitPatternsFacts.sorted_app in Hs as [_ Hs].
    apply in_app_or in Ht as [Ht | [<- | []]]; [| apply PyFacts.leb_refl].
    apply (Hs t hi Ht). now left.
  - destruct l as [| z l]; [discriminate |]. injection Hlo as ->.
    inversion Hs as [| ? ? _ Hz]; subst.
    destruct Ht as [<- | Ht]; [apply PyFacts.leb_refl |].
    now apply (proj1 (Forall_forall _ _) Hz).
Qed.

(** X24 (the date range runs from the newest date to the oldest): when
    some event has a non-empty timestamp, date_range of
    analyze_comprehensive_stats is "<first> to <last>" where <first> is
    the first 10 characters of the greatest timestamp and <last> the first
    10 characters of the least one, so the period is printed newest date
    first; events without timestamp are ignored. *)
Theorem date_range_runs_from_newest_to_oldest
    (events : list Event) (e : Event) :
  In e events -> Py.truthy (timestamp e) = true ->
  exists newest oldest,
    date_range (analyze_comprehensive_stats events)
    = Text.str_take 10 newest +:+ " to " +:+ Text.str_take 10 oldest
    /\ In newest (stamps events) /\ In oldest (stamps events)
    /\ Forall (fun t => String.leb t newest = true
                        /\ String.leb oldest t = true) (stamps events).
Proof.
  intros He Ht. unfold analyze_comprehensive_stats. cbn [date_range].
  fold (stamps events). cbv zeta.
  pose proof (sort_perm (stamps events)) as Hperm.
  pose proof (sort_sorted (stamps events)) as Hsorted.
  assert (Hin : In (default "" (timestamp e)) (stamps events)).
  { apply list_elem_of_In, list_elem_of_omap. exists e.
    split; [now apply list_elem_of_In |]. rewrite Ht.
    destruct (timestamp e); [reflexivity | discriminate]. }
  apply (Permutation_in _ (Permutation_sym Hperm)) in Hin.
  destruct (sort (stamps events)) as [| lo l] eqn:Hs; [contradiction |].
  destruct (list.last (lo :: l)) as [hi |] eqn:Hl;
    [| apply last_None in Hl; discriminate].
  exists hi, lo. split; [reflexivity |].
  pose proof (sorted_ends (lo :: l) lo hi Hsorted eq_refl Hl) as Hends.
  split; [| split].
  - apply (Permutation_in _ Hperm). apply last_Some in Hl as [l' ->].
    apply in_or_app. right. now left.
  - apply (Permutation_in _ Hperm). now left.
  - apply Forall_forall. intros t Hin'.
    apply (proj1 (Forall_forall _ _) Hends).
    now apply (Permutation_in _ (Permutation_sym Hperm)).
Qed.

Lemma date_range_runs_from_newest_to_oldest_witness :
  date_range (analyze_comprehensive_stats scenario)
  = "2024-03-03 to 2024-03-01"
  /\ exists newest oldest,
       date_range (analyze_comprehensive_stats scenario)
       = Text.str_take 10 newest +:+ " to " +:+ Text.str_take 10 oldest
       /\ In newest (stamps scenario) /\ In oldest (stamps scenario)
       /\ Forall (fun t => String.leb t newest = true
                           /\ String.leb oldest t = true) (stamps scenario).
Proof.
  split; [vm_compute; reflexivity |].
  apply (date_range_runs_from_newest_to_oldest scenario
           (commit "aaa111" "/srv/app" "2024-03-01T10:00:00"));
    [now left | reflexivity].
Defined.

End StatisticsFacts.

(** ** Repository de-duplication *)

Module RepositoryDedupFacts.
Import RepositoryDedup.

Section dedup.
Variable normalize_repo_path : string -> string.

(** What the loop has established after the items [processed]. *)
Record loop_invariant (processed : list (string * RepositoryEntry))
    (st : gmap string (string * Z) * list string) : Prop := {
  kept_is_processed :
    forall n kept, st.1 !! n = Some kept ->
      normalize_repo_path kept.1 = n /\ (kept.1 ∉ st.2)
      /\ exists e, (kept.1, e) ∈ processed /\ commit_count e = kept.2;
  processed_is_settled :
    forall p e, (p, e) ∈ processed ->
      exists kept, st.1 !! normalize_repo_path p = Some kept
                   /\ commit_count e <= kept.2
                   /\ (p = kept.1 \/ p ∈ st.2);
  removed_is_processed : forall p, p ∈ st.2 -> p ∈ processed.*1;
  removed_once : base.NoDup st.2
}.

Lemma invariant_start : loop_invariant [] (∅, []).
Proof.
  split; cbn.
  - intros n kept H. now rewrite lookup_empty in H.
  - intros p e H. now apply elem_of_nil in H.
  - intros p H. now apply elem_of_nil in H.
  - constructor.
Qed.

Lemma invariant_step (processed : list (string * RepositoryEntry))
    (st : gmap string (string * Z) * list string)
    (item : string * RepositoryEntry) :
  item.1 ∉ processed.*1 ->
  loop_invariant processed st ->
  loop_invariant (processed ++ [item])%list
                 (visit normalize_repo_path st item).
Proof.
  destruct st as [seen to_remove], item as [p e]. cbn [fst].
  intros Hnew [H1 H2 H3 H4]. cbn [fst snd] in *.
  assert (Hp : p ∉ to_remove) by (intros H; now apply Hnew, H3).
  unfold RepositoryDedup.visit. cbn [fst snd].
  destruct (seen !! normalize_repo_path p) as [[kp kc] |] eqn:Hs.
  - destruct (H1 _ _ Hs) as (Hn & Hk & e0 & He0 & Hc0). cbn [fst snd] in *.
    assert (Hkp : kp <> p).
    { intros ->. apply Hnew. apply list_elem_of_fmap. now exists (p, e0). }
    destruct (Z.ltb_spec kc (commit_count e)) as [Hlt | Hge]; split;
      cbn [fst snd].
    + intros n kept Hl.
      destruct (decide (n = normalize_repo_path p)) as [-> | Hne].
      * rewrite lookup_insert_eq in Hl. injection Hl as <-. cbn.
        split; [reflexivity |]. split.
        -- rewrite elem_of_app, list_elem_of_singleton. intros [H | H];
             [now apply Hp | now apply Hkp].
        -- exists e. split; [| reflexivity].
           rewrite elem_of_app, list_elem_of_singleton. now right.
      * rewrite lookup_insert_ne in Hl by congruence.
        destruct (H1 _ _ Hl) as (Hn' & Hk' & e' & He' & Hc').
        split; [exact Hn' |]. split.
        -- rewrite elem_of_app, list_elem_of_singleton. intros [H | H];
             [now apply Hk' |]. apply Hne. now rewrite <- Hn', H, Hn.
        -- exists e'. split; [| exact Hc'].
           rewrite elem_of_app. now left.
    + intros q eq Hq. apply elem_of_app in Hq as [Hq | Hq].
      * destruct (H2 _ _ Hq) as (kept & Hl & Hle & Hor).
        destruct (decide (normalize_repo_path q = normalize_repo_path p))
          as [E | Hne].
        -- rewrite E, Hs in Hl. injection Hl as <-. cbn [fst snd] in *.
           exists (p, commit_count e). rewrite E, lookup_insert_eq.
           split; [reflexivity |]. split; [cbn; lia |]. right.
           rewrite elem_of_app, list_elem_of_singleton. tauto.
        -- exists kept. rewrite lookup_insert_ne by congruence.
           split; [exact Hl |]. split; [exact Hle |].
           rewrite elem_of_app. tauto.
      * apply list_elem_of_singleton in Hq. injection Hq as -> ->.
        exists (p, commit_count e). rewrite lookup_insert_eq.
        split; [reflexivity |]. split; [cbn; lia | now left].
    + intros q Hq. rewrite fmap_app, elem_of_app.
      apply elem_of_app in Hq as [Hq | Hq]; [left; now apply H3 |].
      apply list_elem_of_singleton in Hq as ->. left.
      apply list_elem_of_fmap. now exists (kp, e0).
    + apply list.NoDup_app. split; [exact H4 |].
      split; [| apply NoDup_singleton].
      intros q Hq Hq'. apply list_elem_of_singleton in Hq' as ->.
      now apply Hk.
    + intros n kept Hl.
      destruct (H1 _ _ Hl) as (Hn' & Hk' & e' & He' & Hc').
      split; [exact Hn' |]. split.
      * rewrite elem_of_app, list_elem_of_singleton. intros [H | H];
          [now apply Hk' |]. apply Hnew. rewrite <- H.
        apply list_elem_of_fmap. now exists (kept.1, e').
      * exists e'. split; [| exact Hc']. rewrite elem_of_app. now left.
    + intros q eq Hq. apply elem_of_app in Hq as [Hq | Hq].
      * destruct (H2 _ _ Hq) as (kept & Hl & Hle & Hor).
        exists kept. split; [exact Hl |]. split; [exact Hle |].
        rewrite elem_of_app. tauto.
      * apply list_elem_of_singleton in Hq. injection Hq as -> ->.
        exists (kp, kc). split; [exact Hs |]. split; [cbn; lia |]. right.
        rewrite elem_of_app, list_elem_of_singleton. now right.
    + intros q Hq. rewrite fmap_app, elem_of_app.
      apply elem_of_app in Hq as [Hq | Hq]; [left; now apply H3 |].
      apply list_elem_of_singleton in Hq as ->. right. cbn. now left.
    + apply list.NoDup_app. split; [exact H4 |].
      split; [| apply NoDup_singleton].
      intros q Hq Hq'. apply list_elem_of_singleton in Hq' as ->.
      now apply Hp.
  - split; cbn [fst snd].
    + intros n kept Hl.
      destruct (decide (n = normalize_repo_path p)) as [-> | Hne].
      * rewrite lookup_insert_eq in Hl. injection Hl as <-. cbn.
        split; [reflexivity |]. split; [exact Hp |].
        exists e. split; [| reflexivity].
        rewrite elem_of_app, list_elem_of_singleton. now right.
      * rewrite lookup_insert_ne in Hl by congruence.
        destruct (H1 _ _ Hl) as (Hn' & Hk' & e' & He' & Hc').
        split; [exact Hn' |]. split; [exact Hk' |].
        exists e'. split; [| exact Hc']. rewrite elem_of_app. now left.
    + intros q eq Hq. apply elem_of_app in Hq as [Hq | Hq].
      * destruct (H2 _ _ Hq) as (kept & Hl & Hle & Hor).
        exists kept. rewrite lookup_insert_ne by congruence. tauto.
      * apply list_elem_of_singleton in Hq. injection Hq as -> ->.
        exists (p, commit_count e). rewrite lookup_insert_eq.
        split; [reflexivity |]. split; [cbn; lia | now left].
    + intros q Hq. rewrite fmap_app, elem_of_app. left. now apply H3.
    + exact H4.
Qed.

Lemma invariant_end (items processed : list (string * RepositoryEntry))
    (st : gmap string (string * Z) * list string) :
  base.NoDup ((processed ++ items)%list.*1) ->
  loop_invariant processed st ->
  loop_invariant (processed ++ items)%list
                 (fold_left (visit normalize_repo_path) items st).
Proof.
  revert processed st. induction items as [| item items IH];
    intros processed st Hnd Hinv; cbn [fold_left].
  - now rewrite app_nil_r.
  - replace (processed ++ item :: items)%list
      with ((processed ++ [item]) ++ items)%list in *
      by (now rewrite <- app_assoc).
    apply IH; [exact Hnd |]. apply invariant_step; [| exact Hinv].
    rewrite !fmap_app in Hnd. apply list.NoDup_app in Hnd as (Hnd & _ & _).
    apply list.NoDup_app in Hnd as (_ & Hdis & _).
    intros Hin. apply (Hdis _ Hin). cbn. now left.
Qed.

Lemma remove_all_lookup (to_remove : list string)
    (repos : gmap string RepositoryEntry) (p : string) :
  remove_all to_remove repos !! p
  = if decide (p ∈ to_remove) then None else repos !! p.
Proof.
  unfold remove_all. revert repos.
  induction to_remove as [| q l IH]; intros repos; cbn [fold_left].
  - now rewrite decide_False by apply not_elem_of_nil.
  - rewrite IH. destruct (decide (p ∈ l)) as [Hin | Hout].
    + rewrite decide_True by now right. reflexivity.
    + destruct (decide (p = q)) as [-> | Hne].
      * rewrite decide_True by left. apply lookup_delete_eq.
      * rewrite decide_False by (intros [E | H]%elem_of_cons; contradiction).
        now apply lookup_delete_ne.
Qed.

Lemma remove_all_size (to_remove : list string)
    (repos : gmap string RepositoryEntry) :
  base.NoDup to_remove ->
  (forall p, p ∈ to_remove -> is_Some (repos !! p)) ->
  (size (remove_all to_remove repos) + length to_remove)%nat = size repos.
Proof.
  unfold remove_all. revert repos.
  induction to_remove as [| q l IH]; intros repos Hnd Hin;
    cbn [fold_left length].
  - lia.
  - apply list.NoDup_cons in Hnd as [Hq Hnd].
    destruct (Hin q) as [e He]; [left |].
    specialize (IH (delete q repos) Hnd).
    pose proof (map_size_delete q repos) as Hd. rewrite He in Hd.
    assert (size repos <> 0%nat).
    { intros Hz. apply map_size_empty_inv in Hz. subst repos.
      now rewrite lookup_empty in He. }
    assert (Hl : forall p, p ∈ l -> is_Some (delete q repos !! p)).
    { intros p Hp. rewrite lookup_delete_ne by (intros ->; contradiction).
      apply Hin. now right. }
    specialize (IH Hl). rewrite Hd in IH. cbn [Nat.pred] in IH. lia.
Qed.

(** X25 (de-duplication keeps one path per repository): whatever the order
    in which the repository table is iterated, deduplicate_repositories
    only deletes entries; afterwards no two tracked paths normalize to the
    same path; every path tracked before is still represented by a tracked
    path with the same normalization and at least as many commits (the
    entry with the highest commit_count of each group survives); and the
    reply's removed and remaining counts are the numbers of entries
    deleted and left. *)
Theorem deduplication_keeps_one_path_per_repository
    (items : list (string * RepositoryEntry)) (w : World) :
  items ≡ₚ map_to_list (indexed_repositories w) ->
  let r := deduplicate_in_order normalize_repo_path items w in
  let repos := indexed_repositories w in
  let repos' := indexed_repositories r.1 in
  (forall p e, repos' !! p = Some e -> repos !! p = Some e)
  /\ (forall p q, is_Some (repos' !! p) -> is_Some (repos' !! q) ->
        normalize_repo_path p = normalize_repo_path q -> p = q)
  /\ (forall p e, repos !! p = Some e ->
        exists q e', repos' !! q = Some e'
                     /\ normalize_repo_path q = normalize_repo_path p
                     /\ commit_count e <= commit_count e')
  /\ r.2 = ((size repos - size repos')%nat, size repos').
Proof.
  intros Hperm. cbv zeta. unfold deduplicate_in_order.
  cbn [fst snd indexed_repositories].
  assert (Hnd : base.NoDup (([] ++ items)%list.*1)).
  { cbn [app]. rewrite Hperm. apply NoDup_fst_map_to_list. }
  pose proof (invariant_end items [] _ Hnd invariant_start) as [H1 H2 H3 H4].
  cbn [app] in *.
  set (st := fold_left (visit normalize_repo_path) items (∅, [])) in *.
  assert (Hitem : forall p e, indexed_repositories w !! p = Some e
                              <-> (p, e) ∈ items).
  { intros p e. rewrite Hperm. symmetry. apply elem_of_map_to_list. }
  assert (Hsurvive : forall p e, (p, e) ∈ items -> p ∉ st.2 ->
            remove_all st.2 (indexed_repositories w) !! p = Some e).
  { intros p e Hp Hout. rewrite remove_all_lookup, decide_False by exact Hout.
    now apply Hitem. }
  assert (Hdead : forall p,
            is_Some (remove_all st.2 (indexed_repositories w) !! p) ->
            (p ∉ st.2) /\ exists e, (p, e) ∈ items).
  { intros p [e He]. rewrite remove_all_lookup in He.
    destruct (decide (p ∈ st.2)); [discriminate |].
    split; [assumption |]. exists e. now apply Hitem. }
  split; [| split; [| split]].
  - intros p e He. rewrite remove_all_lookup in He.
    now destruct (decide (p ∈ st.2)).
  - intros p q Hp Hq E.
    destruct (Hdead p Hp) as (Hp' & ep & Hpi).
    destruct (Hdead q Hq) as (Hq' & eq & Hqi).
    destruct (H2 _ _ Hpi) as (kp & Hkp & _ & [-> | ?]); [| contradiction].
    destruct (H2 _ _ Hqi) as (kq & Hkq & _ & [-> | ?]); [| contradiction].
    rewrite E in Hkp. congruence.
  - intros p e He. apply Hitem in He.
    destruct (H2 _ _ He) as (kept & Hk & Hle & _).
    destruct (H1 _ _ Hk) as (Hn & Hout & e' & He' & Hc).
    exists kept.1, e'. split; [now apply Hsurvive |].
    split; [exact Hn | lia].
  - f_equal.
    pose proof (remove_all_size st.2 (indexed_repositories w) H4) as Hs.
    rewrite <- Hs; [lia |].
    intros p Hp. apply H3, list_elem_of_fmap in Hp as ([p' e] & -> & Hp).
    exists e. now apply Hitem.
Qed.

End dedup.

(** "/srv/app" tracked under two spellings *)
Definition spelled_twice : World :=
  {| git_events := []; qdrant_client := None; embedding_model := false;
     indexed_repositories :=
       <[ "/srv/app/" := {| path := "/srv/app/";
                            first_indexed := "2024-03-01T09:00:00";
                            last_updated := "2024-03-03T10:00:01";
                            commit_count := 2; selected := true |} ]>
       (<[ "/srv/app" := {| path := "/srv/app";
                            first_indexed := "2024-03-01T09:00:00";
                            last_updated := "2024-03-03T10:00:01";
                            commit_count := 5; selected := true |} ]> ∅) |}.

(** paths normalized by dropping the trailing slash of "/srv/app/" *)
Definition without_trailing_slash (p : string) : string :=
  if String.eqb p "/srv/app/" then "/srv/app" else p.

Lemma deduplication_keeps_one_path_per_repository_witness :
  let r := deduplicate_repositories without_trailing_slash spelled_twice in
  r.2 = (1%nat, 1%nat)
  /\ (commit_count <$> indexed_repositories r.1 !! "/srv/app") = Some 5
  /\ forall p q,
       is_Some (indexed_repositories r.1 !! p) ->
       is_Some (indexed_repositories r.1 !! q) ->
       without_trailing_slash p = without_trailing_slash q -> p = q.
Proof.
  cbv zeta. split; [vm_compute; reflexivity |].
  split; [vm_compute; reflexivity |].
  apply (deduplication_keeps_one_path_per_repository
           without_trailing_slash
           (map_to_list (indexed_repositories spelled_twice)) spelled_twice).
  reflexivity.
Defined.

End RepositoryDedupFacts.

(** ** The in-memory fallback *)

Module FallbackFacts.
Import Text Retrieval Endpoint.

(** X26 (the in-memory fallback serves the oldest commits): without index
    client or embedding model, a request that is not temporal, names no
    branch and no repository and does not ask for a summary is served from
    the first 2*limit events of the in-memory collection in insertion
    order, whatever the query says; events stored after them, such as a
    commit just ingested, are not retrieved. *)
Theorem memory_fallback_serves_the_oldest_commits
    (w : World) (req : QueryRequest) (n : Z) (older newer : list Event) :
  qdrant_client w = None \/ embedding_model w = false ->
  is_temporal_query (q_query req) = false ->
  build_branch_filter (q_branches req) = None ->
  str_in "summar" (lower (q_query req)) = false ->
  q_repository req = None ->
  q_limit req = Some n -> 0 <= n ->
  git_events w = (older ++ newer)%list ->
  (Z.to_nat (n * 2) <= length older)%nat ->
  retrieve w req = Ok (firstn (Z.to_nat (n * 2)) older).
Proof.
  intros Hmem Ht Hb Hs Hr Hl Hn Hev Hlen.
  unfold retrieve. rewrite Ht, Hb, Hs, Hl, Hr.
  rewrite bool_decide_eq_false_2 by (intros [? H]; discriminate).
  cbn [orb limit_times_2 bind]. f_equal.
  assert (search_similar w (q_query req) (n * 2) None None false
          = Py.take (n * 2) (git_events w)) as ->.
  { unfold search_similar.
    destruct Hmem as [-> | Hm]; [reflexivity |].
    rewrite Hm. now destruct (qdrant_client w). }
  unfold Py.take. destruct (Z.leb_spec 0 (n * 2)); [| lia].
  rewrite Hev, firstn_app.
  replace (Z.to_nat (n * 2) - length older)%nat with 0%nat by lia.
  cbn [firstn]. apply app_nil_r.
Qed.

Lemma memory_fallback_serves_the_oldest_commits_witness :
  retrieve (memory_only scenario)
           (request "what changed in the parser" (Some 1) None None)
  = Ok [ commit "aaa111" "/srv/app" "2024-03-01T10:00:00";
         commit "bbb222" "/srv/app" "2024-03-02T10:00:00" ].
Proof.
  apply (memory_fallback_serves_the_oldest_commits
           (memory_only scenario)
           (request "what changed in the parser" (Some 1) None None) 1
           [ commit "aaa111" "/srv/app" "2024-03-01T10:00:00";
             commit "bbb222" "/srv/app" "2024-03-02T10:00:00" ]
           [ commit "ccc333" "/srv/app" "2024-03-03T10:00:00" ]);
    first [reflexivity | now left | lia].
Defined.

End FallbackFacts.
